(** * The ownership-transfer engine of game.cpp

    A shallow embedding of the item-transfer functions
    ([Game::internalMoveItem], [Game::internalAddItem],
    [Game::internalRemoveItem]), of the single-step creature move
    ([Game::internalMoveCreature]) and of the decay scheduler
    ([Game::checkDecay], [Game::cleanup]) of src/game.cpp.

    Pointers are identifiers into a store, a null pointer is [None], the
    game object is an explicit [World] that every function threads.  The
    virtual methods of the holders (tiles, players, containers), the script
    hooks and the constants of the headers are not part of game.cpp: they
    are the fields of the interface [Externals], over which everything is
    parametric.

    Further sections embed the account storage and the unique items,
    [Game::startDecay], the check lists of the creatures, the trade
    between two players, [Game::addMoney], [Game::internalRemoveItems],
    the positions on the client's side, [Game::combatBlockHit],
    [Game::removeCreature] and [Game::getClosestFreeTile]; each names, as
    an interface of its own, what it takes from elsewhere. *)

From Stdlib Require Import ZArith List Bool Lia.
From Equations Require Import Equations.
Import ListNotations.
Local Open Scope Z_scope.

(** ** Machine integers *)

Definition to_uint32 (z : Z) : Z := z mod 2 ^ 32.
Definition to_uint16 (z : Z) : Z := z mod 2 ^ 16.
Definition to_uint8 (z : Z) : Z := z mod 2 ^ 8.
Definition to_int32 (z : Z) : Z :=
  let u := z mod 2 ^ 32 in if u <? 2 ^ 31 then u else u - 2 ^ 32.

(** ** Outcomes and enumerations *)

Inductive ReturnValue : Type :=
| RETURNVALUE_NOERROR
| RETURNVALUE_NOTPOSSIBLE
| RETURNVALUE_NOTENOUGHROOM
| RETURNVALUE_NEEDEXCHANGE
| RETURNVALUE_NOTMOVEABLE
| RETURNVALUE_CONTAINERNOTENOUGHROOM
| RETURNVALUE_NOTENOUGHCAPACITY.

Definition ReturnValue_eq_dec (a b : ReturnValue) : {a = b} + {a <> b}.
Proof. decide equality. Defined.

Definition isNoError (r : ReturnValue) : bool :=
  if ReturnValue_eq_dec r RETURNVALUE_NOERROR then true else false.

Inductive ItemDecayState_t : Type :=
| DECAYING_FALSE
| DECAYING_TRUE
| DECAYING_PENDING.

Definition isDecayingTrue (d : ItemDecayState_t) : bool :=
  match d with DECAYING_TRUE => true | _ => false end.

(** ** Things and holders *)

Definition ItemId := nat.
Bind Scope nat_scope with ItemId.

(** The three kinds of holder; a container is the item it is. *)
Inductive Cylinder : Type :=
| Tile (t : nat)
| Player (p : nat)
| Container (c : ItemId).

Definition Cylinder_eq_dec (a b : Cylinder) : {a = b} + {a <> b}.
Proof. decide equality; apply Nat.eq_dec. Defined.

Definition Cylinder_eqb (a b : Cylinder) : bool :=
  if Cylinder_eq_dec a b then true else false.

Inductive Creature : Type :=
| PlayerCreature (p : nat)
| OtherCreature (n : nat).

Definition getPlayer (c : Creature) : option nat :=
  match c with PlayerCreature p => Some p | OtherCreature _ => None end.

Record Position : Type := mkPosition { px : Z; py : Z; pz : Z }.

Record Item : Type := mkItem {
  id : Z;                        (* getID() *)
  count : Z;                     (* getItemCount() *)
  attributes : Z;                (* the attached attributes, as one value *)
  parent : option Cylinder;      (* getParent() *)
  duration : Z;                  (* getDuration(), milliseconds *)
  decaying : ItemDecayState_t;   (* getDecaying() *)
  referenceCounter : Z
}.

Definition setCount (it : Item) (c : Z) : Item :=
  mkItem (id it) c (attributes it) (parent it) (duration it) (decaying it)
         (referenceCounter it).
Definition setIdCount (it : Item) (i c : Z) : Item :=
  mkItem i c (attributes it) (parent it) (duration it) (decaying it)
         (referenceCounter it).
Definition setParent (it : Item) (p : option Cylinder) : Item :=
  mkItem (id it) (count it) (attributes it) p (duration it) (decaying it)
         (referenceCounter it).
Definition setDuration (it : Item) (d : Z) : Item :=
  mkItem (id it) (count it) (attributes it) (parent it) d (decaying it)
         (referenceCounter it).
Definition setDecaying (it : Item) (d : ItemDecayState_t) : Item :=
  mkItem (id it) (count it) (attributes it) (parent it) (duration it) d
         (referenceCounter it).
Definition incrementReferenceCounter (it : Item) : Item :=
  mkItem (id it) (count it) (attributes it) (parent it) (duration it)
         (decaying it) (referenceCounter it + 1).

(** What the holders and hooks have been told, in order. *)
Inductive Notification : Type :=
| PostAdd (holder : Cylinder) (thing : ItemId) (old : option Cylinder) (index : Z)
| PostRemove (holder : Cylinder) (thing : ItemId) (new : option Cylinder) (index : Z)
| OnRemoved (thing : ItemId)
| ItemMoved (player : nat) (thing : ItemId) (n : Z) (src dst : Cylinder).

Record World : Type := mkWorld {
  items : ItemId -> Item;                (* the item objects *)
  contents : Cylinder -> list ItemId;    (* index space of each holder *)
  creatureParent : nat -> option Cylinder;
  nextItem : ItemId;                     (* next object to allocate *)
  notifications : list Notification;     (* oldest first *)
  ToReleaseItems : list ItemId;
  toDecayItems : list ItemId;
  decayItems : Z -> list ItemId;         (* the array of buckets *)
  lastBucket : Z;
  decayed : list ItemId                  (* calls of internalDecayItem *)
}.

Definition upd {A : Type} (f : ItemId -> A) (k : ItemId) (v : A) : ItemId -> A :=
  fun j => if Nat.eqb j k then v else f j.
Definition updC {A : Type} (f : Cylinder -> A) (k : Cylinder) (v : A)
  : Cylinder -> A :=
  fun j => if Cylinder_eqb j k then v else f j.
Definition updZ {A : Type} (f : Z -> A) (k : Z) (v : A) : Z -> A :=
  fun j => if Z.eqb j k then v else f j.

Definition withItems (w : World) (f : ItemId -> Item) : World :=
  mkWorld f (contents w) (creatureParent w) (nextItem w) (notifications w)
          (ToReleaseItems w) (toDecayItems w) (decayItems w) (lastBucket w)
          (decayed w).
Definition withContents (w : World) (c : Cylinder -> list ItemId) : World :=
  mkWorld (items w) c (creatureParent w) (nextItem w) (notifications w)
          (ToReleaseItems w) (toDecayItems w) (decayItems w) (lastBucket w)
          (decayed w).
Definition withNextItem (w : World) (n : ItemId) : World :=
  mkWorld (items w) (contents w) (creatureParent w) n (notifications w)
          (ToReleaseItems w) (toDecayItems w) (decayItems w) (lastBucket w)
          (decayed w).
Definition notify (w : World) (n : Notification) : World :=
  mkWorld (items w) (contents w) (creatureParent w) (nextItem w)
          (notifications w ++ [n])
          (ToReleaseItems w) (toDecayItems w) (decayItems w) (lastBucket w)
          (decayed w).
Definition withToDecayItems (w : World) (l : list ItemId) : World :=
  mkWorld (items w) (contents w) (creatureParent w) (nextItem w)
          (notifications w) (ToReleaseItems w) l (decayItems w) (lastBucket w)
          (decayed w).
Definition withDecayItems (w : World) (d : Z -> list ItemId) : World :=
  mkWorld (items w) (contents w) (creatureParent w) (nextItem w)
          (notifications w) (ToReleaseItems w) (toDecayItems w) d (lastBucket w)
          (decayed w).
Definition withLastBucket (w : World) (b : Z) : World :=
  mkWorld (items w) (contents w) (creatureParent w) (nextItem w)
          (notifications w) (ToReleaseItems w) (toDecayItems w) (decayItems w) b
          (decayed w).
Definition withToReleaseItems (w : World) (l : list ItemId) : World :=
  mkWorld (items w) (contents w) (creatureParent w) (nextItem w)
          (notifications w) l (toDecayItems w) (decayItems w) (lastBucket w)
          (decayed w).
Definition logDecayed (w : World) (i : ItemId) : World :=
  mkWorld (items w) (contents w) (creatureParent w) (nextItem w)
          (notifications w) (ToReleaseItems w) (toDecayItems w) (decayItems w)
          (lastBucket w) (decayed w ++ [i]).

(** [Game::ReleaseItem]: [ToReleaseItems.push_back(item)]. *)
Definition ReleaseItem (w : World) (i : ItemId) : World :=
  withToReleaseItems w (ToReleaseItems w ++ [i]).

(** ** The holder tree *)

Definition getItem (c : Cylinder) : option ItemId :=
  match c with Container i => Some i | _ => None end.

Definition getParent (w : World) (c : Cylinder) : option Cylinder :=
  match c with
  | Tile _ => None
  | Player p => creatureParent w p
  | Container i => parent (items w i)
  end.

(** Modelled from the spec: [Item::isRemoved] is not in game.cpp; a Thing
    is owned by exactly one holder, or by none when it is pending
    destruction. *)
Definition isRemoved (w : World) (i : ItemId) : bool :=
  match parent (items w i) with None => true | Some _ => false end.

Fixpoint indexOf (i : ItemId) (l : list ItemId) (k : Z) : Z :=
  match l with
  | [] => -1
  | j :: r => if Nat.eqb j i then k else indexOf i r (k + 1)
  end.

(** Modelled from the spec: [getThingIndex], the position of a Thing in the
    ordered index space of a holder, -1 when the holder does not have it. *)
Definition getThingIndex (w : World) (c : Cylinder) (i : ItemId) : Z :=
  indexOf i (contents w c) 0.

Fixpoint removeId (i : ItemId) (l : list ItemId) : list ItemId :=
  match l with
  | [] => []
  | j :: r => if Nat.eqb j i then removeId i r else j :: removeId i r
  end.

Fixpoint insertAt (k : nat) (i : ItemId) (l : list ItemId) : list ItemId :=
  match k, l with
  | O, _ => i :: l
  | S k', [] => [i]
  | S k', j :: r => j :: insertAt k' i r
  end.

(** ** What game.cpp takes from elsewhere

    The queries of the holder protocol are virtual methods implemented by
    tiles, players and containers; the hook is a script callback; the
    constants and the item-type table come from headers.  The queries read
    the world and return; [index], [flags] and the colliding item of
    [queryDestination] are passed by reference, so that it returns them
    with the holder it resolves to. *)

Record ItemType : Type := mkItemType {
  stackable : bool;
  stackSize : Z
}.

(** The constants that game.cpp takes from its headers. *)
Class Constants : Type := {
  MAP_MAX_LAYERS : Z;
  EVENT_DECAYINTERVAL : Z;
  EVENT_DECAY_BUCKETS : Z;
  INDEX_WHEREEVER : Z;
  FLAG_IGNORENOTMOVEABLE : Z;
  FLAG_IGNOREBLOCKITEM : Z;
  FLAG_IGNOREBLOCKCREATURE : Z;
  DIRECTION_DIAGONAL_MASK : Z
}.

Class Externals : Type := {
  itemTypes : Z -> ItemType;               (* Item::items *)
  queryAdd : World -> Cylinder -> Z -> ItemId -> Z -> Z -> option Creature
             -> ReturnValue;
  queryMaxCount : World -> Cylinder -> Z -> ItemId -> Z -> Z
                  -> ReturnValue * Z;
  queryRemove : World -> Cylinder -> ItemId -> Z -> Z -> option Creature
                -> ReturnValue;
  queryDestination : World -> Cylinder -> Z -> ItemId -> option ItemId -> Z
                     -> Cylinder * Z * option ItemId * Z;
  canRemove : World -> ItemId -> bool;     (* Item::canRemove *)
  canDecay : World -> ItemId -> bool;      (* Item::canDecay *)
  eventPlayerOnMoveItem : World -> nat -> ItemId -> Z -> Position -> Position
                          -> Cylinder -> Cylinder -> ReturnValue
}.

Section Engine.

Context {K : Constants} {E : Externals}.

Definition isStackable (w : World) (i : ItemId) : bool :=
  stackable (itemTypes (id (items w i))).

Definition getStackSize (w : World) (i : ItemId) : Z :=
  stackSize (itemTypes (id (items w i))).

(** Modelled from the spec: [Item::equals] is not in game.cpp; two items
    are equal when they have the same type and attributes, and nothing
    equals a null pointer. *)
Definition equals (w : World) (i : ItemId) (o : option ItemId) : bool :=
  match o with
  | None => false
  | Some j => Z.eqb (id (items w i)) (id (items w j))
              && Z.eqb (attributes (items w i)) (attributes (items w j))
  end.

(** Modelled from the spec: [removeThing] is a virtual method of the
    holders; it removes a quantity: fewer units than the stack has come off
    the stack, anything else takes the Thing out of the holder, which
    leaves it without an owner. *)
Definition removeThing (w : World) (c : Cylinder) (i : ItemId) (n : Z) : World :=
  let it := items w i in
  if isStackable w i && (n <? count it) then
    withItems w (upd (items w) i (setCount it (count it - n)))
  else
    withItems (withContents w (updC (contents w) c (removeId i (contents w c))))
              (upd (items w) i (setParent it None)).

(** Modelled from the spec: [addThing] is a virtual method of the holders;
    it inserts the Thing at an index of the holder's ordered index space
    (at the front when the index names no position) and makes the holder
    its owner. *)
Definition insertPosition (index : Z) : nat :=
  if index <? 0 then O else Z.to_nat index.

Definition addThing (w : World) (c : Cylinder) (index : Z) (i : ItemId) : World :=
  withItems (withContents w (updC (contents w) c
                                  (insertAt (insertPosition index) i (contents w c))))
            (upd (items w) i (setParent (items w i) (Some c))).

(** Modelled from the spec: [updateThing] is a virtual method of the
    holders; it updates a stack's id and count in place. *)
Definition updateThing (w : World) (c : Cylinder) (i : ItemId) (newId newCount : Z)
  : World :=
  withItems w (upd (items w) i (setIdCount (items w i) newId newCount)).

(** Modelled from the spec: [Item::clone] is not in game.cpp; the clone is
    a new object with the type, count and attributes of the original and no
    owner. *)
Definition clone (w : World) (i : ItemId) : ItemId * World :=
  let k := nextItem w in
  (k, withNextItem
        (withItems w (upd (items w) k
           (mkItem (id (items w i)) (count (items w i)) (attributes (items w i))
                   None (duration (items w i)) (decaying (items w i)) 0)))
        (S k)).

Definition setItemCount (w : World) (i : ItemId) (c : Z) : World :=
  withItems w (upd (items w) i (setCount (items w i) c)).

Definition postAddNotification (w : World) (c : Cylinder) (i : ItemId)
           (old : option Cylinder) (index : Z) : World :=
  notify w (PostAdd c i old index).

Definition postRemoveNotification (w : World) (c : Cylinder) (i : ItemId)
           (new : option Cylinder) (index : Z) : World :=
  notify w (PostRemove c i new index).

(** The enrolment shared by the transfer functions:
    [incrementReferenceCounter(); setDecaying(DECAYING_TRUE);
     toDecayItems.push_front(item)]. *)
Definition enrolDecay (w : World) (i : ItemId) : World :=
  withToDecayItems
    (withItems w (upd (items w) i
       (setDecaying (incrementReferenceCounter (items w i)) DECAYING_TRUE)))
    (i :: toDecayItems w).

(** ** [Game::internalMoveItem]: resolving the destination (lines 1065-1078) *)

Record Destination : Type := mkDestination {
  toCylinder : Cylinder;
  destIndex : Z;
  toItem : option ItemId;
  destFlags : Z;
  queries : nat        (* how often queryDestination has been called *)
}.

Equations? resolveDestination (w : World) (item : ItemId) (toCyl : Cylinder)
  (index : Z) (toIt : option ItemId) (flags : Z) (floorN : Z) (calls : nat)
  : Destination by wf (Z.to_nat (MAP_MAX_LAYERS - floorN)) lt :=
  resolveDestination w item toCyl index toIt flags floorN calls
    with queryDestination w toCyl index item toIt flags := {
    | (subCylinder, index', toIt', flags')
        with Cylinder_eq_dec subCylinder toCyl := {
        | left _ => mkDestination toCyl index' toIt' flags' (S calls)
        | right _ with Z_ge_dec (floorN + 1) MAP_MAX_LAYERS := {
            | left _ => mkDestination subCylinder index' toIt' 0 (S calls)
            | right _ => resolveDestination w item subCylinder index' toIt' 0
                                            (floorN + 1) (S calls) } } }.
Proof. lia. Qed.

(** ** [Game::internalMoveItem] (lines 1051-1263) *)

Record MoveResult : Type := mkMoveResult {
  outcome : ReturnValue;
  movedItem : option ItemId;     (* what is written to [*_moveItem] *)
  world : World
}.

(** A block of the function either returns from the function or falls
    through to the next block; dereferencing a null pointer has no defined
    result. *)
Inductive Flow (A : Type) : Type :=
| Returned (r : ReturnValue) (w : World)
| Continue (a : A)
| Undefined.
Arguments Returned {A} r w.
Arguments Continue {A} a.
Arguments Undefined {A}.

(** [actorPlayer && fromPos && toPos] *)
Definition hookContext (actor : option Creature) (fromPos toPos : option Position)
  : option (nat * Position * Position) :=
  match actor with
  | Some a =>
      match getPlayer a, fromPos, toPos with
      | Some p, Some fp, Some tp => Some (p, fp, tp)
      | _, _, _ => None
      end
  | None => None
  end.

Definition preMoveHook (w : World) (hk : option (nat * Position * Position))
           (item : ItemId) (n : Z) (src dst : Cylinder) : ReturnValue :=
  match hk with
  | Some (p, fp, tp) => eventPlayerOnMoveItem w p item n fp tp src dst
  | None => RETURNVALUE_NOERROR
  end.

(** Lines 1085-1132: [queryAdd] on the destination and, when it answers
    needs-exchange, the move of the colliding item back to the source.
    Falls through with the outcome [ret], the colliding item and the
    world. *)
Definition exchangeItem (w : World) (fromCylinder : Cylinder) (d : Destination)
           (item : ItemId) (n : Z) (actor : option Creature)
           (hk : option (nat * Position * Position))
  : Flow (ReturnValue * option ItemId * World) :=
  let toCyl := toCylinder d in
  let ret := queryAdd w toCyl (destIndex d) item n (destFlags d) actor in
  if ReturnValue_eq_dec ret RETURNVALUE_NEEDEXCHANGE then
    match toItem d with
    | None => Undefined
    | Some t =>
        let tc := count (items w t) in
        let ret := queryAdd w fromCylinder (getThingIndex w fromCylinder item)
                            t tc 0 None in
        if isNoError ret then
          let eventRet :=
            match hk with
            | Some (p, fp, tp) =>
                eventPlayerOnMoveItem w p t tc tp fp toCyl fromCylinder
            | None => RETURNVALUE_NOERROR
            end in
          if negb (isNoError eventRet) then Returned eventRet w else
          let '(retExchangeMaxCount, maxExchangeQueryCount) :=
            queryMaxCount w fromCylinder INDEX_WHEREEVER t tc 0 in
          if negb (isNoError retExchangeMaxCount) && (maxExchangeQueryCount =? 0)
          then Returned retExchangeMaxCount w else
          if isNoError (queryRemove w toCyl t tc (destFlags d) actor) then
            let oldToItemIndex := getThingIndex w toCyl t in
            let w := removeThing w toCyl t tc in
            let w := addThing w fromCylinder (-1) t in
            let w := if oldToItemIndex =? -1 then w
                     else postRemoveNotification w toCyl t (Some fromCylinder)
                                                 oldToItemIndex in
            let newToItemIndex := getThingIndex w fromCylinder t in
            let w := if newToItemIndex =? -1 then w
                     else postAddNotification w fromCylinder t (Some toCyl)
                                              newToItemIndex in
            let ret := queryAdd w toCyl (destIndex d) item n (destFlags d) actor in
            let w := match hk with
                     | Some (p, _, _) =>
                         if isRemoved w t then w
                         else notify w (ItemMoved p t (to_uint16 n) toCyl fromCylinder)
                     | None => w
                     end in
            Continue (ret, None, w)
          else Continue (ret, Some t, w)
        else Continue (ret, Some t, w)
    end
  else Continue (ret, toItem d, w).

(** Lines 1145-1150: how much is taken from the source. *)
Definition moveQuantity (itemStackable : bool) (n maxQueryCount : Z) : Z :=
  if itemStackable then Z.min n maxQueryCount else maxQueryCount.

(** Lines 1165-1172: the walk up the parent chain; one unit of fuel for
    each holder visited. *)
Fixpoint onParentChain (fuel : nat) (w : World) (tmpCylinder : option Cylinder)
         (tradeItem : ItemId) : option bool :=
  match tmpCylinder with
  | None => Some false
  | Some c =>
      match fuel with
      | O => None
      | S fuel' =>
          match getItem c with
          | Some i => if Nat.eqb i tradeItem then Some true
                      else onParentChain fuel' w (getParent w c) tradeItem
          | None => onParentChain fuel' w (getParent w c) tradeItem
          end
      end
  end.

(** Lines 1160-1173: [Some true] when the move runs into the trade item. *)
Definition tradeItemInDestination (fuel : nat) (w : World) (toCyl : Cylinder)
           (tradeItem : option ItemId) : option bool :=
  match tradeItem with
  | None => Some false
  | Some t =>
      match getItem toCyl with
      | Some i => if Nat.eqb i t then Some true
                  else onParentChain fuel w (getParent w toCyl) t
      | None => onParentChain fuel w (getParent w toCyl) t
      end
  end.

(** The holder [c], or one of the holders above it, is the item [t]. *)
Inductive inParentChain (w : World) (t : ItemId) : option Cylinder -> Prop :=
| chain_here (c : Cylinder) :
    getItem c = Some t -> inParentChain w t (Some c)
| chain_up (c : Cylinder) :
    inParentChain w t (getParent w c) -> inParentChain w t (Some c).

(** Lines 1180-1203: the merge into the colliding stack and the split of
    the rest; yields the world, [moveItem] and [updateItem]. *)
Definition updateItems (w : World) (toCyl : Cylinder) (item : ItemId) (m : Z)
           (toIt : option ItemId) : World * option ItemId * option ItemId :=
  if isStackable w item then
    let '(w, n, updateItem) :=
      match toIt with
      | Some t =>
          if equals w item toIt then
            let n := Z.min (to_uint32 (getStackSize w t - count (items w t))) m in
            (updateThing w toCyl t (id (items w t)) (count (items w t) + n),
             n, Some t)
          else (w, 0, None)
      | None => (w, 0, None)
      end in
    let newCount := to_int32 (m - n) in
    let '(w, moveItem) :=
      if 0 <? newCount then
        let '(k, w) := clone w item in
        (setItemCount w k (to_uint8 newCount), Some k)
      else (w, None) in
    let w := if isRemoved w item then ReleaseItem w item else w in
    (w, moveItem, updateItem)
  else (w, Some item, None).

(** Lines 1175-1262: the commit, once every check has passed. *)
Definition commitMove (w : World) (fromCylinder : Cylinder) (d : Destination)
           (item : ItemId) (n : Z) (toIt : option ItemId)
           (retMaxCount : ReturnValue) (maxQueryCount m : Z) (ret : ReturnValue)
           (hk : option (nat * Position * Position)) : MoveResult :=
  let toCyl := toCylinder d in
  let itemIndex := getThingIndex w fromCylinder item in
  let w := removeThing w fromCylinder item m in
  let '(w, moveItem, updateItem) := updateItems w toCyl item m toIt in
  let w := match moveItem with
           | Some k => addThing w toCyl (destIndex d) k
           | None => w
           end in
  let w := if itemIndex =? -1 then w
           else postRemoveNotification w fromCylinder item (Some toCyl) itemIndex in
  let w := match moveItem with
           | Some k =>
               let moveItemIndex := getThingIndex w toCyl k in
               if moveItemIndex =? -1 then w
               else postAddNotification w toCyl k (Some fromCylinder) moveItemIndex
           | None => w
           end in
  let w := match updateItem with
           | Some u =>
               let updateItemIndex := getThingIndex w toCyl u in
               if updateItemIndex =? -1 then w
               else postAddNotification w toCyl u (Some fromCylinder) updateItemIndex
           | None => w
           end in
  let out := match moveItem with Some k => Some k | None => Some item end in
  if isStackable w item && (maxQueryCount <? n) then
    mkMoveResult retMaxCount out w
  else
    let w := match moveItem with
             | Some k =>
                 if (0 <? duration (items w k))
                    && negb (isDecayingTrue (decaying (items w k)))
                 then enrolDecay w k else w
             | None => w
             end in
    let w := match hk with
             | Some (p, _, _) =>
                 let moved :=
                   match updateItem, moveItem with
                   | Some u, Some k =>
                       if negb (isRemoved w u) then Some u
                       else if negb (isRemoved w k) then Some k
                       else if negb (isRemoved w item) then Some item else None
                   | Some u, None =>
                       if negb (isRemoved w u) then Some u
                       else if negb (isRemoved w item) then Some item else None
                   | None, Some k =>
                       if negb (isRemoved w k) then Some k
                       else if negb (isRemoved w item) then Some item else None
                   | None, None =>
                       if negb (isRemoved w item) then Some item else None
                   end in
                 match moved with
                 | Some x => notify w (ItemMoved p x (to_uint16 n)
                                                 fromCylinder toCyl)
                 | None => w
                 end
             | None => w
             end in
    mkMoveResult ret out w.

(** The function; [None] when the C++ has no defined result (a null
    colliding item is dereferenced, or [fuel] did not reach the end of the
    parent chain). *)
Definition internalMoveItem (fuel : nat) (w : World)
           (fromCylinder toCyl : Cylinder) (index : Z) (item : ItemId) (n : Z)
           (flags : Z) (actor : option Creature) (tradeItem : option ItemId)
           (fromPos toPos : option Position) : option MoveResult :=
  let hk := hookContext actor fromPos toPos in
  let ret := preMoveHook w hk item (to_uint16 n) fromCylinder toCyl in
  if negb (isNoError ret) then Some (mkMoveResult ret None w) else
  let d := resolveDestination w item toCyl index None flags 0 0 in
  (* destination is the same as the source? *)
  if match toItem d with Some t => Nat.eqb item t | None => false end
  then Some (mkMoveResult RETURNVALUE_NOERROR None w) else
  match exchangeItem w fromCylinder d item n actor hk with
  | Undefined => None
  | Returned r w => Some (mkMoveResult r None w)
  | Continue (ret, toIt, w) =>
      if negb (isNoError ret) then Some (mkMoveResult ret None w) else
      let '(retMaxCount, maxQueryCount) :=
        queryMaxCount w (toCylinder d) (destIndex d) item n (destFlags d) in
      if negb (isNoError retMaxCount) && (maxQueryCount =? 0)
      then Some (mkMoveResult retMaxCount None w) else
      let m := moveQuantity (isStackable w item) n maxQueryCount in
      let ret := queryRemove w fromCylinder item m (destFlags d) actor in
      if negb (isNoError ret) then Some (mkMoveResult ret None w) else
      match tradeItemInDestination fuel w (toCylinder d) tradeItem with
      | None => None
      | Some true => Some (mkMoveResult RETURNVALUE_NOTENOUGHROOM None w)
      | Some false =>
          Some (commitMove w fromCylinder d item n toIt retMaxCount
                           maxQueryCount m ret hk)
      end
  end.

(** ** [Game::internalAddItem] (lines 1272-1354)

    [remainderCount] is passed by reference and comes back with the
    outcome.  The function calls itself on the remainder it has split off;
    [fuel] bounds that nesting and is looked at nowhere else. *)
Fixpoint internalAddItem (fuel : nat) (w : World) (toCyl : option Cylinder)
         (item : option ItemId) (index flags : Z) (test : bool)
         (remainderCount : Z) : option (ReturnValue * Z * World) :=
  match toCyl, item with
  | Some destCylinder, Some item =>
      let '(toC, index, toIt, flags) :=
        queryDestination w destCylinder index item None flags in
      (* check if we can add this item *)
      let ret := queryAdd w toC index item (count (items w item)) flags None in
      if negb (isNoError ret) then Some (ret, remainderCount, w) else
      let '(ret, maxQueryCount) :=
        queryMaxCount w destCylinder INDEX_WHEREEVER item
                      (count (items w item)) flags in
      if negb (isNoError ret) then Some (ret, remainderCount, w) else
      if test then Some (RETURNVALUE_NOERROR, remainderCount, w) else
      let added :=
        match toIt with
        | Some t =>
            if isStackable w item && equals w item toIt then
              let m := Z.min (count (items w item)) maxQueryCount in
              let n := Z.min (to_uint32 (getStackSize w t - count (items w t))) m in
              let w := updateThing w toC t (id (items w t))
                                   (count (items w t) + n) in
              let cnt := to_int32 (m - n) in
              if 0 <? cnt then
                if negb (count (items w item) =? cnt) then
                  let '(k, w) := clone w item in
                  let w := setItemCount w k (to_uint8 cnt) in
                  match fuel with
                  | O => None
                  | S fuel' =>
                      match internalAddItem fuel' w (Some destCylinder) (Some k)
                                            INDEX_WHEREEVER flags false 0 with
                      | None => None
                      | Some (r, _, w) =>
                          if negb (isNoError r)
                          then Some (ReleaseItem w k, cnt)
                          else Some (w, remainderCount)
                      end
                  end
                else
                  let w := addThing w toC index item in
                  let itemIndex := getThingIndex w toC item in
                  Some (if itemIndex =? -1 then w
                        else postAddNotification w toC item None itemIndex,
                        remainderCount)
              else
                (* fully merged with toItem, item will be destroyed *)
                let w := ReleaseItem (notify w (OnRemoved item)) item in
                let itemIndex := getThingIndex w toC t in
                Some (if itemIndex =? -1 then w
                      else postAddNotification w toC t None itemIndex,
                      remainderCount)
            else
              let w := addThing w toC index item in
              let itemIndex := getThingIndex w toC item in
              Some (if itemIndex =? -1 then w
                    else postAddNotification w toC item None itemIndex,
                    remainderCount)
        | None =>
            let w := addThing w toC index item in
            let itemIndex := getThingIndex w toC item in
            Some (if itemIndex =? -1 then w
                  else postAddNotification w toC item None itemIndex,
                  remainderCount)
        end in
      match added with
      | None => None
      | Some (w, remainderCount) =>
          let w := if 0 <? duration (items w item) then enrolDecay w item else w in
          Some (RETURNVALUE_NOERROR, remainderCount, w)
      end
  | _, _ => Some (RETURNVALUE_NOTPOSSIBLE, remainderCount, w)
  end.

(** What the validation of [internalAddItem] answers: [queryAdd] on the
    resolved holder, then [queryMaxCount] on the holder that was named. *)
Definition addValidation (w : World) (destCylinder : Cylinder) (item : ItemId)
           (index flags : Z) : ReturnValue :=
  let '(toC, index, _, flags) :=
    queryDestination w destCylinder index item None flags in
  let ret := queryAdd w toC index item (count (items w item)) flags None in
  if isNoError ret then
    fst (queryMaxCount w destCylinder INDEX_WHEREEVER item
                       (count (items w item)) flags)
  else ret.

(** ** [Game::internalRemoveItem] (lines 1356-1395)

    [decayItems] is the array of buckets that [checkDecay] indexes;
    [decayItems->remove(item)] is [remove] on the element the array decays
    to, its first. *)
Definition internalRemoveItem (w : World) (item : ItemId) (n : Z) (test : bool)
           (flags : Z) : ReturnValue * World :=
  match parent (items w item) with
  | None => (RETURNVALUE_NOTPOSSIBLE, w)
  | Some cylinder =>
      let n := if n =? -1 then count (items w item) else n in
      (* check if we can remove this item *)
      let ret := queryRemove w cylinder item n
                             (Z.lor flags FLAG_IGNORENOTMOVEABLE) None in
      if negb (isNoError ret) then (ret, w) else
      if negb (canRemove w item) then (RETURNVALUE_NOTPOSSIBLE, w) else
      if test then (RETURNVALUE_NOERROR, w) else
      let index := getThingIndex w cylinder item in
      (* remove the item *)
      let w := removeThing w cylinder item n in
      let w :=
        if isRemoved w item then
          let w := notify w (OnRemoved item) in
          let w := if canDecay w item
                   then withDecayItems w
                          (updZ (decayItems w) 0 (removeId item (decayItems w 0)))
                   else w in
          ReleaseItem w item
        else w in
      (RETURNVALUE_NOERROR, postRemoveNotification w cylinder item None index)
  end.

(** ** The decay scheduler (lines 4544-4587 and 4647-4669)

    C++ [/] and [%] are [Z.quot] and [Z.rem]. *)

Definition decayRotation : Z := EVENT_DECAYINTERVAL * EVENT_DECAY_BUCKETS.

Definition push_back (w : World) (bucket : Z) (i : ItemId) : World :=
  withDecayItems w (updZ (decayItems w) bucket (decayItems w bucket ++ [i])).

(** Modelled from the spec: [Item::decreaseDuration] is not in game.cpp;
    it decrements the duration by the elapsed interval. *)
Definition decreaseDuration (w : World) (i : ItemId) (time : Z) : World :=
  withItems w (upd (items w) i (setDuration (items w i) (duration (items w i) - time))).

(** The call [internalDecayItem(item)] (lines 4530-4542) hands the item to
    [transformItem] or to [internalRemoveItem], which act on the holder
    tree; the scheduler records that the call was made. *)
Definition internalDecayItem (w : World) (i : ItemId) : World := logDecayed w i.

(** One turn of the loop of [checkDecay], with the iterator on [i]:
    [before] are the items the iterator has passed and left in the bucket,
    [after] those still to come.  Returns whether [i] stays. *)
Definition checkDecayItem (bucket : Z) (before after : list ItemId) (w : World)
           (i : ItemId) : bool * World :=
  let erase (w : World) :=
    withDecayItems w (updZ (decayItems w) bucket (before ++ after)) in
  if negb (canDecay w i) then
    let w := withItems w (upd (items w) i (setDecaying (items w i) DECAYING_FALSE)) in
    (false, erase (ReleaseItem w i))
  else
    let dur := to_int32 (duration (items w i)) in
    let decreaseTime := Z.min decayRotation dur in
    let dur := dur - decreaseTime in
    let w := decreaseDuration w i decreaseTime in
    if dur <=? 0 then
      (false, ReleaseItem (internalDecayItem (erase w) i) i)
    else if dur <? decayRotation then
      let w := erase w in
      let newBucket :=
        Z.rem (bucket + Z.quot (dur + Z.quot EVENT_DECAYINTERVAL 2) 1000)
              EVENT_DECAY_BUCKETS in
      if newBucket =? bucket then
        (false, ReleaseItem (internalDecayItem w i) i)
      else (false, push_back w newBucket i)
    else (true, w).

Fixpoint checkDecayLoop (bucket : Z) (before rest : list ItemId) (w : World)
  : World :=
  match rest with
  | [] => w
  | i :: after =>
      let '(stays, w) := checkDecayItem bucket before after w i in
      checkDecayLoop bucket (if stays then before ++ [i] else before) after w
  end.

Definition decrementReferenceCounter (w : World) (i : ItemId) : World :=
  let it := items w i in
  withItems w (upd (items w) i
    (mkItem (id it) (count it) (attributes it) (parent it) (duration it)
            (decaying it) (referenceCounter it - 1))).

(** Lines 4660-4667, for one item of [toDecayItems]. *)
Definition distributeDecay (w : World) (i : ItemId) : World :=
  let dur := to_uint32 (duration (items w i)) in
  if decayRotation <=? dur then push_back w (lastBucket w) i
  else push_back w (Z.rem (lastBucket w + 1 + Z.quot dur 1000)
                          EVENT_DECAY_BUCKETS) i.

(** [Game::cleanup]; the creatures to release are not part of the world
    modelled here. *)
Definition cleanup (w : World) : World :=
  let w := fold_left decrementReferenceCounter (ToReleaseItems w) w in
  let w := withToReleaseItems w [] in
  let w := fold_left distributeDecay (toDecayItems w) w in
  withToDecayItems w [].

(** [Game::checkDecay]; the scheduler calls it every
    [EVENT_DECAYINTERVAL] milliseconds. *)
Definition checkDecay (w : World) : World :=
  let bucket := Z.rem (lastBucket w + 1) EVENT_DECAY_BUCKETS in
  let w := checkDecayLoop bucket [] (decayItems w bucket) w in
  cleanup (withLastBucket w bucket).

Fixpoint ticks (n : nat) (w : World) : World :=
  match n with
  | O => w
  | S n' => ticks n' (checkDecay w)
  end.

End Engine.

Arguments Returned {A} r w.
Arguments Continue {A} a.
Arguments Undefined {A}.

(** ** [Game::internalMoveCreature] (lines 754-851)

    The map, its tiles and the position arithmetic are not in game.cpp.
    A tile is named by a number; the map answers for it. *)

Inductive tileflags_t : Type :=
| TILESTATE_BLOCKSOLID
| TILESTATE_IMMOVABLEBLOCKSOLID
| TILESTATE_FLOORCHANGE.

Definition TileRef := nat.
Definition CreatureId := nat.
Bind Scope nat_scope with TileRef.
Bind Scope nat_scope with CreatureId.

Class MapExternals : Type := {
  Map : Type;
  getNextPosition : Z -> Position -> Position;
  getDirectionTo : Position -> Position -> Z;
  getTile : Map -> Z -> Z -> Z -> option TileRef;       (* map.getTile *)
  hasHeight : Map -> TileRef -> Z -> bool;              (* Tile::hasHeight *)
  hasGround : Map -> TileRef -> bool;                   (* getGround() != nullptr *)
  hasFlag : Map -> TileRef -> tileflags_t -> bool;      (* Tile::hasFlag *)
  tilePosition : Map -> TileRef -> Position;
  creatureTile : Map -> CreatureId -> TileRef;          (* getTile(), getParent() *)
  moveCreature : Map -> CreatureId -> TileRef -> Map;   (* map.moveCreature *)
  tileQueryAdd : Map -> TileRef -> Z -> CreatureId -> Z -> Z -> ReturnValue;
  tileQueryDestination : Map -> TileRef -> Z -> CreatureId -> Z
                         -> TileRef * Z * Z
}.

Section Movement.

Context {K : Constants} {M : MapExternals}.

Record Walk : Type := mkWalk {
  map : Map;
  direction : CreatureId -> Z;              (* getDirection() *)
  lastPosition : CreatureId -> Position
}.

Definition getPosition (mw : Walk) (c : CreatureId) : Position :=
  tilePosition (map mw) (creatureTile (map mw) c).

Definition setDirection (mw : Walk) (c : CreatureId) (dir : Z) : Walk :=
  mkWalk (map mw) (upd (direction mw) c dir) (lastPosition mw).

Definition setLastPosition (mw : Walk) (c : CreatureId) (p : Position) : Walk :=
  mkWalk (map mw) (direction mw) (upd (lastPosition mw) c p).

Definition withMap (mw : Walk) (m : Map) : Walk :=
  mkWalk m (direction mw) (lastPosition mw).

(** Lines 3552-3568, without the messages to the spectators. *)
Definition internalCreatureTurn (mw : Walk) (c : CreatureId) (dir : Z) : Walk :=
  if direction mw c =? dir then mw else setDirection mw c dir.

(** [tmpTile == nullptr ||
     (tmpTile->getGround() == nullptr && !tmpTile->hasFlag(TILESTATE_BLOCKSOLID))] *)
Definition isOpenAbove (m : Map) (tmpTile : option TileRef) : bool :=
  match tmpTile with
  | None => true
  | Some t => negb (hasGround m t) && negb (hasFlag m t TILESTATE_BLOCKSOLID)
  end.

(** Lines 763-777, "try to go up". *)
Definition tryGoUp (mw : Walk) (c : CreatureId) (dir : Z)
           (currentPos destPos : Position) (flags : Z) : Walk * Position * Z :=
  let m := map mw in
  if negb (pz currentPos =? 8) && hasHeight m (creatureTile m c) 3 then
    if isOpenAbove m (getTile m (px currentPos) (py currentPos) (pz currentPos - 1))
    then
      match getTile m (px destPos) (py destPos) (pz destPos - 1) with
      | Some t =>
          if hasGround m t && negb (hasFlag m t TILESTATE_IMMOVABLEBLOCKSOLID) then
            let flags := Z.lor flags (Z.lor FLAG_IGNOREBLOCKITEM
                                            FLAG_IGNOREBLOCKCREATURE) in
            if negb (hasFlag m t TILESTATE_FLOORCHANGE) then
              (setDirection mw c dir,
               mkPosition (px destPos) (py destPos) (to_uint8 (pz destPos - 1)),
               flags)
            else (mw, destPos, flags)
          else (mw, destPos, flags)
      | None => (mw, destPos, flags)
      end
    else (mw, destPos, flags)
  else (mw, destPos, flags).

(** Lines 779-790, "try to go down". *)
Definition tryGoDown (mw : Walk) (c : CreatureId) (dir : Z)
           (currentPos destPos : Position) (flags : Z) : Walk * Position * Z :=
  let m := map mw in
  if negb (pz currentPos =? 7) && (pz currentPos =? pz destPos) then
    if isOpenAbove m (getTile m (px destPos) (py destPos) (pz destPos)) then
      match getTile m (px destPos) (py destPos) (pz destPos + 1) with
      | Some t =>
          if hasHeight m t 3 && negb (hasFlag m t TILESTATE_IMMOVABLEBLOCKSOLID) then
            (setDirection mw c dir,
             mkPosition (px destPos) (py destPos) (to_uint8 (pz destPos + 1)),
             Z.lor flags (Z.lor FLAG_IGNOREBLOCKITEM FLAG_IGNOREBLOCKCREATURE))
          else (mw, destPos, flags)
      | None => (mw, destPos, flags)
      end
    else (mw, destPos, flags)
  else (mw, destPos, flags).

(** Lines 756-791: where the step goes, with which flags. *)
Definition stepTarget (mw : Walk) (c : CreatureId) (isPlayer : bool) (dir : Z)
           (flags : Z) : Walk * Position * Z :=
  let mw := setLastPosition mw c (getPosition mw c) in
  let currentPos := getPosition mw c in
  let destPos := getNextPosition dir currentPos in
  let diagonalMovement := negb (Z.land dir DIRECTION_DIAGONAL_MASK =? 0) in
  if isPlayer && negb diagonalMovement then
    let '(mw, destPos, flags) := tryGoUp mw c dir currentPos destPos flags in
    tryGoDown mw c dir currentPos destPos flags
  else (mw, destPos, flags).

Record Redirect : Type := mkRedirect {
  redirected : Walk;
  fromTile : option TileRef;     (* fromCylinder *)
  finalTile : TileRef;           (* toCylinder *)
  redirects : nat                (* how often queryDestination has been called *)
}.

(** Lines 820-837: the redirects a tile asks for. *)
Equations? followRedirects (mw : Walk) (c : CreatureId) (toCyl : TileRef)
  (fromCyl : option TileRef) (index flags : Z) (n : Z) (calls : nat)
  : Redirect by wf (Z.to_nat (MAP_MAX_LAYERS - n)) lt :=
  followRedirects mw c toCyl fromCyl index flags n calls
    with tileQueryDestination (map mw) toCyl index c flags := {
    | (subCylinder, index', flags') with Nat.eq_dec subCylinder toCyl := {
        | left _ => mkRedirect mw fromCyl toCyl (S calls)
        | right _
            with Nat.eq_dec (creatureTile (moveCreature (map mw) c subCylinder) c)
                            subCylinder := {
            | right _ =>
                (* could happen if a script move the creature *)
                mkRedirect (withMap mw (moveCreature (map mw) c subCylinder))
                           None toCyl (S calls)
            | left _ with Z_ge_dec (n + 1) MAP_MAX_LAYERS := {
                | left _ =>
                    mkRedirect (withMap mw (moveCreature (map mw) c subCylinder))
                               (Some toCyl) subCylinder (S calls)
                | right _ =>
                    followRedirects (withMap mw (moveCreature (map mw) c subCylinder))
                                    c subCylinder (Some toCyl) index' 0
                                    (n + 1) (S calls) } } } }.
Proof. lia. Qed.

(** Lines 800-851. *)
Definition internalMoveCreatureTo (mw : Walk) (c : CreatureId) (toTile : TileRef)
           (flags : Z) : ReturnValue * Walk :=
  (* check if we can move the creature to the destination *)
  let ret := tileQueryAdd (map mw) toTile 0 c 1 flags in
  if negb (isNoError ret) then (ret, mw) else
  let mw := withMap mw (moveCreature (map mw) c toTile) in
  if negb (Nat.eqb (creatureTile (map mw) c) toTile)
  then (RETURNVALUE_NOERROR, mw) else
  let r := followRedirects mw c toTile None 0 flags 0 0 in
  let mw := redirected r in
  match fromTile r with
  | Some f =>
      let fromPosition := tilePosition (map mw) f in
      let toPosition := tilePosition (map mw) (finalTile r) in
      if negb (pz fromPosition =? pz toPosition)
         && (negb (px fromPosition =? px toPosition)
             || negb (py fromPosition =? py toPosition))
      then
        let dir := getDirectionTo fromPosition toPosition in
        if Z.land dir DIRECTION_DIAGONAL_MASK =? 0
        then (RETURNVALUE_NOERROR, internalCreatureTurn mw c dir)
        else (RETURNVALUE_NOERROR, mw)
      else (RETURNVALUE_NOERROR, mw)
  | None => (RETURNVALUE_NOERROR, mw)
  end.

(** Lines 754-798. *)
Definition internalMoveCreature (mw : Walk) (c : CreatureId) (isPlayer : bool)
           (dir : Z) (flags : Z) : ReturnValue * Walk :=
  let '(mw, destPos, flags) := stepTarget mw c isPlayer dir flags in
  match getTile (map mw) (px destPos) (py destPos) (pz destPos) with
  | None => (RETURNVALUE_NOTPOSSIBLE, mw)
  | Some toTile => internalMoveCreatureTo mw c toTile flags
  end.

End Movement.

(** ** What holders hold, for the statements on stacks *)

(** The units that an item adds to the count of type [tid]. *)
Definition share (tid : Z) (it : Item) : Z :=
  if id it =? tid then count it else 0.

Fixpoint stackTotal (f : ItemId -> Item) (tid : Z) (l : list ItemId) : Z :=
  match l with
  | [] => 0
  | j :: r => share tid (f j) + stackTotal f tid r
  end.

(** How many units of type [tid] the holder [h] has. *)
Definition holderTotal (w : World) (h : Cylinder) (tid : Z) : Z :=
  stackTotal (items w) tid (contents w h).

(** Two worlds with the same holders and the same stacks; they may differ
    in what has been notified, released or enrolled for decay. *)
Definition sameStock (w w' : World) : Prop :=
  contents w' = contents w
  /\ forall j, id (items w' j) = id (items w j)
               /\ count (items w' j) = count (items w j)
               /\ attributes (items w' j) = attributes (items w j).

Section WellFormed.

Context {E : Externals}.

(** The colliding stack that a stackable item merges into, and how many
    of [m] units go there: as many as the stack has room for. *)
Definition mergeTarget (w : World) (item : ItemId) (toIt : option ItemId)
  : option ItemId :=
  if equals w item toIt then toIt else None.

Definition mergedUnits (w : World) (item : ItemId) (m : Z) (toIt : option ItemId)
  : Z :=
  match mergeTarget w item toIt with
  | Some t => Z.min (getStackSize w t - count (items w t)) m
  | None => 0
  end.

(** Every stack in a holder has between one unit and the limit of its
    type. *)
Definition wellCounted (w : World) : Prop :=
  forall h j, In j (contents w h) ->
    stackable (itemTypes (id (items w j))) = true ->
    1 <= count (items w j) <= stackSize (itemTypes (id (items w j))).

(** Single ownership: a holder lists a Thing once, the Thing names that
    holder as its parent, and objects still to be allocated are in no
    holder.  The count of a stack is one byte. *)
Definition wellFormed (w : World) : Prop :=
  (forall h, NoDup (contents w h))
  /\ (forall h j, In j (contents w h) -> parent (items w j) = Some h)
  /\ (forall h j, In j (contents w h) -> (j < nextItem w)%nat)
  /\ wellCounted w
  /\ (forall tid, stackable (itemTypes tid) = true ->
                  stackSize (itemTypes tid) <= 255).

End WellFormed.

(** ** Where an item is in the scheduler, for the statements on decay *)

Definition occurrences (i : ItemId) (l : list ItemId) : nat :=
  count_occ Nat.eq_dec l i.
Arguments occurrences : simpl never.

Section DecayNotions.

Context {K : Constants} {E : Externals}.

Variable i : ItemId.

(** What a turn of the loop on another item leaves alone. *)
Definition untouched (w w' : World) : Prop :=
  duration (items w' i) = duration (items w i)
  /\ toDecayItems w' = toDecayItems w
  /\ lastBucket w' = lastBucket w
  /\ (In i (decayed w') <-> In i (decayed w))
  /\ forall b, occurrences i (decayItems w' b) = occurrences i (decayItems w b).

(** The bucket that [cleanup] puts an item of duration [dur] into. *)
Definition firstBucket (last dur : Z) : Z :=
  if decayRotation <=? to_uint32 dur then last
  else Z.rem (last + 1 + Z.quot (to_uint32 dur) 1000) EVENT_DECAY_BUCKETS.

(** The item waits in the bucket that is [k] turns ahead, with [dur]
    milliseconds left. *)
Definition waiting (w : World) (k dur : Z) : Prop :=
  0 <= lastBucket w < EVENT_DECAY_BUCKETS
  /\ duration (items w i) = dur
  /\ ~ In i (toDecayItems w)
  /\ ~ In i (decayed w)
  /\ forall b, occurrences i (decayItems w b)
               = if b =? (lastBucket w + k) mod EVENT_DECAY_BUCKETS
                 then 1%nat else 0%nat.

(** Where [checkDecay] puts an item that it takes out of [bucket] with
    [rest] milliseconds left: so many buckets ahead. *)
Definition bucketsAhead (rest : Z) : Z :=
  ((rest + EVENT_DECAYINTERVAL / 2) / 1000) mod EVENT_DECAY_BUCKETS.

(** [internalDecayItem] is called on the item at the [n]-th turn of the
    scheduler and at none before. *)
Definition decaysAt (w : World) (n : nat) : Prop :=
  (forall m, (m < n)%nat -> ~ In i (decayed (ticks m w)))
  /\ In i (decayed (ticks n w)).

(** After how many turns of the scheduler an item decays that [cleanup]
    has put into a bucket with [d] milliseconds left. *)
Definition decayTicks (d : Z) : Z :=
  if d <? decayRotation then 1 + (d / 1000) mod EVENT_DECAY_BUCKETS
  else EVENT_DECAY_BUCKETS * (d / decayRotation)
       + (if d mod decayRotation =? 0 then 0
          else bucketsAhead (d mod decayRotation)).

(** The bucket that [cleanup] chooses, counted in turns from now. *)
Definition firstTurn (d : Z) : Z :=
  if decayRotation <=? d then EVENT_DECAY_BUCKETS
  else 1 + (d / 1000) mod EVENT_DECAY_BUCKETS.

End DecayNotions.

(** ** Account storage and the unique items (lines 4441-4461, 5110-5134)

    [std::map] and [std::unordered_map] as partial functions on the keys;
    nothing in these functions depends on the order of the entries. *)

Definition AccountStorage : Type := Z -> option (Z -> option Z).

(** [accountStorageMap[accountId]]: the storage of the account, created
    empty when the account has none. *)
Definition accountEntry (m : AccountStorage) (accountId : Z) : Z -> option Z :=
  match m accountId with
  | Some storage => storage
  | None => fun _ => None
  end.

Definition setAccountStorageValue (m : AccountStorage) (accountId key value : Z)
  : AccountStorage :=
  if value =? -1 then
    updZ m accountId (Some (updZ (accountEntry m accountId) key None))
  else
    updZ m accountId (Some (updZ (accountEntry m accountId) key (Some value))).

Definition getAccountStorageValue (m : AccountStorage) (accountId key : Z) : Z :=
  match m accountId with
  | Some storage =>
      match storage key with
      | Some value => value
      | None => -1
      end
  | None => -1
  end.

(** The registered pointer may be null. *)
Definition UniqueItems : Type := Z -> option (option ItemId).

Definition getUniqueItem (m : UniqueItems) (uniqueId : Z) : option ItemId :=
  match m uniqueId with
  | Some item => item
  | None => None
  end.

(** [uniqueItems.emplace(uniqueId, item)]; the answer is [result.second]. *)
Definition addUniqueItem (m : UniqueItems) (uniqueId : Z) (item : option ItemId)
  : bool * UniqueItems :=
  match m uniqueId with
  | Some _ => (false, m)
  | None => (true, updZ m uniqueId (Some item))
  end.

Definition removeUniqueItem (m : UniqueItems) (uniqueId : Z) : UniqueItems :=
  match m uniqueId with
  | Some _ => updZ m uniqueId None
  | None => m
  end.

(** ** [Game::startDecay] (lines 4510-4528) *)

Section Decay.

Context {K : Constants} {E : Externals}.

Definition startDecay (w : World) (item : option ItemId) : World :=
  match item with
  | None => w
  | Some i =>
      if negb (canDecay w i) then w else
      if isDecayingTrue (decaying (items w i)) then w else
      if 0 <? duration (items w i) then enrolDecay w i
      else internalDecayItem w i
  end.

End Decay.

(** ** The periodic check of the creatures (lines 3647-3692)

    [creatureCheck], [inCheckCreaturesVector] and the reference counter are
    fields of the creature.  [onThink], [onAttacking] and
    [executeConditions] are methods of the creature that are not in
    game.cpp: the check records on which creatures it has called them, and
    they are taken to leave the flags, the lists and the reference
    counters as they are. *)

Record Herd : Type := mkHerd {
  creatureCheck : CreatureId -> bool;
  inCheckCreaturesVector : CreatureId -> bool;
  creatureReferences : CreatureId -> Z;
  checkCreatureLists : Z -> list CreatureId;
  ToReleaseCreatures : list CreatureId;
  thoughtOf : list CreatureId
}.

Definition setCreatureCheck (h : Herd) (creature : CreatureId) (b : bool) : Herd :=
  mkHerd (upd (creatureCheck h) creature b) (inCheckCreaturesVector h)
         (creatureReferences h) (checkCreatureLists h) (ToReleaseCreatures h)
         (thoughtOf h).

Definition setInCheckCreaturesVector (h : Herd) (creature : CreatureId) (b : bool)
  : Herd :=
  mkHerd (creatureCheck h) (upd (inCheckCreaturesVector h) creature b)
         (creatureReferences h) (checkCreatureLists h) (ToReleaseCreatures h)
         (thoughtOf h).

Definition withCheckCreatureList (h : Herd) (index : Z) (l : list CreatureId)
  : Herd :=
  mkHerd (creatureCheck h) (inCheckCreaturesVector h) (creatureReferences h)
         (updZ (checkCreatureLists h) index l) (ToReleaseCreatures h)
         (thoughtOf h).

Definition addCreatureReference (h : Herd) (creature : CreatureId) (d : Z) : Herd :=
  mkHerd (creatureCheck h) (inCheckCreaturesVector h)
         (upd (creatureReferences h) creature (creatureReferences h creature + d))
         (checkCreatureLists h) (ToReleaseCreatures h) (thoughtOf h).

(** [Game::ReleaseCreature]: [ToReleaseCreatures.push_back(creature)]. *)
Definition ReleaseCreature (h : Herd) (creature : CreatureId) : Herd :=
  mkHerd (creatureCheck h) (inCheckCreaturesVector h) (creatureReferences h)
         (checkCreatureLists h) (ToReleaseCreatures h ++ [creature])
         (thoughtOf h).

Definition think (h : Herd) (creature : CreatureId) : Herd :=
  mkHerd (creatureCheck h) (inCheckCreaturesVector h) (creatureReferences h)
         (checkCreatureLists h) (ToReleaseCreatures h)
         (thoughtOf h ++ [creature]).

(** [slot] is what [uniform_random(0, EVENT_CREATURECOUNT - 1)] answers. *)
Definition addCreatureCheck (h : Herd) (creature : CreatureId) (slot : Z) : Herd :=
  let h := setCreatureCheck h creature true in
  if inCheckCreaturesVector h creature then
    (* already in a vector *)
    h
  else
    let h := setInCheckCreaturesVector h creature true in
    let h := withCheckCreatureList h slot (checkCreatureLists h slot ++ [creature]) in
    addCreatureReference h creature 1.

Definition removeCreatureCheck (h : Herd) (creature : CreatureId) : Herd :=
  if inCheckCreaturesVector h creature then setCreatureCheck h creature false
  else h.

(** The first loop of [Game::cleanup] (lines 4649-4653). *)
Definition releaseCreatures (h : Herd) : Herd :=
  let h := fold_left (fun h creature => addCreatureReference h creature (-1))
                     (ToReleaseCreatures h) h in
  mkHerd (creatureCheck h) (inCheckCreaturesVector h) (creatureReferences h)
         (checkCreatureLists h) [] (thoughtOf h).

Section Checks.

Context {K : Constants} {E : Externals}.

Variable EVENT_CREATURECOUNT : Z.
Variable isDead : Herd -> CreatureId -> bool.

(** The loop of [checkCreatures] with the iterator at the head of [rest];
    [kept] are the creatures that it has passed and left in the list. *)
Fixpoint checkCreaturesLoop (index : Z) (kept rest : list CreatureId) (h : Herd)
  : Herd :=
  match rest with
  | [] => h
  | creature :: after =>
      if creatureCheck h creature then
        let h := if negb (isDead h creature) then think h creature else h in
        checkCreaturesLoop index (kept ++ [creature]) after h
      else
        let h := setInCheckCreaturesVector h creature false in
        let h := withCheckCreatureList h index (kept ++ after) in
        let h := ReleaseCreature h creature in
        checkCreaturesLoop index kept after h
  end.

(** Returns the index that the scheduler is given for the next run, the
    world and the creatures. *)
Definition checkCreatures (w : World) (h : Herd) (index : Z) : Z * World * Herd :=
  let next := Z.rem (index + 1) EVENT_CREATURECOUNT in
  let h := checkCreaturesLoop index [] (checkCreatureLists h index) h in
  (next, cleanup w, releaseCreatures h).

End Checks.

(** A creature is in a check list when its flag says so, and then once in
    one list. *)
Definition enrolledOnce (h : Herd) : Prop :=
  forall c : CreatureId,
    if inCheckCreaturesVector h c then
      exists k, occurrences c (checkCreatureLists h k) = 1%nat
                /\ forall k', k' <> k -> ~ In c (checkCreatureLists h k')
    else forall k, ~ In c (checkCreatureLists h k).

(** ** The trade between two players (lines 2685-2716 and 2923-2970)

    [tradeState], [tradePartner] and [tradeItem] are fields of the player;
    [tradeItems] maps an offered item to the player who offers it.  What
    the players are sent, and the trade event of the item, are recorded in
    order; the trade event is a script callback, taken to leave the trade
    of the players as it is. *)

Inductive tradestate_t : Type :=
| TRADE_NONE
| TRADE_INITIATED
| TRADE_ACCEPT
| TRADE_ACKNOWLEDGE
| TRADE_TRANSFER.

Definition tradestate_eq_dec (a b : tradestate_t) : {a = b} + {a <> b}.
Proof. decide equality. Defined.

Definition isTradeState (a b : tradestate_t) : bool :=
  if tradestate_eq_dec a b then true else false.

Record Trader : Type := mkTrader {
  tradeState : tradestate_t;
  tradePartner : option nat;
  tradeItem : option ItemId
}.

Inductive TradeEvent : Type :=
| YouAreAlreadyTrading (player : nat)
| ThisPlayerIsAlreadyTrading (player : nat)
| TradeItemRequest (player traderName : nat) (item : option ItemId) (ack : bool)
| WantsToTrade (player from : nat)
| OnTradeCancel (item : ItemId) (player : nat)
| TradeCancelled (player : nat)
| TradeClose (player : nat).

Record Market : Type := mkMarket {
  traders : nat -> Trader;
  tradeItems : ItemId -> option nat;
  tradeEvents : list TradeEvent
}.

Definition setTrader (m : Market) (p : nat) (t : Trader) : Market :=
  mkMarket (upd (traders m) p t) (tradeItems m) (tradeEvents m).

Definition setTradeItems (m : Market) (f : ItemId -> option nat) : Market :=
  mkMarket (traders m) f (tradeEvents m).

Definition tradeEvent (m : Market) (e : TradeEvent) : Market :=
  mkMarket (traders m) (tradeItems m) (tradeEvents m ++ [e]).

Definition samePlayer (a : option nat) (b : nat) : bool :=
  match a with
  | Some p => Nat.eqb p b
  | None => false
  end.

Definition internalStartTrade (w : World) (m : Market) (player tradePartner' : nat)
           (tradeItem' : ItemId) : bool * World * Market :=
  let p := traders m player in
  let q := traders m tradePartner' in
  if negb (isTradeState (tradeState p) TRADE_NONE)
     && negb (isTradeState (tradeState p) TRADE_ACKNOWLEDGE
              && samePlayer (tradePartner p) tradePartner')
  then (false, w, tradeEvent m (YouAreAlreadyTrading player))
  else if negb (isTradeState (tradeState q) TRADE_NONE)
          && negb (samePlayer (tradePartner q) player)
  then (false, w, tradeEvent m (ThisPlayerIsAlreadyTrading player))
  else
    let m := setTrader m player
               (mkTrader TRADE_INITIATED (Some tradePartner') (Some tradeItem')) in
    let w := withItems w (upd (items w) tradeItem'
                              (incrementReferenceCounter (items w tradeItem'))) in
    let m := setTradeItems m (upd (tradeItems m) tradeItem' (Some player)) in
    let m := tradeEvent m (TradeItemRequest player player (Some tradeItem') true) in
    let q := traders m tradePartner' in
    if isTradeState (tradeState q) TRADE_NONE then
      let m := tradeEvent m (WantsToTrade tradePartner' player) in
      (true, w,
       setTrader m tradePartner'
                 (mkTrader TRADE_ACKNOWLEDGE (Some player) (tradeItem q)))
    else
      let counterOfferItem := tradeItem q in
      let m := tradeEvent m (TradeItemRequest player tradePartner'
                                              counterOfferItem false) in
      (true, w,
       tradeEvent m (TradeItemRequest tradePartner' player (Some tradeItem') false)).

(** Lines 2931-2947, and 2949-2967 for the partner: the end of the trade
    for one player. *)
Definition closeTradeOf (w : World) (m : Market) (player : nat) (sendCancel : bool)
  : World * Market :=
  let '(w, m) :=
    match tradeItem (traders m player) with
    | Some item =>
        let '(w, m) :=
          match tradeItems m item with
          | Some _ => (ReleaseItem w item,
                       setTradeItems m (upd (tradeItems m) item None))
          | None => (w, m)
          end in
        let m := tradeEvent m (OnTradeCancel item player) in
        let t := traders m player in
        (w, setTrader m player (mkTrader (tradeState t) (tradePartner t) None))
    | None => (w, m)
    end in
  let m := setTrader m player
             (mkTrader TRADE_NONE None (tradeItem (traders m player))) in
  let m := if sendCancel then tradeEvent m (TradeCancelled player) else m in
  (w, tradeEvent m (TradeClose player)).

Definition internalCloseTrade (w : World) (m : Market) (player : nat)
           (sendCancel : bool) : World * Market :=
  let tradePartner' := tradePartner (traders m player) in
  if match tradePartner' with
     | Some q => isTradeState (tradeState (traders m q)) TRADE_TRANSFER
     | None => false
     end
     || isTradeState (tradeState (traders m player)) TRADE_TRANSFER
  then (w, m)
  else
    let '(w, m) := closeTradeOf w m player sendCancel in
    match tradePartner' with
    | Some q => closeTradeOf w m q sendCancel
    | None => (w, m)
    end.

(** What the two functions keep: partners name each other, and a player
    without a trade has no partner and no item on offer. *)
Definition tradePaired (m : Market) : Prop :=
  forall p : nat,
    (forall q, tradePartner (traders m p) = Some q ->
               tradePartner (traders m q) = Some p)
    /\ (tradeState (traders m p) = TRADE_NONE <->
        tradePartner (traders m p) = None)
    /\ (tradeState (traders m p) = TRADE_NONE ->
        tradeItem (traders m p) = None).

(** ** Money (lines 1544-1572) and the removal of a list of items
       (lines 5072-5089) *)

Definition to_uint64 (z : Z) : Z := z mod 2 ^ 64.

(** What [addMoney] takes from elsewhere: the table of the currencies,
    worth and item id in the order in which it is walked; the factory of
    the items; the tile a holder is on; a flag. *)
Class MoneyExternals : Type := {
  currencyItems : list (Z * Z);                            (* Item::items.currencyItems *)
  CreateItem : World -> Z -> Z -> option ItemId * World;   (* Item::CreateItem *)
  cylinderTile : World -> Cylinder -> option Cylinder;     (* Cylinder::getTile *)
  FLAG_NOLIMIT : Z
}.

(** A stack of coins that [addMoney] has asked [Item::CreateItem] for. *)
Record Coins : Type := mkCoins {
  coinWorth : Z;      (* worth of one coin *)
  coinId : Z;
  coinCount : Z
}.

Section Money.

Context {K : Constants} {E : Externals} {B : MoneyExternals}.

(** The overload of lines 1265-1270: [remainderCount] is a local that
    starts at 0; the nesting of [internalAddItem] is bounded by the count
    of the item. *)
Definition internalAddItemTo (w : World) (toCyl : option Cylinder)
           (item : option ItemId) (index flags : Z) (test : bool)
  : option (ReturnValue * World) :=
  let fuel := match item with
              | Some i => S (Z.to_nat (count (items w i)))
              | None => O
              end in
  match internalAddItem fuel w toCyl item index flags test 0 with
  | Some (ret, _, w) => Some (ret, w)
  | None => None
  end.

(** Lines 1558-1570, the loop [while (currencyCoins > 0)]; one unit of
    fuel for each turn.  [made] lists the stacks asked for so far. *)
Fixpoint addCoins (fuel : nat) (w : World) (cylinder : Cylinder) (worth id : Z)
         (flags : Z) (currencyCoins : Z) (made : list Coins)
  : option (World * list Coins) :=
  if currencyCoins <=? 0 then Some (w, made) else
  match fuel with
  | O => None
  | S fuel' =>
      let n := Z.min 100 (to_uint16 currencyCoins) in
      let '(remaindItem, w) := CreateItem w id n in
      match internalAddItemTo w (Some cylinder) remaindItem INDEX_WHEREEVER flags
                              false with
      | None => None
      | Some (ret, w) =>
          let added :=
            if negb (isNoError ret) then
              match internalAddItemTo w (cylinderTile w cylinder) remaindItem
                                      INDEX_WHEREEVER FLAG_NOLIMIT false with
              | Some (_, w) => Some w
              | None => None
              end
            else Some w in
          match added with
          | None => None
          | Some w =>
              addCoins fuel' w cylinder worth id flags
                       (to_uint32 (currencyCoins - n))
                       (made ++ [mkCoins worth id n])
          end
      end
  end.

(** The loop over the currencies; a currency of worth 0 is a division by
    zero, which has no defined result.  Returns the world, what is left of
    [money] and the stacks asked for. *)
Fixpoint addMoneyLoop (fuel : nat) (w : World) (cylinder : Cylinder)
         (currencies : list (Z * Z)) (money flags : Z) (made : list Coins)
  : option (World * Z * list Coins) :=
  match currencies with
  | [] => Some (w, money, made)
  | (worth, id) :: rest =>
      if worth =? 0 then None else
      let currencyCoins := to_uint32 (money / worth) in
      if currencyCoins <=? 0 then
        addMoneyLoop fuel w cylinder rest money flags made
      else
        let money := to_uint64 (money - currencyCoins * worth) in
        match addCoins fuel w cylinder worth id flags currencyCoins made with
        | None => None
        | Some (w, made) => addMoneyLoop fuel w cylinder rest money flags made
        end
  end.

Definition addMoney (fuel : nat) (w : World) (cylinder : Cylinder)
           (money flags : Z) : option (World * Z * list Coins) :=
  if money =? 0 then Some (w, money, [])
  else addMoneyLoop fuel w cylinder currencyItems money flags [].

(** Lines 5074-5083: the loop over the list when the items are stackable. *)
Fixpoint removeStackable (w : World) (itemList : list ItemId) (amount : Z)
  : World :=
  match itemList with
  | [] => w
  | item :: rest =>
      if amount <? count (items w item) then
        snd (internalRemoveItem w item (to_int32 amount) false 0)
      else
        let amount' := to_uint32 (amount - count (items w item)) in
        removeStackable (snd (internalRemoveItem w item (-1) false 0)) rest
                        amount'
  end.

Definition internalRemoveItems (w : World) (itemList : list ItemId) (amount : Z)
           (stackable' : bool) : World :=
  if stackable' then removeStackable w itemList amount
  else fold_left (fun w item => snd (internalRemoveItem w item (-1) false 0))
                 itemList w.

End Money.

(** The worth of the stacks. *)
Definition coinsWorth (made : list Coins) : Z :=
  fold_right (fun c total => coinWorth c * coinCount c + total) 0 made.

(** What no currency divides: the rest of the successive divisions. *)
Definition changeLeft (currencies : list (Z * Z)) (money : Z) : Z :=
  fold_left (fun m c => m mod fst c) currencies money.

(** The coins of each currency that the money comes to, in the order of
    the table: the quotient of what the currencies before have left. *)
Fixpoint coinsNeeded (currencies : list (Z * Z)) (money : Z) : list Z :=
  match currencies with
  | [] => []
  | (worth, _) :: rest => money / worth :: coinsNeeded rest (money mod worth)
  end.

(** The units that the items of a list have in their holders. *)
Definition heldUnits (w : World) (l : list ItemId) : Z :=
  fold_right (fun i total =>
                (if isRemoved w i then 0 else count (items w i)) + total) 0 l.

(** ** Positions on the client's side (lines 169-183, 282-308, 589-598)

    A position with x = 0xFFFF does not name a tile: bit 0x40 of y marks a
    container that the player has open, whose id is in the low four bits
    of y and whose slot is z; otherwise y is a slot of the inventory. *)

(** What these functions take from the player, the item and the map. *)
Class PlaceExternals : Type := {
  mapGetTile : World -> Position -> option nat;         (* map.getTile(pos) *)
  getTilePosition : World -> nat -> Position;           (* Tile::getPosition *)
  getTopParent : World -> ItemId -> option Cylinder;    (* Item::getTopParent *)
  topParentTile : World -> Cylinder -> option nat;      (* Cylinder::getTile *)
  getContainerID : World -> nat -> ItemId -> Z;         (* Player::getContainerID, an int8_t *)
  getContainerByID : World -> nat -> Z -> option ItemId (* Player::getContainerByID *)
}.

Section Places.

Context {P : PlaceExternals}.

Definition internalGetCylinder (w : World) (player : nat) (pos : Position)
  : option Cylinder :=
  if negb (px pos =? 65535) then
    match mapGetTile w pos with
    | Some t => Some (Tile t)
    | None => None
    end
  else if negb (Z.land (py pos) 64 =? 0) then
    (* container *)
    let from_cid := to_uint8 (Z.land (py pos) 15) in
    match getContainerByID w player from_cid with
    | Some c => Some (Container c)
    | None => None
    end
  else
    (* inventory *)
    Some (Player player).

(** Returns [pos] and [stackpos]. *)
Definition internalGetPosition (w : World) (item : ItemId) : Position * Z :=
  match getTopParent w item with
  | Some (Player player) =>
      match parent (items w item) with
      | Some (Container container) =>
          let y := Z.lor (to_uint16 64)
                         (to_uint16 (getContainerID w player container)) in
          let z := to_uint8 (getThingIndex w (Container container) item) in
          (mkPosition 65535 y z, z)
      | _ =>
          let y := to_uint16 (getThingIndex w (Player player) item) in
          (mkPosition 65535 y 0, to_uint8 y)
      end
  | Some topParent =>
      match topParentTile w topParent with
      | Some tile =>
          (getTilePosition w tile,
           to_uint8 (to_uint16 (getThingIndex w (Tile tile) item)))
      | None => (mkPosition 0 0 0, 0)
      end
  | None => (mkPosition 0 0 0, 0)
  end.

(** Lines 589-598 of [playerMoveThing], again at lines 878-887 of
    [playerMoveItem]: the index of the thing to move. *)
Definition fromIndexOf (fromPos : Position) (fromStackPos : Z) : Z :=
  if px fromPos =? 65535 then
    if negb (Z.land (py fromPos) 64 =? 0) then pz fromPos
    else to_uint8 (py fromPos)
  else fromStackPos.

End Places.

(** ** [Game::combatBlockHit] (lines 3753-3830) *)

Inductive CombatType_t : Type :=
| COMBAT_NONE
| COMBAT_PHYSICALDAMAGE
| COMBAT_ENERGYDAMAGE
| COMBAT_EARTHDAMAGE
| COMBAT_FIREDAMAGE
| COMBAT_UNDEFINEDDAMAGE
| COMBAT_LIFEDRAIN
| COMBAT_MANADRAIN
| COMBAT_HEALING
| COMBAT_DROWNDAMAGE
| COMBAT_ICEDAMAGE
| COMBAT_HOLYDAMAGE
| COMBAT_DEATHDAMAGE.

Inductive BlockType_t : Type :=
| BLOCK_NONE
| BLOCK_DEFENSE
| BLOCK_ARMOR
| BLOCK_IMMUNITY.

Inductive MagicEffectClasses : Type :=
| CONST_ME_POFF
| CONST_ME_BLOCKHIT
| CONST_ME_GREEN_RINGS
| CONST_ME_HOLYDAMAGE.

Definition isCombatNone (t : CombatType_t) : bool :=
  match t with COMBAT_NONE => true | _ => false end.

Definition isHealing (t : CombatType_t) : bool :=
  match t with COMBAT_HEALING => true | _ => false end.

Definition isBlockNone (b : BlockType_t) : bool :=
  match b with BLOCK_NONE => true | _ => false end.

Record CombatValue : Type := mkCombatValue {
  combatType : CombatType_t;     (* type *)
  combatValue : Z                (* value, an int32_t *)
}.

Record CombatDamage : Type := mkCombatDamage {
  primary : CombatValue;
  secondary : CombatValue;
  blockType : BlockType_t
}.

(** The target's answer to a hit changes the value it is given and the
    target; the effects go to the spectators.  [Arena] is what they act
    on. *)
Class CombatExternals : Type := {
  Arena : Type;
  blockHit : Arena -> Creature -> option Creature -> CombatType_t -> Z
             -> bool -> bool -> bool -> bool -> BlockType_t * Z * Arena;
  isInGhostMode : Arena -> Creature -> bool;
  creaturePosition : Arena -> Creature -> Position;
  addMagicEffect : Arena -> Position -> MagicEffectClasses -> Arena
}.

Section Combat.

Context {C : CombatExternals}.

(** The lambda [sendBlockEffect] (lines 3764-3797). *)
Definition sendBlockEffect (a : Arena) (blockType' : BlockType_t)
           (combatType' : CombatType_t) (targetPos : Position) : Arena :=
  match blockType' with
  | BLOCK_DEFENSE => addMagicEffect a targetPos CONST_ME_POFF
  | BLOCK_ARMOR => addMagicEffect a targetPos CONST_ME_BLOCKHIT
  | BLOCK_IMMUNITY =>
      match combatType' with
      | COMBAT_UNDEFINEDDAMAGE => a
      | COMBAT_ENERGYDAMAGE | COMBAT_FIREDAMAGE | COMBAT_PHYSICALDAMAGE
      | COMBAT_ICEDAMAGE | COMBAT_DEATHDAMAGE =>
          addMagicEffect a targetPos CONST_ME_BLOCKHIT
      | COMBAT_EARTHDAMAGE => addMagicEffect a targetPos CONST_ME_GREEN_RINGS
      | COMBAT_HOLYDAMAGE => addMagicEffect a targetPos CONST_ME_HOLYDAMAGE
      | _ => addMagicEffect a targetPos CONST_ME_POFF
      end
  | BLOCK_NONE => a
  end.

(** One of the two halves of the damage (lines 3800-3811 and 3813-3824):
    [std::abs] and the negation wrap on the least int32_t. *)
Definition blockHalf (a : Arena) (attacker : option Creature) (target : Creature)
           (half : CombatValue) (checkDefense checkArmor field
            ignoreResistances : bool) : BlockType_t * CombatValue * Arena :=
  if negb (isCombatNone (combatType half)) then
    let v := to_int32 (Z.abs (combatValue half)) in
    let '(blockType', v, a) :=
      blockHit a target attacker (combatType half) v checkDefense checkArmor
               field ignoreResistances in
    if negb (isHealing (combatType half)) then
      (blockType', mkCombatValue (combatType half) (to_int32 (- v)),
       sendBlockEffect a blockType' (combatType half)
                       (creaturePosition a target))
    else (blockType', mkCombatValue (combatType half) v, a)
  else (BLOCK_NONE, half, a).

Definition combatBlockHit (a : Arena) (damage : CombatDamage)
           (attacker : option Creature) (target : Creature)
           (checkDefense checkArmor field ignoreResistances : bool)
  : bool * CombatDamage * Arena :=
  if isCombatNone (combatType (primary damage))
     && isCombatNone (combatType (secondary damage))
  then (true, damage, a)
  else if match getPlayer target with
          | Some _ => isInGhostMode a target
          | None => false
          end
  then (true, damage, a)
  else
    let '(primaryBlockType, primary', a) :=
      blockHalf a attacker target (primary damage) checkDefense checkArmor field
                ignoreResistances in
    let '(secondaryBlockType, secondary', a) :=
      blockHalf a attacker target (secondary damage) false false field
                ignoreResistances in
    (negb (isBlockNone primaryBlockType) && negb (isBlockNone secondaryBlockType),
     mkCombatDamage primary' secondary' primaryBlockType, a).

End Combat.

(** ** [Game::removeCreature] (lines 520-571)

    The tile, the spectators and the creature's own methods act on a
    [Scene]; the check lists and the creatures to release are the [Herd].
    The function returns, with its answer, the calls of
    [sendRemoveTileThing] in order: the player and the stack position. *)

Class SceneExternals : Type := {
  Scene : Type;
  isRemovedCreature : Scene -> CreatureId -> bool;              (* Creature::isRemoved *)
  creaturePlace : Scene -> CreatureId -> TileRef;               (* Creature::getTile *)
  placePosition : Scene -> TileRef -> Position;                 (* Tile::getPosition *)
  getSpectators : Scene -> Position -> list CreatureId;         (* map.getSpectators *)
  spectatorPlayer : CreatureId -> option nat;                   (* Creature::getPlayer *)
  canSeeCreature : Scene -> nat -> CreatureId -> bool;          (* Player::canSeeCreature *)
  getClientIndexOfCreature : Scene -> TileRef -> nat -> CreatureId -> Z;
  tileRemoveCreature : Scene -> TileRef -> CreatureId -> Scene; (* Tile::removeCreature *)
  sendRemoveTileThing : Scene -> nat -> Position -> Z -> Scene;
  onRemoveCreature : Scene -> CreatureId -> CreatureId -> bool -> Scene;
  parentPostRemove : Scene -> CreatureId -> Scene;   (* getParent()->postRemoveNotification *)
  removeList : Scene -> CreatureId -> Scene;
  setRemoved : Scene -> CreatureId -> Scene;
  getSummons : Scene -> CreatureId -> list CreatureId;          (* creature->summons *)
  setSkillLoss : Scene -> CreatureId -> bool -> Scene
}.

Section Removal.

Context {V : SceneExternals}.

(** Lines 529-537: one entry for each spectator that is a player. *)
Fixpoint oldStackPositions (s : Scene) (tile : TileRef) (creature : CreatureId)
         (spectators : list CreatureId) : list Z :=
  match spectators with
  | [] => []
  | spectator :: rest =>
      match spectatorPlayer spectator with
      | Some player =>
          (if canSeeCreature s player creature
           then getClientIndexOfCreature s tile player creature else -1)
          :: oldStackPositions s tile creature rest
      | None => oldStackPositions s tile creature rest
      end
  end.

(** Lines 543-551: [i] is the index into [oldStackPosVector]; reading
    past its end has no defined result. *)
Fixpoint sendRemovals (s : Scene) (tilePosition : Position) (creature : CreatureId)
         (spectators : list CreatureId) (oldStackPosVector : list Z) (i : nat)
         (sent : list (nat * Z)) : option (Scene * list (nat * Z)) :=
  match spectators with
  | [] => Some (s, sent)
  | spectator :: rest =>
      match spectatorPlayer spectator with
      | Some player =>
          if canSeeCreature s player creature then
            match nth_error oldStackPosVector i with
            | Some stackpos =>
                sendRemovals (sendRemoveTileThing s player tilePosition stackpos)
                             tilePosition creature rest oldStackPosVector (S i)
                             (sent ++ [(player, stackpos)])
            | None => None
            end
          else sendRemovals s tilePosition creature rest oldStackPosVector i sent
      | None => sendRemovals s tilePosition creature rest oldStackPosVector i sent
      end
  end.

(** One unit of fuel for each level of summons below the creature; the
    summons are those that the creature has when the loop starts. *)
Fixpoint removeCreature (fuel : nat) (s : Scene) (h : Herd) (creature : CreatureId)
         (isLogout : bool) : option (bool * Scene * Herd * list (nat * Z)) :=
  if isRemovedCreature s creature then Some (false, s, h, []) else
  let tile := creaturePlace s creature in
  let spectators := getSpectators s (placePosition s tile) in
  let oldStackPosVector := oldStackPositions s tile creature spectators in
  let s := tileRemoveCreature s tile creature in
  let tilePosition := placePosition s tile in
  (* send to client *)
  match sendRemovals s tilePosition creature spectators oldStackPosVector 0 [] with
  | None => None
  | Some (s, sent) =>
      (* event method *)
      let s := fold_left (fun s spectator =>
                            onRemoveCreature s spectator creature isLogout)
                         spectators s in
      let s := parentPostRemove s creature in
      let s := removeList s creature in
      let s := setRemoved s creature in
      let h := ReleaseCreature h creature in
      let h := removeCreatureCheck h creature in
      let removeSummon (acc : option (Scene * Herd * list (nat * Z)))
                       (summon : CreatureId) :=
        match acc, fuel with
        | Some (s, h, sent), S fuel' =>
            match removeCreature fuel' (setSkillLoss s summon false) h summon true with
            | Some (_, s, h, more) => Some (s, h, sent ++ more)
            | None => None
            end
        | _, _ => None
        end in
      match fold_left removeSummon (getSummons s creature) (Some (s, h, sent)) with
      | Some (s, h, sent) => Some (true, s, h, sent)
      | None => None
      end
  end.

End Removal.

(** The spectators that are players. *)
Definition playersAmong {V : SceneExternals} (spectators : list CreatureId)
  : list nat :=
  flat_map (fun spectator =>
              match spectatorPlayer spectator with
              | Some player => [player]
              | None => []
              end) spectators.

(** ** [Game::getClosestFreeTile] (lines 1994-2016) *)

Class TileQueries {M : MapExternals} : Type := {
  (* Tile::queryAdd with the actor *)
  tileQueryAddBy : Map -> TileRef -> Z -> CreatureId -> Z -> Z
                   -> option CreatureId -> ReturnValue
}.

Section FreeTile.

Context {K : Constants} {M : MapExternals} {Q : TileQueries}.

Definition relList (extended : bool) : list (Z * Z) :=
  [(0, 0); (-1, -1); (-1, 0); (-1, 1); (0, -1); (0, 1); (1, -1); (1, 0); (1, 1)]
  ++ if extended then [(-2, 0); (0, -2); (0, 2); (2, 0)] else [].

Definition isFreeTile (m : Map) (creature : CreatureId) (tile : TileRef) : bool :=
  hasGround m tile
  && isNoError (tileQueryAddBy m tile 0 creature 1 FLAG_IGNOREBLOCKITEM
                               (Some creature)).

Fixpoint firstFreeTile (m : Map) (creature : CreatureId) (nextPos : Position)
         (rel : list (Z * Z)) : Position :=
  match rel with
  | [] => mkPosition 0 0 0
  | (x, y) :: rest =>
      match getTile m (px nextPos + x) (py nextPos + y) (pz nextPos) with
      | Some tile =>
          if isFreeTile m creature tile then tilePosition m tile
          else firstFreeTile m creature nextPos rest
      | None => firstFreeTile m creature nextPos rest
      end
  end.

Definition getClosestFreeTile (m : Map) (creature : CreatureId) (nextPos : Position)
           (extended : bool) : Position :=
  firstFreeTile m creature nextPos (relList extended).

End FreeTile.

(** ** What the steps of a transfer leave alone *)

(** What a step leaves alone of the item [j]: its duration, its reference
    counter, how often the list of the items to enrol names it, and the
    objects allocated so far. *)
Definition keptFor (j : ItemId) (w w' : World) : Prop :=
  duration (items w' j) = duration (items w j)
  /\ referenceCounter (items w' j) = referenceCounter (items w j)
  /\ occurrences j (toDecayItems w') = occurrences j (toDecayItems w)
  /\ (nextItem w <= nextItem w')%nat.

(** Two worlds with the same holders, owners and objects; they may differ
    in what has been notified, released or enrolled for decay. *)
Definition samePlaces (w w' : World) : Prop :=
  contents w' = contents w
  /\ (forall j, parent (items w' j) = parent (items w j)
                /\ id (items w' j) = id (items w j))
  /\ nextItem w' = nextItem w.

(** * Worked inputs

    Concrete constants, holders and worlds on which the functions are
    run. *)

Definition sampleConstants : Constants := {|
  MAP_MAX_LAYERS := 16;
  EVENT_DECAYINTERVAL := 250;
  EVENT_DECAY_BUCKETS := 4;
  INDEX_WHEREEVER := -1;
  FLAG_IGNORENOTMOVEABLE := 64;
  FLAG_IGNOREBLOCKITEM := 2;
  FLAG_IGNOREBLOCKCREATURE := 4;
  DIRECTION_DIAGONAL_MASK := 4
|}.

Definition plainItem (tid cnt : Z) (p : option Cylinder) : Item :=
  mkItem tid cnt 0 p 0 DECAYING_FALSE 0.

Definition somewhere : Position := mkPosition 100 100 7.

(** Item 1 lies on tile 0 and is the item its own destination resolves
    to. *)
Definition selfWorld : World :=
  mkWorld (fun _ => plainItem 1 1 (Some (Tile 0)))
          (fun c => match c with Tile O => [1%nat] | _ => [] end)
          (fun _ => None) 2%nat [] [] [] (fun _ => []) 0 [].

Definition selfHolders (hook : ReturnValue) : Externals := {|
  itemTypes := fun _ => mkItemType false 1;
  queryAdd := fun _ _ _ _ _ _ _ => RETURNVALUE_NOERROR;
  queryMaxCount := fun _ _ _ _ n _ => (RETURNVALUE_NOERROR, n);
  queryRemove := fun _ _ _ _ _ _ => RETURNVALUE_NOERROR;
  queryDestination := fun _ c i it _ f => (c, i, Some it, f);
  canRemove := fun _ _ => true;
  canDecay := fun _ _ => true;
  eventPlayerOnMoveItem := fun _ _ _ _ _ _ _ _ => hook
|}.

(** Holders that take the first item they hold as the colliding one.  A
    player slot or a container that is occupied asks for an exchange;
    [locked] cannot be taken out of its holder; [room] is what
    [queryMaxCount] answers; the source gives up an item only in the
    quantity [asked], when one is named. *)
Definition firstOf (l : list ItemId) : option ItemId :=
  match l with
  | j :: _ => Some j
  | [] => None
  end.

Definition slotHolders (locked : option ItemId) (room : Z) (asked : option Z)
  : Externals := {|
  itemTypes := fun _ => mkItemType false 1;
  queryAdd := fun w c _ _ _ _ _ =>
    match c, contents w c with
    | Tile _, _ => RETURNVALUE_NOERROR
    | _, [] => RETURNVALUE_NOERROR
    | _, _ :: _ => RETURNVALUE_NEEDEXCHANGE
    end;
  queryMaxCount := fun _ _ _ _ _ _ => (RETURNVALUE_NOERROR, room);
  queryRemove := fun _ _ it m _ _ =>
    match locked with
    | Some l => if Nat.eqb it l then RETURNVALUE_NOTMOVEABLE
                else RETURNVALUE_NOERROR
    | None =>
        match asked with
        | Some a => if m =? a then RETURNVALUE_NOERROR
                    else RETURNVALUE_NOTPOSSIBLE
        | None => RETURNVALUE_NOERROR
        end
    end;
  queryDestination := fun w c i _ _ f => (c, i, firstOf (contents w c), f);
  canRemove := fun _ _ => true;
  canDecay := fun _ _ => true;
  eventPlayerOnMoveItem := fun _ _ _ _ _ _ _ _ => RETURNVALUE_NOERROR
|}.

(** Holders as above whose occupied slots have no room: [queryMaxCount]
    answers not-enough-room and 0 for a player slot or a container that
    is occupied, and whatever is asked elsewhere; [locked] cannot be taken
    out of its holder. *)
Definition fullSlotHolders (locked : ItemId) : Externals := {|
  itemTypes := fun _ => mkItemType false 1;
  queryAdd := fun w c _ _ _ _ _ =>
    match c, contents w c with
    | Tile _, _ => RETURNVALUE_NOERROR
    | _, [] => RETURNVALUE_NOERROR
    | _, _ :: _ => RETURNVALUE_NEEDEXCHANGE
    end;
  queryMaxCount := fun w c _ _ n _ =>
    match c, contents w c with
    | Tile _, _ => (RETURNVALUE_NOERROR, n)
    | _, [] => (RETURNVALUE_NOERROR, n)
    | _, _ :: _ => (RETURNVALUE_NOTENOUGHROOM, 0)
    end;
  queryRemove := fun _ _ it _ _ _ =>
    if Nat.eqb it locked then RETURNVALUE_NOTMOVEABLE else RETURNVALUE_NOERROR;
  queryDestination := fun w c i _ _ f => (c, i, firstOf (contents w c), f);
  canRemove := fun _ _ => true;
  canDecay := fun _ _ => true;
  eventPlayerOnMoveItem := fun _ _ _ _ _ _ _ _ => RETURNVALUE_NOERROR
|}.

(** Item 1 lies on tile 0; item 2 sits in the slot of player 0. *)
Definition slotWorld : World :=
  mkWorld (fun i => match i with
                    | 2%nat => plainItem 20 1 (Some (Player 0))
                    | _ => plainItem 10 1 (Some (Tile 0))
                    end)
          (fun c => match c with
                    | Tile O => [1%nat]
                    | Player O => [2%nat]
                    | _ => []
                    end)
          (fun _ => Some (Tile 0)) 3%nat [] [] [] (fun _ => []) 0 [].

(** Item 1 lies on tile 0; item 5 is a bag on tile 1 that holds item 2. *)
Definition bagWorld : World :=
  mkWorld (fun i => match i with
                    | 2%nat => plainItem 20 1 (Some (Container 5))
                    | 5%nat => plainItem 50 1 (Some (Tile 1))
                    | _ => plainItem 10 1 (Some (Tile 0))
                    end)
          (fun c => match c with
                    | Tile O => [1%nat]
                    | Tile 1%nat => [5%nat]
                    | Container 5%nat => [2%nat]
                    | _ => []
                    end)
          (fun _ => None) 6%nat [] [] [] (fun _ => []) 0 [].

(** Item 1 lies on tile 0 and waits in bucket [b] of the scheduler. *)
Definition enrolledWorld (b : Z) : World :=
  mkWorld (fun _ => mkItem 10 1 0 (Some (Tile 0)) 5000 DECAYING_TRUE 1)
          (fun c => match c with Tile O => [1%nat] | _ => [] end)
          (fun _ => None) 2%nat [] [] []
          (fun k => if k =? b then [1%nat] else []) 0 [].

(** A player stands at (10, 10, z) on a tile of height 3 and steps east
    (direction 1); the tile above is open, the tile above the tile to the
    east has ground. *)
Definition hillMap (z : Z) : MapExternals := {|
  Map := unit;
  getNextPosition := fun d p =>
    if d =? 1 then mkPosition (px p + 1) (py p) (pz p) else p;
  getDirectionTo := fun _ _ => 0;
  getTile := fun _ x y l =>
    if (x =? 10) && (y =? 10) && (l =? z) then Some 0%nat
    else if (x =? 10) && (y =? 10) && (l =? z - 1) then Some 1%nat
    else if (x =? 11) && (y =? 10) && (l =? z - 1) then Some 2%nat
    else None;
  hasHeight := fun _ t h => Nat.eqb t 0 && (h =? 3);
  hasGround := fun _ t => negb (Nat.eqb t 1);
  hasFlag := fun _ _ _ => false;
  tilePosition := fun _ t =>
    match t with
    | O => mkPosition 10 10 z
    | 1%nat => mkPosition 10 10 (z - 1)
    | _ => mkPosition 11 10 (z - 1)
    end;
  creatureTile := fun _ _ => 0%nat;
  moveCreature := fun m _ _ => m;
  tileQueryAdd := fun _ _ _ _ _ _ => RETURNVALUE_NOERROR;
  tileQueryDestination := fun _ t i _ f => (t, i, f)
|}.

Definition hillWalk (z : Z) : Walk (M := hillMap z) :=
  mkWalk (M := hillMap z) tt (fun _ => 0) (fun _ => mkPosition 0 0 0).

(** Player 0 holds a stack of 80 (item 1) and a bag (item 9); the bag
    holds a stack of 60 of the same type (item 2), whose limit is 100.
    [room] is what [queryMaxCount] answers, with a failure outcome when it
    is less than what was asked. *)
Definition stackTypes (tid : Z) : ItemType :=
  if tid =? 30 then mkItemType true 100 else mkItemType false 1.

Definition stackHolders (room : Z) : Externals := {|
  itemTypes := stackTypes;
  queryAdd := fun _ _ _ _ _ _ _ => RETURNVALUE_NOERROR;
  queryMaxCount := fun _ _ _ _ n _ =>
    (if room <? n then RETURNVALUE_CONTAINERNOTENOUGHROOM
     else RETURNVALUE_NOERROR, room);
  queryRemove := fun _ _ _ _ _ _ => RETURNVALUE_NOERROR;
  queryDestination := fun w c i _ _ f => (c, i, firstOf (contents w c), f);
  canRemove := fun _ _ => true;
  canDecay := fun _ _ => true;
  eventPlayerOnMoveItem := fun _ _ _ _ _ _ _ _ => RETURNVALUE_NOERROR
|}.

Definition stackWorld : World :=
  mkWorld (fun i => if Nat.eqb i 1 then plainItem 30 80 (Some (Player 0))
                    else if Nat.eqb i 2 then plainItem 30 60 (Some (Container 9))
                    else plainItem 50 1 (Some (Player 0)))
          (fun h => if Cylinder_eqb h (Player 0) then [1%nat; 9%nat]
                    else if Cylinder_eqb h (Container 9) then [2%nat]
                    else [])
          (fun _ => Some (Tile 0)) 10%nat [] [] [] (fun _ => []) 0 [].

(** Item 1 has [d] milliseconds left and has just been enrolled. *)
Definition pendingWorld (d : Z) : World :=
  mkWorld (fun _ => mkItem 10 1 0 (Some (Tile 0)) d DECAYING_TRUE 1)
          (fun c => match c with Tile O => [1%nat] | _ => [] end)
          (fun _ => None) 2%nat [] [] [1%nat] (fun _ => []) 0 [].

(** A player stands at (10, 10, 6) on flat ground and steps east
    (direction 1); there is no tile to the east on that level, and the
    tile below it is of height 3. *)
Definition pitMap : MapExternals := {|
  Map := unit;
  getNextPosition := fun d p =>
    if d =? 1 then mkPosition (px p + 1) (py p) (pz p) else p;
  getDirectionTo := fun _ _ => 0;
  getTile := fun _ x y l =>
    if (x =? 10) && (y =? 10) && (l =? 6) then Some 0%nat
    else if (x =? 11) && (y =? 10) && (l =? 7) then Some 1%nat
    else None;
  hasHeight := fun _ t h => Nat.eqb t 1 && (h =? 3);
  hasGround := fun _ _ => true;
  hasFlag := fun _ _ _ => false;
  tilePosition := fun _ t =>
    match t with
    | O => mkPosition 10 10 6
    | _ => mkPosition 11 10 7
    end;
  creatureTile := fun _ _ => 0%nat;
  moveCreature := fun m _ _ => m;
  tileQueryAdd := fun _ _ _ _ _ _ => RETURNVALUE_NOERROR;
  tileQueryDestination := fun _ t i _ f => (t, i, f)
|}.

Definition pitWalk : Walk (M := pitMap) :=
  mkWalk (M := pitMap) tt (fun _ => 0) (fun _ => mkPosition 0 0 0).

(** Item 1 is a lamp on tile 0 with 5000 milliseconds left that does not
    decay yet. *)
Definition lampWorld : World :=
  mkWorld (fun _ => mkItem 10 1 0 (Some (Tile 0)) 5000 DECAYING_FALSE 0)
          (fun c => match c with Tile O => [1%nat] | _ => [] end)
          (fun _ => None) 2%nat [] [] [] (fun _ => []) 0 [].

(** Creatures 1 and 2 are in check list 0; the check of creature 1 has
    been removed. *)
Definition sampleHerd : Herd :=
  mkHerd (fun c => Nat.eqb c 2) (fun c => Nat.eqb c 1 || Nat.eqb c 2)
         (fun _ => 1) (fun k => if k =? 0 then [1%nat; 2%nat] else []) [] [].

(** Nobody trades. *)
Definition quietMarket : Market :=
  mkMarket (fun _ => mkTrader TRADE_NONE None None) (fun _ => None) [].

(** Crystal, platinum and gold coins; a created item is the next object
    of the world, with the count asked for. *)
Definition coinMint (currencies : list (Z * Z)) : MoneyExternals := {|
  currencyItems := currencies;
  CreateItem := fun w tid n =>
    let k := nextItem w in
    (Some k,
     withNextItem (withItems w (upd (items w) k (plainItem tid n None))) (S k));
  cylinderTile := fun _ _ => Some (Tile 0);
  FLAG_NOLIMIT := 1
|}.

Definition threeCoins : list (Z * Z) := [(10000, 2160); (100, 2152); (1, 2148)].

(** Player 0 has the bag (item 9) of [stackWorld] open under the id
    [cid]; the items are found where the world has them. *)
Definition bagPlaces (cid : Z) : PlaceExternals := {|
  mapGetTile := fun _ _ => None;
  getTilePosition := fun _ _ => somewhere;
  getTopParent := fun _ _ => Some (Player 0);
  topParentTile := fun _ _ => None;
  getContainerID := fun _ _ c => if Nat.eqb c 9 then cid else -1;
  getContainerByID := fun _ _ k =>
    if (k =? cid) || (k =? 15) then Some 9%nat else None
|}.

(** A target that blocks every hit with its armor. *)
Definition armoredTarget : CombatExternals := {|
  Arena := list MagicEffectClasses;
  blockHit := fun a _ _ _ v _ _ _ _ => (BLOCK_ARMOR, 0, a);
  isInGhostMode := fun _ _ => false;
  creaturePosition := fun _ _ => somewhere;
  addMagicEffect := fun a _ e => a ++ [e]
|}.

(** Creature 9 stands on tile 0 among the players 1, 2 and 3, who are the
    spectators 1, 2 and 3; player 1 does not see the creature; player [p]
    has it at stack position [10 + p]. *)
Definition crowd : SceneExternals := {|
  Scene := unit;
  isRemovedCreature := fun _ _ => false;
  creaturePlace := fun _ _ => 0%nat;
  placePosition := fun _ _ => somewhere;
  getSpectators := fun _ _ => [1%nat; 2%nat; 3%nat];
  spectatorPlayer := fun c => Some c;
  canSeeCreature := fun _ p _ => negb (Nat.eqb p 1);
  getClientIndexOfCreature := fun _ _ p _ => 10 + Z.of_nat p;
  tileRemoveCreature := fun s _ _ => s;
  sendRemoveTileThing := fun s _ _ _ => s;
  onRemoveCreature := fun s _ _ _ => s;
  parentPostRemove := fun s _ => s;
  removeList := fun s _ => s;
  setRemoved := fun s _ => s;
  getSummons := fun _ _ => [];
  setSkillLoss := fun s _ _ => s
|}.

(** Item 1 lies on tile 0 and item 2 on tile 1; both are stacks of type
    30, of 40 and of 50 units. *)
Definition twoStacks : World :=
  mkWorld (fun i => if Nat.eqb i 2 then plainItem 30 50 (Some (Tile 1))
                    else plainItem 30 40 (Some (Tile 0)))
          (fun h => if Cylinder_eqb h (Tile 0) then [1%nat]
                    else if Cylinder_eqb h (Tile 1) then [2%nat]
                    else [])
          (fun _ => None) 3%nat [] [] [] (fun _ => []) 0 [].

(** * Properties *)

Section EngineFacts.

Context {K : Constants} {E : Externals}.

(** ** The descent to the effective destination *)

Lemma resolveDestination_queries_le (w : World) (item : ItemId) (toCyl : Cylinder)
      (index : Z) (toIt : option ItemId) (flags floorN : Z) (calls : nat) :
  Z.of_nat (queries (resolveDestination w item toCyl index toIt flags floorN calls))
  <= Z.of_nat calls + Z.max 1 (MAP_MAX_LAYERS - floorN).
Proof.
  funelim (resolveDestination w item toCyl index toIt flags floorN calls).
  - cbn [queries]. lia.
  - cbn [queries]. lia.
  - match goal with
    | IH : Z.of_nat (queries _) <= _ |- _ => revert IH
    end.
    lia.
Qed.

(** On a chain in which [queryDestination] never answers with the holder
    it was asked (a cycle, say), the descent stops at the bound. *)
Lemma resolveDestination_on_cycle (w : World) (item : ItemId) (toCyl : Cylinder)
      (index : Z) (toIt : option ItemId) (flags floorN : Z) (calls : nat) :
  (forall c i t f, fst (fst (fst (queryDestination w c i item t f))) <> c) ->
  Z.of_nat (queries (resolveDestination w item toCyl index toIt flags floorN calls))
  = Z.of_nat calls + Z.max 1 (MAP_MAX_LAYERS - floorN).
Proof.
  intros Hcycle.
  funelim (resolveDestination w item toCyl index toIt flags floorN calls).
  - exfalso. apply (Hcycle toCyl index toIt flags).
    rewrite Heq0. simpl. assumption.
  - cbn [queries]. lia.
  - match goal with
    | IH : _ -> Z.of_nat (queries _) = _ |- _ => specialize (IH Hcycle); revert IH
    end.
    lia.
Qed.

(** ** Moving an item onto itself *)

Lemma internalMoveItem_vetoed (fuel : nat) (w : World) (fromCylinder toCyl : Cylinder)
      (index : Z) (item : ItemId) (n flags : Z) (actor : option Creature)
      (tradeItem : option ItemId) (fromPos toPos : option Position) :
  preMoveHook w (hookContext actor fromPos toPos) item (to_uint16 n)
              fromCylinder toCyl <> RETURNVALUE_NOERROR ->
  internalMoveItem fuel w fromCylinder toCyl index item n flags actor tradeItem
                   fromPos toPos
  = Some (mkMoveResult
            (preMoveHook w (hookContext actor fromPos toPos) item (to_uint16 n)
                         fromCylinder toCyl) None w).
Proof.
  intros Hveto. unfold internalMoveItem, isNoError.
  destruct (ReturnValue_eq_dec _ RETURNVALUE_NOERROR) as [Heq | _].
  - contradiction.
  - reflexivity.
Qed.

(** ** Adding an item: null arguments and the test flag *)

Lemma isNoError_true (r : ReturnValue) :
  isNoError r = true <-> r = RETURNVALUE_NOERROR.
Proof.
  unfold isNoError. destruct (ReturnValue_eq_dec r RETURNVALUE_NOERROR);
    split; intros; try assumption; try reflexivity; try discriminate; contradiction.
Qed.

Lemma isNoError_false (r : ReturnValue) :
  isNoError r = false <-> r <> RETURNVALUE_NOERROR.
Proof.
  unfold isNoError. destruct (ReturnValue_eq_dec r RETURNVALUE_NOERROR);
    split; intros; try assumption; try reflexivity; try discriminate; contradiction.
Qed.

End EngineFacts.

Section ClaimsOnTransfers.

Context {K : Constants} {E : Externals}.

(** C8: the descent of [internalMoveItem] to the effective destination ends
    after at most [MAP_MAX_LAYERS] calls of [queryDestination] (one, were
    the bound below one), whatever [queryDestination] answers; the
    function that computes it is total. *)
Theorem descent_within_depth_bound (w : World) (item : ItemId) (toCyl : Cylinder)
        (index flags : Z) :
  Z.of_nat (queries (resolveDestination w item toCyl index None flags 0 0))
  <= Z.max 1 MAP_MAX_LAYERS.
Proof.
  pose proof (resolveDestination_queries_le w item toCyl index None flags 0 0) as Hle.
  replace (MAP_MAX_LAYERS - 0) with MAP_MAX_LAYERS in Hle by lia.
  simpl in Hle. exact Hle.
Qed.

(** C4, as amended: when the pre-move hook does not veto and the resolved
    destination holds the very item that is moved, [internalMoveItem]
    returns success and leaves the world, with its record of
    notifications, as it was. *)
Theorem move_onto_itself_is_noop (fuel : nat) (w : World)
        (fromCylinder toCyl : Cylinder) (index : Z) (item : ItemId) (n flags : Z)
        (actor : option Creature) (tradeItem : option ItemId)
        (fromPos toPos : option Position) :
  preMoveHook w (hookContext actor fromPos toPos) item (to_uint16 n)
              fromCylinder toCyl = RETURNVALUE_NOERROR ->
  toItem (resolveDestination w item toCyl index None flags 0 0) = Some item ->
  internalMoveItem fuel w fromCylinder toCyl index item n flags actor tradeItem
                   fromPos toPos
  = Some (mkMoveResult RETURNVALUE_NOERROR None w).
Proof.
  intros Hhook Hsame. unfold internalMoveItem.
  rewrite Hhook, Hsame. simpl. rewrite Nat.eqb_refl. reflexivity.
Qed.

(** C10: [internalAddItem] answers not-possible and leaves the world as it
    was when the holder or the item is null; with the test flag it answers
    what the validation ([queryAdd], then [queryMaxCount]) answers and
    leaves the world, decay lists included, as it was. *)
Theorem internalAddItem_null_and_test (fuel : nat) (w : World)
        (destCylinder : Cylinder) (item : ItemId) (toCyl : option Cylinder)
        (it : option ItemId) (index flags : Z) (test : bool) (remainder : Z) :
  internalAddItem fuel w None it index flags test remainder
    = Some (RETURNVALUE_NOTPOSSIBLE, remainder, w)
  /\ internalAddItem fuel w toCyl None index flags test remainder
    = Some (RETURNVALUE_NOTPOSSIBLE, remainder, w)
  /\ internalAddItem fuel w (Some destCylinder) (Some item) index flags true
                     remainder
    = Some (addValidation w destCylinder item index flags, remainder, w).
Proof.
  split; [| split].
  - destruct fuel; reflexivity.
  - destruct fuel; destruct toCyl; reflexivity.
  - unfold addValidation.
    destruct fuel; simpl;
      destruct (queryDestination w destCylinder index item None flags)
        as [[[toC index'] toIt] flags'];
      destruct (isNoError (queryAdd w toC index' item (count (items w item))
                                    flags' None)) eqn:Hadd; simpl;
      try reflexivity;
      destruct (queryMaxCount w destCylinder INDEX_WHEREEVER item
                              (count (items w item)) flags')
        as [ret maxQueryCount]; simpl;
      destruct (isNoError ret) eqn:Hmax; simpl; try reflexivity;
      apply isNoError_true in Hmax; rewrite Hmax; reflexivity.
Qed.

End ClaimsOnTransfers.

(** C4, the claim as it stands fails: the player's pre-move hook vetoes a
    move whose destination resolves to the moved item itself, and the call
    answers the veto, not success. *)
Lemma move_onto_itself_vetoed :
  toItem (resolveDestination (K := sampleConstants)
            (E := selfHolders RETURNVALUE_NOTPOSSIBLE)
            selfWorld 1%nat (Tile 0) 0 None 0 0 0) = Some 1%nat
  /\ internalMoveItem (K := sampleConstants)
       (E := selfHolders RETURNVALUE_NOTPOSSIBLE)
       0 selfWorld (Tile 0) (Tile 0) 0 1%nat 1 0 (Some (PlayerCreature 0)) None
       (Some somewhere) (Some somewhere)
     = Some (mkMoveResult RETURNVALUE_NOTPOSSIBLE None selfWorld).
Proof. split; vm_compute; reflexivity. Qed.

Lemma move_onto_itself_is_noop_witness :
  internalMoveItem (K := sampleConstants) (E := selfHolders RETURNVALUE_NOERROR)
    0 selfWorld (Tile 0) (Tile 0) 0 1%nat 1 0 (Some (PlayerCreature 0)) None
    (Some somewhere) (Some somewhere)
  = Some (mkMoveResult RETURNVALUE_NOERROR None selfWorld).
Proof.
  apply (move_onto_itself_is_noop (K := sampleConstants)
           (E := selfHolders RETURNVALUE_NOERROR)).
  - reflexivity.
  - vm_compute. reflexivity.
Defined.

(** ** The exchange with the colliding item *)

Section ExchangeFacts.

Context {K : Constants} {E : Externals}.

(** When the destination asks for an exchange, the source would take the
    colliding item, and the colliding item cannot be removed from the
    destination, lines 1087-1132 fall through with the success that the
    source's [queryAdd] answered. *)
Lemma exchangeItem_locked_falls_through (w : World) (fromCylinder : Cylinder)
      (d : Destination) (item t : ItemId) (n : Z) (actor : option Creature)
      (retMax : ReturnValue) (maxCount : Z) :
  queryAdd w (toCylinder d) (destIndex d) item n (destFlags d) actor
    = RETURNVALUE_NEEDEXCHANGE ->
  toItem d = Some t ->
  queryAdd w fromCylinder (getThingIndex w fromCylinder item) t
           (count (items w t)) 0 None = RETURNVALUE_NOERROR ->
  queryMaxCount w fromCylinder INDEX_WHEREEVER t (count (items w t)) 0
    = (retMax, maxCount) ->
  maxCount <> 0 ->
  queryRemove w (toCylinder d) t (count (items w t)) (destFlags d) actor
    <> RETURNVALUE_NOERROR ->
  exchangeItem w fromCylinder d item n actor None
  = Continue (RETURNVALUE_NOERROR, Some t, w).
Proof.
  intros Hneed Ht Hsrc Hmax Hroom Hlocked.
  unfold exchangeItem. rewrite Hneed, Ht, Hsrc, Hmax. simpl.
  apply isNoError_false in Hlocked. rewrite Hlocked.
  destruct (maxCount =? 0) eqn:Hz; [apply Z.eqb_eq in Hz; contradiction |].
  rewrite andb_false_r. reflexivity.
Qed.


End ExchangeFacts.


(** It is the destination's [queryMaxCount] that stops the call when the
    colliding item cannot be taken out.  With holders that contradict
    themselves, answering that the occupied slot of player 0 both needs
    an exchange and has room for one, the move of item 1 from tile 0 to
    that slot, where item 2 is locked, goes through: the colliding
    item's [queryRemove] fails, and the call succeeds and puts item 1
    into the occupied slot. *)
Remark contradicting_slot_takes_the_item :
  let E := slotHolders (Some 2%nat) 1 None in
  queryAdd slotWorld (Player 0) 0 1%nat 1 0 None = RETURNVALUE_NEEDEXCHANGE
  /\ queryRemove slotWorld (Player 0) 2%nat 1 0 None = RETURNVALUE_NOTMOVEABLE
  /\ match internalMoveItem (K := sampleConstants) 0 slotWorld (Tile 0) (Player 0)
                            0 1%nat 1 0 None None None None with
     | Some r => outcome r = RETURNVALUE_NOERROR
                 /\ contents (world r) (Tile 0) = []
                 /\ contents (world r) (Player 0) = [1%nat; 2%nat]
     | None => False
     end.
Proof. vm_compute. repeat split. Qed.

(** C6, the claim as it stands fails: item 1 is moved into bag 5, which is
    the trade item and holds item 2.  The bag asks for an exchange, item 2
    goes to the source, and only then is the move refused. *)
Lemma escrow_refusal_after_exchange :
  let E := slotHolders None 1 None in
  match internalMoveItem (K := sampleConstants) 4 bagWorld (Tile 0) (Container 5)
                         0 1%nat 1 0 None (Some 5%nat) None None with
  | Some r => outcome r = RETURNVALUE_NOTENOUGHROOM
              /\ contents bagWorld (Container 5) = [2%nat]
              /\ contents (world r) (Container 5) = []
              /\ contents bagWorld (Tile 0) = [1%nat]
              /\ contents (world r) (Tile 0) = [2%nat; 1%nat]
  | None => False
  end.
Proof. vm_compute. repeat split. Qed.

(** ** Removing an item that is enrolled for decay *)

Section RemoveFacts.

Context {K : Constants} {E : Externals}.

(** [internalRemoveItem] touches no bucket but the first. *)
Lemma internalRemoveItem_other_buckets (w : World) (item : ItemId) (n : Z)
      (test : bool) (flags : Z) (b : Z) :
  b <> 0 ->
  decayItems (snd (internalRemoveItem w item n test flags)) b = decayItems w b.
Proof.
  intros Hb. unfold internalRemoveItem.
  destruct (parent (items w item)) as [cylinder |]; [| reflexivity].
  destruct (negb (isNoError _)); [reflexivity |].
  destruct (negb (canRemove w item)); [reflexivity |].
  destruct test; [reflexivity |].
  unfold removeThing.
  destruct (isStackable w item && _); simpl;
    match goal with
    | |- context [isRemoved ?x item] => destruct (isRemoved x item)
    end; simpl; try reflexivity;
    match goal with
    | |- context [canDecay ?x item] => destruct (canDecay x item)
    end; simpl; try reflexivity;
    unfold updZ; destruct (b =? 0) eqn:Hz; try reflexivity;
    apply Z.eqb_eq in Hz; contradiction.
Qed.

(** Nor does it touch the list of the items that wait to be put into a
    bucket. *)
Lemma internalRemoveItem_pending (w : World) (item : ItemId) (n : Z)
      (test : bool) (flags : Z) :
  toDecayItems (snd (internalRemoveItem w item n test flags)) = toDecayItems w.
Proof.
  unfold internalRemoveItem.
  destruct (parent (items w item)) as [cylinder |]; [| reflexivity].
  destruct (negb (isNoError _)); [reflexivity |].
  destruct (negb (canRemove w item)); [reflexivity |].
  destruct test; [reflexivity |].
  unfold removeThing.
  destruct (isStackable w item && _); simpl;
    match goal with
    | |- context [isRemoved ?x item] => destruct (isRemoved x item)
    end; simpl; try reflexivity;
    match goal with
    | |- context [canDecay ?x item] => destruct (canDecay x item)
    end; simpl; reflexivity.
Qed.

End RemoveFacts.

(** C7, at the failing input: item 1 is enrolled and waits in bucket 1;
    [internalRemoveItem] removes it from its tile and hands it to
    [ReleaseItem], and bucket 1 still holds it.  An item in bucket 0 is
    taken out. *)
Theorem removed_item_stays_in_bucket :
  let E := slotHolders None 1 None in
  let r := internalRemoveItem (K := sampleConstants) (enrolledWorld 1) 1%nat
                              (-1) false 0 in
  let r0 := internalRemoveItem (K := sampleConstants) (enrolledWorld 0) 1%nat
                               (-1) false 0 in
  fst r = RETURNVALUE_NOERROR
  /\ isRemoved (snd r) 1%nat = true
  /\ ToReleaseItems (snd r) = [1%nat]
  /\ decayItems (enrolledWorld 1) 1 = [1%nat]
  /\ decayItems (snd r) 1 = [1%nat]
  /\ decayItems (enrolledWorld 0) 0 = [1%nat]
  /\ decayItems (snd r0) 0 = [].
Proof. vm_compute. repeat split. Qed.

(** ** Stepping up a level *)

Section MovementFacts.

Context {K : Constants} {M : MapExternals}.

(** The redirects of [internalMoveCreature] stop at the same bound. *)
Lemma followRedirects_bounded (mw : Walk) (c : CreatureId) (toCyl : TileRef)
      (fromCyl : option TileRef) (index flags n : Z) (calls : nat) :
  Z.of_nat (redirects (followRedirects mw c toCyl fromCyl index flags n calls))
  <= Z.of_nat calls + Z.max 1 (MAP_MAX_LAYERS - n).
Proof.
  funelim (followRedirects mw c toCyl fromCyl index flags n calls);
    cbn [redirects]; lia.
Qed.

Lemma to_uint8_pred_neq (z : Z) : to_uint8 (z - 1) <> z.
Proof.
  unfold to_uint8. intros Heq.
  pose proof (Z.mod_pos_bound (z - 1) (2 ^ 8) ltac:(lia)) as Hb.
  change (2 ^ 8) with 256 in *.
  assert (Hz : 0 <= z < 256) by lia.
  destruct (Z.eq_dec z 0) as [-> | Hnz]; [discriminate |].
  rewrite Z.mod_small in Heq by lia. lia.
Qed.

(** C9, as amended: a player who is not on level 8 takes a step that is
    not diagonal and keeps the level, from a tile of height 3; the tile
    above is absent, or has no ground and is not block-solid; the tile
    above the destination has ground, is not immovable-block-solid and has
    no floor change.  Then the destination is one level up (its z is the
    player's z minus one, as an unsigned byte), the two blocking flags are
    added for the step, and the player faces the direction of the step. *)
Theorem ascend_one_level (mw : Walk) (c : CreatureId) (dir flags : Z)
        (t : TileRef) :
  let cur := getPosition mw c in
  let nxt := getNextPosition dir cur in
  Z.land dir DIRECTION_DIAGONAL_MASK = 0 ->
  pz nxt = pz cur ->
  pz cur <> 8 ->
  hasHeight (map mw) (creatureTile (map mw) c) 3 = true ->
  isOpenAbove (map mw) (getTile (map mw) (px cur) (py cur) (pz cur - 1)) = true ->
  getTile (map mw) (px nxt) (py nxt) (pz nxt - 1) = Some t ->
  hasGround (map mw) t = true ->
  hasFlag (map mw) t TILESTATE_IMMOVABLEBLOCKSOLID = false ->
  hasFlag (map mw) t TILESTATE_FLOORCHANGE = false ->
  stepTarget mw c true dir flags
  = (setDirection (setLastPosition mw c cur) c dir,
     mkPosition (px nxt) (py nxt) (to_uint8 (pz cur - 1)),
     Z.lor flags (Z.lor FLAG_IGNOREBLOCKITEM FLAG_IGNOREBLOCKCREATURE))
  /\ direction (fst (fst (stepTarget mw c true dir flags))) c = dir
  /\ (0 < pz cur < 256 ->
      pz (snd (fst (stepTarget mw c true dir flags))) = pz cur - 1).
Proof.
  intros cur nxt Hdir Hlevel Hz8 Hheight Hopen Hdest Hground Himm Hfloor.
  assert (Hstep : stepTarget mw c true dir flags
    = (setDirection (setLastPosition mw c cur) c dir,
       mkPosition (px nxt) (py nxt) (to_uint8 (pz cur - 1)),
       Z.lor flags (Z.lor FLAG_IGNOREBLOCKITEM FLAG_IGNOREBLOCKCREATURE))).
  { unfold stepTarget.
    change (getPosition (setLastPosition mw c (getPosition mw c)) c) with cur.
    fold nxt. rewrite Hdir. simpl.
    unfold tryGoUp.
    change (map (setLastPosition mw c (getPosition mw c))) with (map mw).
    destruct (pz cur =? 8) eqn:H8; [apply Z.eqb_eq in H8; contradiction |].
    rewrite Hheight. simpl. rewrite Hopen, Hdest, Hground, Himm, Hfloor. simpl.
    unfold tryGoDown. simpl.
    rewrite Hlevel.
    destruct (pz cur =? to_uint8 (pz cur - 1)) eqn:Hsame.
    - apply Z.eqb_eq in Hsame. symmetry in Hsame.
      exfalso. exact (to_uint8_pred_neq _ Hsame).
    - rewrite andb_false_r. reflexivity. }
  split; [exact Hstep |]. rewrite Hstep. simpl. split.
  - unfold upd. rewrite Nat.eqb_refl. reflexivity.
  - intros Hrange. unfold to_uint8. change (2 ^ 8) with 256.
    apply Z.mod_small. lia.
Qed.

End MovementFacts.

(** C9, the claim as it stands fails: on level 8 every condition of the
    claim holds, and the step neither goes up a level nor adds a flag nor
    turns the player. *)
Lemma no_ascent_from_level_8 :
  let M := hillMap 8 in
  let K := sampleConstants in
  let mw := hillWalk 8 in
  let cur := getPosition mw 0%nat in
  let nxt := getNextPosition 1 cur in
  Z.land 1 DIRECTION_DIAGONAL_MASK = 0
  /\ hasHeight (map mw) (creatureTile (map mw) 0%nat) 3 = true
  /\ getTile (map mw) (px cur) (py cur) (pz cur - 1) = Some 1%nat
  /\ hasGround (map mw) 1%nat = false
  /\ hasFlag (map mw) 1%nat TILESTATE_BLOCKSOLID = false
  /\ getTile (map mw) (px nxt) (py nxt) (pz nxt - 1) = Some 2%nat
  /\ hasGround (map mw) 2%nat = true
  /\ hasFlag (map mw) 2%nat TILESTATE_IMMOVABLEBLOCKSOLID = false
  /\ pz cur = 8
  /\ pz (snd (fst (stepTarget mw 0%nat true 1 0))) = 8
  /\ snd (stepTarget mw 0%nat true 1 0) = 0
  /\ direction (fst (fst (stepTarget mw 0%nat true 1 0))) 0%nat = 0.
Proof. vm_compute. repeat split. Qed.

Lemma ascend_one_level_witness :
  let M := hillMap 9 in
  let K := sampleConstants in
  pz (snd (fst (stepTarget (hillWalk 9) 0%nat true 1 0))) = 8
  /\ direction (fst (fst (stepTarget (hillWalk 9) 0%nat true 1 0))) 0%nat = 1.
Proof.
  intros M K.
  destruct (@ascend_one_level K M (hillWalk 9) 0%nat 1 0 2%nat)
    as [_ [Hdir Hz]]; try reflexivity.
  - discriminate.
  - split.
    + apply Hz. vm_compute. split; reflexivity.
    + exact Hdir.
Defined.

(** ** The trade item in the destination *)

Section EscrowFacts.

Context {K : Constants} {E : Externals}.

Lemma onParentChain_found (w : World) (t : ItemId) (oc : option Cylinder) :
  inParentChain w t oc ->
  exists k : nat, forall fuel : nat, (k <= fuel)%nat ->
    onParentChain fuel w oc t = Some true.
Proof.
  induction 1 as [c Hhere | c Hup [k IH]].
  - exists 1%nat. intros [| fuel] Hle; [lia |]. simpl.
    rewrite Hhere, Nat.eqb_refl. reflexivity.
  - exists (S k). intros [| fuel] Hle; [lia |]. simpl.
    destruct (getItem c) as [i |].
    + destruct (Nat.eqb i t); [reflexivity | apply IH; lia].
    + apply IH. lia.
Qed.

Lemma tradeItemInDestination_found (w : World) (t : ItemId) (c : Cylinder) :
  inParentChain w t (Some c) ->
  exists k : nat, forall fuel : nat, (k <= fuel)%nat ->
    tradeItemInDestination fuel w c (Some t) = Some true.
Proof.
  intros Hchain. inversion Hchain as [c' Hhere | c' Hup]; subst.
  - exists 0%nat. intros fuel _. unfold tradeItemInDestination.
    rewrite Hhere, Nat.eqb_refl. reflexivity.
  - destruct (onParentChain_found _ _ _ Hup) as [k Hk].
    exists k. intros fuel Hle. unfold tradeItemInDestination.
    destruct (getItem c) as [i |].
    + destruct (Nat.eqb i t); [reflexivity | apply Hk; exact Hle].
    + apply Hk. exact Hle.
Qed.

Local Arguments tradeItemInDestination : simpl never.

(** C6, as amended: a trade item is given; the moved item is not itself
    the colliding item of the resolved destination, and the destination
    does not ask for an exchange.  If the resolved destination or a holder
    above it is the trade item, then, the parent walk given the fuel to
    reach it, the call answers a failure and leaves the world as it
    was. *)
Theorem escrow_refuses_move (w : World) (fromCylinder toCyl : Cylinder)
        (index : Z) (item : ItemId) (n flags : Z) (actor : option Creature)
        (tradeItem : ItemId) (fromPos toPos : option Position) :
  let d := resolveDestination w item toCyl index None flags 0 0 in
  toItem d <> Some item ->
  queryAdd w (toCylinder d) (destIndex d) item n (destFlags d) actor
    <> RETURNVALUE_NEEDEXCHANGE ->
  inParentChain w tradeItem (Some (toCylinder d)) ->
  exists k : nat, forall fuel : nat, (k <= fuel)%nat ->
    exists r : ReturnValue,
      internalMoveItem fuel w fromCylinder toCyl index item n flags actor
                       (Some tradeItem) fromPos toPos
      = Some (mkMoveResult r None w)
      /\ r <> RETURNVALUE_NOERROR.
Proof.
  intros d Hother Hnoswap Hchain.
  destruct (tradeItemInDestination_found _ _ _ Hchain) as [k Hk].
  exists k. intros fuel Hle. specialize (Hk fuel Hle).
  unfold internalMoveItem. fold d. clearbody d.
  set (hook := preMoveHook w (hookContext actor fromPos toPos) item (to_uint16 n)
                           fromCylinder toCyl).
  destruct (isNoError hook) eqn:Hhook; simpl.
  2: { exists hook. split; [reflexivity | apply isNoError_false; exact Hhook]. }
  assert (Hsame : match toItem d with
                  | Some t => Nat.eqb item t
                  | None => false
                  end = false).
  { destruct (toItem d) as [t |]; [| reflexivity].
    destruct (Nat.eqb item t) eqn:Heq; [| reflexivity].
    apply Nat.eqb_eq in Heq. subst t. contradiction. }
  rewrite Hsame.
  unfold exchangeItem.
  destruct (ReturnValue_eq_dec _ RETURNVALUE_NEEDEXCHANGE) as [Hx | _];
    [contradiction |].
  set (ret := queryAdd w (toCylinder d) (destIndex d) item n (destFlags d) actor).
  destruct (isNoError ret) eqn:Hret; simpl.
  2: { exists ret. split; [reflexivity | apply isNoError_false; exact Hret]. }
  destruct (queryMaxCount w (toCylinder d) (destIndex d) item n (destFlags d))
    as [retMaxCount maxQueryCount].
  destruct (isNoError retMaxCount) eqn:Hmax; simpl.
  - set (rem := queryRemove w fromCylinder item _ (destFlags d) actor).
    destruct (isNoError rem) eqn:Hrem; simpl.
    + rewrite Hk. exists RETURNVALUE_NOTENOUGHROOM.
      split; [reflexivity | discriminate].
    + exists rem. split; [reflexivity | apply isNoError_false; exact Hrem].
  - destruct (maxQueryCount =? 0); simpl.
    + exists retMaxCount.
      split; [reflexivity | apply isNoError_false; exact Hmax].
    + set (rem := queryRemove w fromCylinder item _ (destFlags d) actor).
      destruct (isNoError rem) eqn:Hrem; simpl.
      * rewrite Hk. exists RETURNVALUE_NOTENOUGHROOM.
        split; [reflexivity | discriminate].
      * exists rem. split; [reflexivity | apply isNoError_false; exact Hrem].
Qed.

End EscrowFacts.

Lemma escrow_refuses_move_witness :
  exists k : nat, forall fuel : nat, (k <= fuel)%nat ->
    exists r : ReturnValue,
      internalMoveItem (K := sampleConstants) (E := slotHolders None 1 None)
        fuel slotWorld (Tile 0) (Container 5) 0 1%nat 1 0 None (Some 5%nat)
        None None
      = Some (mkMoveResult r None slotWorld)
      /\ r <> RETURNVALUE_NOERROR.
Proof.
  apply (escrow_refuses_move (K := sampleConstants)
           (E := slotHolders None 1 None)).
  - vm_compute. discriminate.
  - vm_compute. discriminate.
  - apply chain_here. reflexivity.
Defined.

(** ** Stacks: the arithmetic of a committed move *)

Lemma upd_same {A : Type} (f : ItemId -> A) (k : ItemId) (v : A) :
  upd f k v k = v.
Proof. unfold upd. rewrite Nat.eqb_refl. reflexivity. Qed.

Lemma upd_other {A : Type} (f : ItemId -> A) (k j : ItemId) (v : A) :
  j <> k -> upd f k v j = f j.
Proof.
  intros Hne. unfold upd. destruct (Nat.eqb j k) eqn:Heq; [| reflexivity].
  apply Nat.eqb_eq in Heq. contradiction.
Qed.

Lemma updC_same {A : Type} (f : Cylinder -> A) (k : Cylinder) (v : A) :
  updC f k v k = v.
Proof.
  unfold updC, Cylinder_eqb. destruct (Cylinder_eq_dec k k); [reflexivity |].
  contradiction.
Qed.

Lemma updC_other {A : Type} (f : Cylinder -> A) (k j : Cylinder) (v : A) :
  j <> k -> updC f k v j = f j.
Proof.
  intros Hne. unfold updC, Cylinder_eqb.
  destruct (Cylinder_eq_dec j k); [contradiction | reflexivity].
Qed.

Lemma In_removeId (i j : ItemId) (l : list ItemId) :
  In j (removeId i l) <-> In j l /\ j <> i.
Proof.
  induction l as [| a l IH]; simpl.
  - tauto.
  - destruct (Nat.eqb a i) eqn:Heq.
    + apply Nat.eqb_eq in Heq. subst a. rewrite IH.
      split; [tauto |]. intros [[Hi | Hin] Hne]; [congruence | tauto].
    + apply Nat.eqb_neq in Heq. simpl. rewrite IH.
      split; [intros [Ha | [Hin Hne]]; [subst; tauto | tauto] | tauto].
Qed.

Lemma NoDup_removeId (i : ItemId) (l : list ItemId) :
  NoDup l -> NoDup (removeId i l).
Proof.
  induction 1 as [| a l Hnotin Hnd IH]; simpl.
  - constructor.
  - destruct (Nat.eqb a i); [exact IH |].
    constructor; [| exact IH]. rewrite In_removeId. tauto.
Qed.

Lemma removeId_notin (i : ItemId) (l : list ItemId) :
  ~ In i l -> removeId i l = l.
Proof.
  induction l as [| a l IH]; simpl; intros Hnotin.
  - reflexivity.
  - destruct (Nat.eqb a i) eqn:Heq.
    + apply Nat.eqb_eq in Heq. tauto.
    + rewrite IH by tauto. reflexivity.
Qed.

Lemma In_insertAt (k : nat) (i j : ItemId) (l : list ItemId) :
  In j (insertAt k i l) <-> j = i \/ In j l.
Proof.
  revert l. induction k as [| k IH]; intros l; simpl.
  - split; intros [Heq | Hin]; auto.
  - destruct l as [| a l]; simpl.
    + split; intros [Heq | []]; auto.
    + rewrite IH. split; intros Hcases; intuition auto.
Qed.

Lemma NoDup_insertAt (k : nat) (i : ItemId) (l : list ItemId) :
  ~ In i l -> NoDup l -> NoDup (insertAt k i l).
Proof.
  revert l. induction k as [| k IH]; intros l Hnotin Hnd; simpl.
  - constructor; assumption.
  - destruct l as [| a l].
    + constructor; [intros [] | constructor].
    + inversion Hnd as [| a' l' Ha Hl]; subst. simpl in Hnotin.
      constructor.
      * rewrite In_insertAt. intros [Heq | Hin]; [subst; tauto | tauto].
      * apply IH; tauto.
Qed.

Lemma stackTotal_ext (f g : ItemId -> Item) (tid : Z) (l : list ItemId) :
  (forall j, In j l -> id (g j) = id (f j) /\ count (g j) = count (f j)) ->
  stackTotal g tid l = stackTotal f tid l.
Proof.
  induction l as [| a l IH]; simpl; intros Hsame.
  - reflexivity.
  - rewrite IH by (intros j Hj; apply Hsame; right; exact Hj).
    destruct (Hsame a (or_introl eq_refl)) as [Hid Hcount].
    unfold share. rewrite Hid, Hcount. reflexivity.
Qed.

Lemma stackTotal_upd_notin (f : ItemId -> Item) (tid : Z) (k : ItemId) (v : Item)
      (l : list ItemId) :
  ~ In k l -> stackTotal (upd f k v) tid l = stackTotal f tid l.
Proof.
  intros Hnotin. apply stackTotal_ext. intros j Hj.
  rewrite upd_other; [split; reflexivity |].
  intros Heq. subst j. contradiction.
Qed.

Lemma stackTotal_upd_in (f : ItemId -> Item) (tid : Z) (k : ItemId) (v : Item)
      (l : list ItemId) :
  NoDup l -> In k l ->
  stackTotal (upd f k v) tid l = stackTotal f tid l - share tid (f k) + share tid v.
Proof.
  induction 1 as [| a l Hnotin Hnd IH]; simpl; intros Hin.
  - contradiction.
  - destruct Hin as [Heq | Hin].
    + subst a. rewrite upd_same, stackTotal_upd_notin by assumption. lia.
    + rewrite upd_other by (intros Heq; subst; contradiction).
      rewrite IH by assumption. lia.
Qed.

Lemma stackTotal_removeId_in (f : ItemId -> Item) (tid : Z) (k : ItemId)
      (l : list ItemId) :
  NoDup l -> In k l ->
  stackTotal f tid (removeId k l) = stackTotal f tid l - share tid (f k).
Proof.
  induction 1 as [| a l Hnotin Hnd IH]; simpl; intros Hin.
  - contradiction.
  - destruct (Nat.eqb a k) eqn:Heq.
    + apply Nat.eqb_eq in Heq. subst a.
      rewrite removeId_notin by assumption. lia.
    + apply Nat.eqb_neq in Heq. destruct Hin as [Ha | Hin]; [contradiction |].
      simpl. rewrite IH by assumption. lia.
Qed.

Lemma stackTotal_insertAt (f : ItemId -> Item) (tid : Z) (k : nat) (i : ItemId)
      (l : list ItemId) :
  stackTotal f tid (insertAt k i l) = stackTotal f tid l + share tid (f i).
Proof.
  revert l. induction k as [| k IH]; intros l; simpl.
  - lia.
  - destruct l as [| a l]; simpl; [lia |]. rewrite IH. lia.
Qed.

Lemma sameStock_refl (w : World) : sameStock w w.
Proof. split; [reflexivity | intros j; repeat split]. Qed.

Lemma sameStock_trans (a b c : World) :
  sameStock a b -> sameStock b c -> sameStock a c.
Proof.
  intros [Hc1 Hi1] [Hc2 Hi2]. split.
  - rewrite Hc2. exact Hc1.
  - intros j. destruct (Hi1 j) as [H1 [H2 H3]]. destruct (Hi2 j) as [H4 [H5 H6]].
    repeat split; congruence.
Qed.

Lemma sameStock_notify (w : World) (x : Notification) : sameStock w (notify w x).
Proof. split; [reflexivity | intros j; repeat split]. Qed.

Lemma sameStock_release (w : World) (i : ItemId) : sameStock w (ReleaseItem w i).
Proof. split; [reflexivity | intros j; repeat split]. Qed.

Lemma sameStock_enrol (w : World) (i : ItemId) : sameStock w (enrolDecay w i).
Proof.
  split; [reflexivity |]. intros j. unfold enrolDecay. simpl.
  destruct (Nat.eq_dec j i) as [-> | Hne].
  - rewrite upd_same. repeat split.
  - rewrite upd_other by exact Hne. repeat split.
Qed.

Lemma holderTotal_sameStock (w w' : World) (h : Cylinder) (tid : Z) :
  sameStock w w' -> holderTotal w' h tid = holderTotal w h tid.
Proof.
  intros [Hc Hi]. unfold holderTotal. rewrite Hc.
  apply stackTotal_ext. intros j _. destruct (Hi j) as [H1 [H2 _]]. tauto.
Qed.

Ltac stock_step :=
  match goal with
  | |- sameStock ?a ?a => apply sameStock_refl
  | |- sameStock _ (notify _ _) =>
      eapply sameStock_trans; [| apply sameStock_notify]
  | |- sameStock _ (postAddNotification _ _ _ _ _) =>
      eapply sameStock_trans; [| apply sameStock_notify]
  | |- sameStock _ (postRemoveNotification _ _ _ _ _) =>
      eapply sameStock_trans; [| apply sameStock_notify]
  | |- sameStock _ (ReleaseItem _ _) =>
      eapply sameStock_trans; [| apply sameStock_release]
  | |- sameStock _ (enrolDecay _ _) =>
      eapply sameStock_trans; [| apply sameStock_enrol]
  | |- sameStock _ (if ?b then _ else _) => destruct b
  | |- sameStock _ (match ?x with Some _ => _ | None => _ end) => destruct x
  end.

Section CommitFacts.

Context {K : Constants} {E : Externals}.

(** After the item has been added to the destination, the commit only
    notifies, enrols and reports. *)
Lemma commitMove_tail (w : World) (fromCylinder : Cylinder) (d : Destination)
      (item : ItemId) (n : Z) (toIt : option ItemId) (retMaxCount : ReturnValue)
      (maxQueryCount m : Z) (ret : ReturnValue)
      (hk : option (nat * Position * Position)) (w2 : World)
      (moveItem updateItem : option ItemId) :
  updateItems (removeThing w fromCylinder item m) (toCylinder d) item m toIt
    = (w2, moveItem, updateItem) ->
  sameStock
    match moveItem with
    | Some k => addThing w2 (toCylinder d) (destIndex d) k
    | None => w2
    end
    (world (commitMove w fromCylinder d item n toIt retMaxCount maxQueryCount
                       m ret hk)).
Proof.
  intros Hupdate. unfold commitMove. rewrite Hupdate.
  destruct moveItem as [k |]; destruct updateItem as [u |];
    destruct hk as [[[p fp] tp] |];
    match goal with
    | |- sameStock _ (world (if ?b then _ else _)) => destruct b
    end; cbn [world]; repeat stock_step.
Qed.

(** The exchange leaves the colliding item in place or takes it away. *)
Lemma exchangeItem_colliding (w : World) (fromCylinder : Cylinder)
      (d : Destination) (item : ItemId) (n : Z) (actor : option Creature)
      (hk : option (nat * Position * Position)) (r : ReturnValue)
      (toIt : option ItemId) (w1 : World) :
  exchangeItem w fromCylinder d item n actor hk = Continue (r, toIt, w1) ->
  toIt = toItem d \/ toIt = None.
Proof.
  unfold exchangeItem.
  destruct (ReturnValue_eq_dec _ RETURNVALUE_NEEDEXCHANGE).
  2: { intros Heq. injection Heq as _ <- _. left. reflexivity. }
  destruct (toItem d) as [t |]; [| discriminate].
  destruct (isNoError _).
  2: { intros Heq. injection Heq as _ <- _. left. reflexivity. }
  destruct (negb (isNoError _)); [discriminate |].
  destruct (queryMaxCount _ _ _ _ _ _) as [retEx maxEx].
  destruct (negb (isNoError retEx) && (maxEx =? 0)); [discriminate |].
  destruct (isNoError _).
  - intros Heq. injection Heq as _ <- _. right. reflexivity.
  - intros Heq. injection Heq as _ <- _. left. reflexivity.
Qed.

(** A call that passes every check is the commit. *)
Lemma internalMoveItem_commits (fuel : nat) (w : World)
      (fromCylinder toCyl : Cylinder) (index : Z) (item : ItemId) (n flags : Z)
      (actor : option Creature) (tradeItem : option ItemId)
      (fromPos toPos : option Position) (w1 : World) (toIt : option ItemId)
      (retMaxCount : ReturnValue) (maxQueryCount : Z) :
  let d := resolveDestination w item toCyl index None flags 0 0 in
  let hk := hookContext actor fromPos toPos in
  let m := moveQuantity (isStackable w1 item) n maxQueryCount in
  preMoveHook w hk item (to_uint16 n) fromCylinder toCyl = RETURNVALUE_NOERROR ->
  toItem d <> Some item ->
  exchangeItem w fromCylinder d item n actor hk
    = Continue (RETURNVALUE_NOERROR, toIt, w1) ->
  queryMaxCount w1 (toCylinder d) (destIndex d) item n (destFlags d)
    = (retMaxCount, maxQueryCount) ->
  retMaxCount = RETURNVALUE_NOERROR \/ maxQueryCount <> 0 ->
  queryRemove w1 fromCylinder item m (destFlags d) actor = RETURNVALUE_NOERROR ->
  tradeItemInDestination fuel w1 (toCylinder d) tradeItem = Some false ->
  internalMoveItem fuel w fromCylinder toCyl index item n flags actor tradeItem
                   fromPos toPos
  = Some (commitMove w1 fromCylinder d item n toIt retMaxCount maxQueryCount m
                     RETURNVALUE_NOERROR hk).
Proof.
  intros d hk m Hhook Hother Hswap Hmax Hroom Hremove Htrade.
  unfold internalMoveItem. fold d hk. clearbody d hk.
  rewrite Hhook. simpl.
  assert (Hsame : match toItem d with
                  | Some t => Nat.eqb item t
                  | None => false
                  end = false).
  { destruct (toItem d) as [t |]; [| reflexivity].
    destruct (Nat.eqb item t) eqn:Heq; [| reflexivity].
    apply Nat.eqb_eq in Heq. subst t. contradiction. }
  rewrite Hsame, Hswap. simpl. rewrite Hmax.
  assert (Hgo : negb (isNoError retMaxCount) && (maxQueryCount =? 0) = false).
  { destruct Hroom as [-> | Hnz]; [reflexivity |].
    destruct (maxQueryCount =? 0) eqn:Hz;
      [apply Z.eqb_eq in Hz; contradiction | apply andb_false_r]. }
  rewrite Hgo. fold m. rewrite Hremove. simpl. rewrite Htrade. reflexivity.
Qed.

Lemma count_addThing (w : World) (c : Cylinder) (index : Z) (k j : ItemId) :
  count (items (addThing w c index k) j) = count (items w j).
Proof.
  unfold addThing. simpl. destruct (Nat.eq_dec j k) as [-> | Hne].
  - rewrite upd_same. reflexivity.
  - rewrite upd_other by exact Hne. reflexivity.
Qed.

Lemma id_addThing (w : World) (c : Cylinder) (index : Z) (k j : ItemId) :
  id (items (addThing w c index k) j) = id (items w j).
Proof.
  unfold addThing. simpl. destruct (Nat.eq_dec j k) as [-> | Hne].
  - rewrite upd_same. reflexivity.
  - rewrite upd_other by exact Hne. reflexivity.
Qed.

(** The merge and the split leave the count of the moved item alone. *)
Lemma updateItems_count_item (w : World) (toCyl : Cylinder) (item : ItemId)
      (m : Z) (toIt : option ItemId) :
  toIt <> Some item -> item <> nextItem w ->
  count (items (fst (fst (updateItems w toCyl item m toIt))) item)
  = count (items w item).
Proof.
  intros Hother Hfresh. unfold updateItems.
  destruct (isStackable w item); [| reflexivity].
  destruct toIt as [t |].
  - assert (Hne : item <> t) by (intros Heq; subst; contradiction).
    destruct (equals w item (Some t)).
    + match goal with
      | |- context [0 <? ?x] => destruct (0 <? x)
      end; cbn;
        match goal with
        | |- context [isRemoved ?x item] => destruct (isRemoved x item)
        end; cbn; repeat rewrite upd_other by assumption; reflexivity.
    + match goal with
      | |- context [0 <? ?x] => destruct (0 <? x)
      end; cbn;
        match goal with
        | |- context [isRemoved ?x item] => destruct (isRemoved x item)
        end; cbn; repeat rewrite upd_other by assumption; reflexivity.
  - match goal with
    | |- context [0 <? ?x] => destruct (0 <? x)
    end; cbn;
      match goal with
      | |- context [isRemoved ?x item] => destruct (isRemoved x item)
      end; cbn; repeat rewrite upd_other by assumption; reflexivity.
Qed.

Lemma count_removeThing_partial (w : World) (c : Cylinder) (item : ItemId) (m : Z) :
  isStackable w item = true -> m < count (items w item) ->
  count (items (removeThing w c item m) item) = count (items w item) - m.
Proof.
  intros Hstack Hlt. unfold removeThing. rewrite Hstack.
  destruct (m <? count (items w item)) eqn:Hm; [| apply Z.ltb_ge in Hm; lia].
  simpl. rewrite upd_same. reflexivity.
Qed.

Lemma nextItem_removeThing (w : World) (c : Cylinder) (item : ItemId) (m : Z) :
  nextItem (removeThing w c item m) = nextItem w.
Proof. unfold removeThing. destruct (_ && _); reflexivity. Qed.

Lemma isStackable_sameStock (a b : World) (item : ItemId) :
  sameStock a b -> isStackable b item = isStackable a item.
Proof.
  intros [_ Hitems]. unfold isStackable.
  destruct (Hitems item) as [Hid _]. rewrite Hid. reflexivity.
Qed.

Lemma id_removeThing (w : World) (c : Cylinder) (i j : ItemId) (m : Z) :
  id (items (removeThing w c i m) j) = id (items w j).
Proof.
  unfold removeThing. destruct (_ && _); simpl;
    (destruct (Nat.eq_dec j i) as [-> | Hne];
     [rewrite upd_same | rewrite upd_other by exact Hne]; reflexivity).
Qed.

(** The merge and the split leave the type of every item alone. *)
Lemma updateItems_id (w : World) (toCyl : Cylinder) (item : ItemId)
      (m : Z) (toIt : option ItemId) (j : ItemId) :
  (j < nextItem w)%nat ->
  id (items (fst (fst (updateItems w toCyl item m toIt))) j) = id (items w j).
Proof.
  intros Hold. assert (Hne : j <> nextItem w) by lia.
  assert (Hupd : forall (f : ItemId -> Item) (t : ItemId) (c : Z),
             id (upd f t (setIdCount (f t) (id (f t)) c) j) = id (f j)).
  { intros f t c. destruct (Nat.eq_dec j t) as [-> | Hjt].
    - rewrite upd_same. reflexivity.
    - rewrite upd_other by exact Hjt. reflexivity. }
  unfold updateItems.
  destruct (isStackable w item); [| reflexivity].
  destruct toIt as [t |]; [destruct (equals w item (Some t)) |];
    match goal with
    | |- context [0 <? ?x] => destruct (0 <? x)
    end; cbn;
    match goal with
    | |- context [isRemoved ?x item] => destruct (isRemoved x item)
    end; cbn; repeat rewrite upd_other by exact Hne;
    try rewrite Hupd; reflexivity.
Qed.

(** What a committed move answers. *)
Lemma commitMove_outcome (w : World) (fromCylinder : Cylinder) (d : Destination)
      (item : ItemId) (n : Z) (toIt : option ItemId) (retMaxCount : ReturnValue)
      (maxQueryCount m : Z) (ret : ReturnValue)
      (hk : option (nat * Position * Position)) :
  (item < nextItem w)%nat ->
  outcome (commitMove w fromCylinder d item n toIt retMaxCount maxQueryCount m
                      ret hk)
  = if isStackable w item && (maxQueryCount <? n) then retMaxCount else ret.
Proof.
  intros Hold.
  destruct (updateItems (removeThing w fromCylinder item m) (toCylinder d) item m
                        toIt) as [[w2 moveItem] updateItem] eqn:Hupdate.
  assert (Hid2 : id (items w2 item) = id (items w item)).
  { pose proof (@updateItems_id (removeThing w fromCylinder item m)
                  (toCylinder d) item m toIt item) as Hkeep.
    rewrite Hupdate, nextItem_removeThing, id_removeThing in Hkeep.
    apply Hkeep. exact Hold. }
  unfold commitMove. rewrite Hupdate. cbv zeta.
  match goal with
  | |- outcome (if isStackable ?X item && _ then _ else _) = _ =>
      assert (Hstack : isStackable X item = isStackable w item)
  end.
  { unfold isStackable at 2. rewrite <- Hid2.
    destruct moveItem as [k |].
    - rewrite <- (id_addThing w2 (toCylinder d) (destIndex d) k item).
      apply isStackable_sameStock. destruct updateItem; repeat stock_step.
    - apply isStackable_sameStock. destruct updateItem; repeat stock_step. }
  rewrite Hstack.
  destruct (isStackable w item && (maxQueryCount <? n)); reflexivity.
Qed.

(** What the source stack has after a committed move that takes fewer
    units than it had. *)
Lemma commitMove_source_count (w : World) (fromCylinder : Cylinder)
      (d : Destination) (item : ItemId) (n : Z) (toIt : option ItemId)
      (retMaxCount : ReturnValue) (maxQueryCount m : Z) (ret : ReturnValue)
      (hk : option (nat * Position * Position)) :
  isStackable w item = true -> toIt <> Some item -> item <> nextItem w ->
  m < count (items w item) ->
  count (items (world (commitMove w fromCylinder d item n toIt retMaxCount
                                  maxQueryCount m ret hk)) item)
  = count (items w item) - m.
Proof.
  intros Hstack Hother Hfresh Hlt.
  destruct (updateItems (removeThing w fromCylinder item m) (toCylinder d) item m
                        toIt) as [[w2 moveItem] updateItem] eqn:Hupdate.
  destruct (@commitMove_tail w fromCylinder d item n toIt retMaxCount
              maxQueryCount m ret hk w2 moveItem updateItem Hupdate)
    as [_ Hitems].
  destruct (Hitems item) as [_ [Hcount _]]. rewrite Hcount.
  assert (H2 : count (items w2 item) = count (items w item) - m).
  { pose proof (@updateItems_count_item (removeThing w fromCylinder item m)
                  (toCylinder d) item m toIt Hother) as Hkeep.
    rewrite Hupdate, nextItem_removeThing in Hkeep. simpl in Hkeep.
    rewrite Hkeep by exact Hfresh.
    apply count_removeThing_partial; assumption. }
  destruct moveItem as [k |]; [rewrite count_addThing |]; exact H2.
Qed.

End CommitFacts.

(** ** Conservation of stacks *)

Section StackFacts.

Context {K : Constants} {E : Externals}.

Lemma small_to_uint32 (z : Z) : 0 <= z < 2 ^ 32 -> to_uint32 z = z.
Proof. intros Hz. unfold to_uint32. apply Z.mod_small. exact Hz. Qed.

Lemma small_to_int32 (z : Z) : 0 <= z < 2 ^ 31 -> to_int32 z = z.
Proof.
  intros Hz. unfold to_int32. rewrite Z.mod_small by lia.
  destruct (z <? 2 ^ 31) eqn:Hlt; [reflexivity | apply Z.ltb_ge in Hlt; lia].
Qed.

Lemma small_to_uint8 (z : Z) : 0 <= z < 2 ^ 8 -> to_uint8 z = z.
Proof. intros Hz. unfold to_uint8. apply Z.mod_small. exact Hz. Qed.

Lemma id_upd_setIdCount (f : ItemId -> Item) (t j : ItemId) (c : Z) :
  id (upd f t (setIdCount (f t) (id (f t)) c) j) = id (f j).
Proof.
  destruct (Nat.eq_dec j t) as [-> | Hjt].
  - rewrite upd_same. reflexivity.
  - rewrite upd_other by exact Hjt. reflexivity.
Qed.

Lemma updateItems_stack (w : World) (toCyl : Cylinder) (item : ItemId) (m : Z)
      (toIt : option ItemId) :
  let merged := mergedUnits w item m toIt in
  let k := nextItem w in
  isStackable w item = true ->
  (forall t, mergeTarget w item toIt = Some t ->
             0 <= getStackSize w t - count (items w t) < 2 ^ 32) ->
  0 <= m - merged < 2 ^ 8 ->
  let '(w2, moveItem, updateItem) := updateItems w toCyl item m toIt in
  contents w2 = contents w
  /\ moveItem = (if 0 <? m - merged then Some k else None)
  /\ (forall j, (j < k)%nat ->
        id (items w2 j) = id (items w j)
        /\ count (items w2 j)
           = if match mergeTarget w item toIt with
                | Some t => Nat.eqb j t
                | None => false
                end
             then count (items w j) + merged else count (items w j))
  /\ (0 < m - merged ->
      id (items w2 k) = id (items w item) /\ count (items w2 k) = m - merged).
Proof.
  intros merged k Hstack Hroom Hrest.
  assert (H31 : 0 <= m - merged < 2 ^ 31)
    by (change (2 ^ 8) with 256 in Hrest; change (2 ^ 31) with 2147483648; lia).
  unfold updateItems. rewrite Hstack.
  subst merged. unfold mergedUnits, mergeTarget in *.
  destruct toIt as [t |]; [destruct (equals w item (Some t)) eqn:Heq |];
    [| | change (equals w item None) with false in *]; cbv iota in *.
  - rewrite small_to_uint32 by (apply Hroom; reflexivity).
    set (mg := Z.min (getStackSize w t - count (items w t)) m) in *.
    rewrite small_to_int32 by exact H31.
    destruct (0 <? m - mg) eqn:Hpos; cbn;
      match goal with
      | |- context [isRemoved ?x item] => destruct (isRemoved x item)
      end; cbn; (split; [reflexivity |]); (split; [reflexivity |]); split.
    all: try (intros j Hj; assert (Hjk : j <> k) by lia;
              repeat rewrite upd_other by exact Hjk;
              destruct (Nat.eqb j t) eqn:Hjt;
              [apply Nat.eqb_eq in Hjt; subst j; rewrite upd_same; split;
               reflexivity
              |apply Nat.eqb_neq in Hjt; rewrite upd_other by exact Hjt; split;
               reflexivity]).
    all: try (intros Hgt; apply Z.ltb_ge in Hpos; lia).
    all: intros _; rewrite !upd_same; cbn; split;
      [apply id_upd_setIdCount | apply small_to_uint8; exact Hrest].
  - rewrite small_to_int32 by exact H31.
    destruct (0 <? m - 0) eqn:Hpos; cbn;
      match goal with
      | |- context [isRemoved ?x item] => destruct (isRemoved x item)
      end; cbn; (split; [reflexivity |]); (split; [reflexivity |]); split.
    all: try (intros j Hj; assert (Hjk : j <> k) by lia;
              repeat rewrite upd_other by exact Hjk; split; reflexivity).
    all: try (intros Hgt; apply Z.ltb_ge in Hpos; lia).
    all: intros _; rewrite !upd_same; cbn; split;
      [reflexivity | apply small_to_uint8; exact Hrest].
  - rewrite small_to_int32 by exact H31.
    destruct (0 <? m - 0) eqn:Hpos; cbn;
      match goal with
      | |- context [isRemoved ?x item] => destruct (isRemoved x item)
      end; cbn; (split; [reflexivity |]); (split; [reflexivity |]); split.
    all: try (intros j Hj; assert (Hjk : j <> k) by lia;
              repeat rewrite upd_other by exact Hjk; split; reflexivity).
    all: try (intros Hgt; apply Z.ltb_ge in Hpos; lia).
    all: intros _; rewrite !upd_same; cbn; split;
      [reflexivity | apply small_to_uint8; exact Hrest].
Qed.


Lemma owner_unique (w : World) (h h' : Cylinder) (j : ItemId) :
  wellFormed w -> In j (contents w h) -> In j (contents w h') -> h = h'.
Proof.
  intros [_ [Hown _]] Hin Hin'.
  pose proof (Hown h j Hin) as H1. pose proof (Hown h' j Hin') as H2.
  congruence.
Qed.

Lemma Cylinder_eqb_eq (a b : Cylinder) : Cylinder_eqb a b = true <-> a = b.
Proof.
  unfold Cylinder_eqb. destruct (Cylinder_eq_dec a b); split; intros;
    try assumption; try reflexivity; try discriminate; contradiction.
Qed.

Lemma Cylinder_eqb_refl (a : Cylinder) : Cylinder_eqb a a = true.
Proof. apply Cylinder_eqb_eq. reflexivity. Qed.

Lemma Cylinder_eqb_neq (a b : Cylinder) : Cylinder_eqb a b = false <-> a <> b.
Proof.
  unfold Cylinder_eqb. destruct (Cylinder_eq_dec a b); split; intros;
    try assumption; try reflexivity; try discriminate; contradiction.
Qed.

Lemma contents_removeThing (w : World) (c h : Cylinder) (item : ItemId) (m : Z) :
  contents (removeThing w c item m) h
  = if isStackable w item && (m <? count (items w item)) then contents w h
    else if Cylinder_eqb h c then removeId item (contents w c) else contents w h.
Proof.
  unfold removeThing. destruct (_ && _); simpl; [reflexivity |].
  unfold updC. destruct (Cylinder_eqb h c); reflexivity.
Qed.

Lemma In_contents_removeThing (w : World) (c h : Cylinder) (item j : ItemId) (m : Z) :
  In j (contents (removeThing w c item m) h) -> In j (contents w h).
Proof.
  rewrite contents_removeThing. destruct (_ && _); [tauto |].
  destruct (Cylinder_eqb h c) eqn:Hhc; [| tauto].
  apply Cylinder_eqb_eq in Hhc. subst h. rewrite In_removeId. tauto.
Qed.

Lemma count_removeThing_other (w : World) (c : Cylinder) (item j : ItemId) (m : Z) :
  j <> item -> count (items (removeThing w c item m) j) = count (items w j).
Proof.
  intros Hne. unfold removeThing. destruct (_ && _); simpl;
    rewrite upd_other by exact Hne; reflexivity.
Qed.

Lemma attributes_removeThing (w : World) (c : Cylinder) (i j : ItemId) (m : Z) :
  attributes (items (removeThing w c i m) j) = attributes (items w j).
Proof.
  unfold removeThing. destruct (_ && _); simpl;
    (destruct (Nat.eq_dec j i) as [-> | Hne];
     [rewrite upd_same | rewrite upd_other by exact Hne]; reflexivity).
Qed.

(** Taking [c] units from a stack of the source takes [c] units from the
    source and nothing from any other holder. *)
Lemma holderTotal_removeThing (w : World) (fromCylinder h : Cylinder)
      (item : ItemId) (c : Z) :
  wellFormed w -> In item (contents w fromCylinder) ->
  isStackable w item = true -> c <= count (items w item) ->
  holderTotal (removeThing w fromCylinder item c) h (id (items w item))
  = holderTotal w h (id (items w item))
    - (if Cylinder_eqb h fromCylinder then c else 0).
Proof.
  intros Hwf Hin Hstack Hc.
  pose proof Hwf as [Hnd _].
  assert (Hshare : share (id (items w item)) (items w item) = count (items w item)).
  { unfold share. rewrite Z.eqb_refl. reflexivity. }
  unfold holderTotal. rewrite contents_removeThing. rewrite Hstack. simpl.
  unfold removeThing. rewrite Hstack. simpl.
  destruct (c <? count (items w item)) eqn:Hlt; simpl.
  - destruct (Cylinder_eqb h fromCylinder) eqn:Hh.
    + apply Cylinder_eqb_eq in Hh. subst h.
      rewrite stackTotal_upd_in by (auto using Hnd).
      rewrite Hshare. unfold share. simpl. rewrite Z.eqb_refl. lia.
    + apply Cylinder_eqb_neq in Hh.
      rewrite stackTotal_upd_notin; [lia |].
      intros Hin'. apply Hh. exact (owner_unique _ _ _ _ Hwf Hin' Hin).
  - apply Z.ltb_ge in Hlt. assert (c = count (items w item)) by lia. subst c.
    destruct (Cylinder_eqb h fromCylinder) eqn:Hh.
    + apply Cylinder_eqb_eq in Hh. subst h.
      rewrite stackTotal_upd_notin by (rewrite In_removeId; tauto).
      rewrite stackTotal_removeId_in by (auto using Hnd). lia.
    + apply Cylinder_eqb_neq in Hh.
      rewrite stackTotal_upd_notin; [lia |].
      intros Hin'. apply Hh. exact (owner_unique _ _ _ _ Hwf Hin' Hin).
Qed.


Lemma equals_removeThing (w : World) (c : Cylinder) (item i : ItemId) (m : Z)
      (toIt : option ItemId) :
  equals (removeThing w c item m) i toIt = equals w i toIt.
Proof.
  unfold equals. destruct toIt as [t |]; [| reflexivity].
  rewrite !id_removeThing, !attributes_removeThing. reflexivity.
Qed.

Lemma mergeTarget_removeThing (w : World) (c : Cylinder) (item i : ItemId) (m : Z)
      (toIt : option ItemId) :
  mergeTarget (removeThing w c item m) i toIt = mergeTarget w i toIt.
Proof. unfold mergeTarget. rewrite equals_removeThing. reflexivity. Qed.

Lemma mergeTarget_Some (w : World) (item t : ItemId) (toIt : option ItemId) :
  mergeTarget w item toIt = Some t ->
  toIt = Some t /\ id (items w t) = id (items w item).
Proof.
  unfold mergeTarget, equals. destruct toIt as [u |]; [| discriminate].
  destruct (id (items w item) =? id (items w u)) eqn:Hid; simpl; [| discriminate].
  destruct (attributes (items w item) =? attributes (items w u)); [| discriminate].
  intros Heq. injection Heq as ->. apply Z.eqb_eq in Hid. split; congruence.
Qed.

Lemma mergedUnits_removeThing (w : World) (c : Cylinder) (item : ItemId) (m n : Z)
      (toIt : option ItemId) :
  toIt <> Some item ->
  mergedUnits (removeThing w c item m) item n toIt = mergedUnits w item n toIt.
Proof.
  intros Hother. unfold mergedUnits. rewrite mergeTarget_removeThing.
  destruct (mergeTarget w item toIt) as [t |] eqn:Ht; [| reflexivity].
  destruct (mergeTarget_Some _ _ _ _ Ht) as [Hto _].
  assert (Hne : t <> item) by (intros ->; contradiction).
  unfold getStackSize. rewrite id_removeThing.
  rewrite count_removeThing_other by exact Hne. reflexivity.
Qed.

(** How many units the merge may take: between none and all. *)
Lemma mergedUnits_bounds (w : World) (item : ItemId) (c : Z)
      (toIt : option ItemId) (h : Cylinder) :
  wellFormed w -> isStackable w item = true -> 0 <= c ->
  (forall t, toIt = Some t -> In t (contents w h)) ->
  0 <= mergedUnits w item c toIt <= c
  /\ forall t, mergeTarget w item toIt = Some t ->
       1 <= count (items w t) <= getStackSize w t
       /\ getStackSize w t <= 255
       /\ count (items w t) + mergedUnits w item c toIt <= getStackSize w t.
Proof.
  intros [_ [_ [_ [Hcounted Hbyte]]]] Hstack Hc Hto.
  unfold mergedUnits.
  destruct (mergeTarget w item toIt) as [t |] eqn:Ht.
  - destruct (mergeTarget_Some _ _ _ _ Ht) as [Htoit Hid].
    assert (Hst : stackable (itemTypes (id (items w t))) = true)
      by (rewrite Hid; exact Hstack).
    pose proof (Hcounted h t (Hto t Htoit) Hst) as Hrange.
    pose proof (Hbyte _ Hst) as Hb.
    unfold getStackSize.
    split; [lia |]. intros t' Heq. injection Heq as <-. lia.
  - split; [lia |]. intros t' Heq. discriminate.
Qed.



(** The holders and the stacks after a committed move of [c] units of a
    stackable item. *)
Lemma commitMove_stock (w : World) (fromCylinder : Cylinder) (d : Destination)
      (item : ItemId) (n : Z) (toIt : option ItemId) (retMaxCount : ReturnValue)
      (maxQueryCount c : Z) (ret : ReturnValue)
      (hk : option (nat * Position * Position)) :
  let final := world (commitMove w fromCylinder d item n toIt retMaxCount
                                 maxQueryCount c ret hk) in
  let merged := mergedUnits w item c toIt in
  let k := nextItem w in
  let taken := removeThing w fromCylinder item c in
  wellFormed w -> isStackable w item = true ->
  0 <= c <= count (items w item) ->
  In item (contents w fromCylinder) ->
  toIt <> Some item ->
  (forall t, toIt = Some t -> In t (contents w (toCylinder d))) ->
  (forall h, contents final h
             = if (0 <? c - merged) && Cylinder_eqb h (toCylinder d)
               then insertAt (insertPosition (destIndex d)) k (contents taken h)
               else contents taken h)
  /\ (forall j, (j < k)%nat ->
        id (items final j) = id (items w j)
        /\ count (items final j)
           = if match mergeTarget w item toIt with
                | Some t => Nat.eqb j t
                | None => false
                end
             then count (items taken j) + merged else count (items taken j))
  /\ (0 < c - merged ->
      id (items final k) = id (items w item) /\ count (items final k) = c - merged)
  /\ movedItem (commitMove w fromCylinder d item n toIt retMaxCount
                           maxQueryCount c ret hk)
     = if 0 <? c - merged then Some k else Some item.
Proof.
  intros final merged k taken Hwf Hstack Hc Hin Hother Hto. subst taken.
  destruct (mergedUnits_bounds w item c toIt (toCylinder d) Hwf Hstack
              ltac:(lia) Hto) as [Hmerged Htarget].
  fold merged in Hmerged, Htarget.
  assert (Hitem : 1 <= count (items w item) <= 255).
  { destruct Hwf as [_ [_ [_ [Hcounted Hbyte]]]].
    pose proof (Hcounted _ _ Hin Hstack). pose proof (Hbyte _ Hstack). lia. }
  destruct (updateItems (removeThing w fromCylinder item c) (toCylinder d) item c
                        toIt) as [[w2 moveItem] updateItem] eqn:Hupdate.
  pose proof (commitMove_tail w fromCylinder d item n toIt retMaxCount
                maxQueryCount c ret hk w2 moveItem updateItem Hupdate)
    as [Hcontents Hitems].
  fold final in Hcontents, Hitems.
  pose proof (updateItems_stack (removeThing w fromCylinder item c)
                (toCylinder d) item c toIt) as Hspec.
  cbv zeta in Hspec. rewrite Hupdate in Hspec.
  rewrite mergedUnits_removeThing, mergeTarget_removeThing,
    nextItem_removeThing in Hspec by exact Hother.
  fold merged k in Hspec.
  destruct Hspec as [Hc2 [Hmove [Hold Hnew]]].
  { unfold isStackable. rewrite id_removeThing. exact Hstack. }
  { intros t Ht. destruct (Htarget t Ht) as [H1 [H2 H3]].
    destruct (mergeTarget_Some _ _ _ _ Ht) as [Htoit _].
    assert (Hne : t <> item) by (intros ->; contradiction).
    unfold getStackSize. rewrite id_removeThing.
    rewrite count_removeThing_other by exact Hne.
    unfold getStackSize in *. change (2 ^ 32) with 4294967296. lia. }
  { change (2 ^ 8) with 256. lia. }
  split; [| split; [| split]].
  - intros h. rewrite Hcontents. rewrite Hmove.
    destruct (0 <? c - merged); simpl.
    + unfold updC, insertPosition. rewrite Hc2.
      destruct (Cylinder_eqb h (toCylinder d)) eqn:Hh; [| reflexivity].
      apply Cylinder_eqb_eq in Hh. subst h. reflexivity.
    + rewrite Hc2. reflexivity.
  - intros j Hj. destruct (Hitems j) as [Hid [Hcount _]].
    rewrite Hid, Hcount. rewrite Hmove.
    destruct (Hold j Hj) as [Hid2 Hcount2].
    destruct (0 <? c - merged).
    + rewrite id_addThing, count_addThing, Hid2, Hcount2.
      rewrite id_removeThing. split; reflexivity.
    + rewrite Hid2, Hcount2. rewrite id_removeThing.
      split; reflexivity.
  - intros Hpos. destruct (Hitems k) as [Hid [Hcount _]].
    rewrite Hid, Hcount. rewrite Hmove.
    destruct (Hnew Hpos) as [Hid2 Hcount2].
    destruct (0 <? c - merged) eqn:Hp; [| apply Z.ltb_ge in Hp; lia].
    rewrite id_addThing, count_addThing, Hid2, Hcount2.
    rewrite id_removeThing. split; reflexivity.
  - unfold commitMove. rewrite Hupdate. cbv zeta.
    match goal with
    | |- movedItem (if ?b then _ else _) = _ => destruct b
    end; cbn [movedItem]; rewrite Hmove; destruct (0 <? c - merged);
      reflexivity.
Qed.


Section Committed.

Variables (w : World) (fromCylinder : Cylinder) (d : Destination)
          (item : ItemId) (n : Z) (toIt : option ItemId)
          (retMaxCount : ReturnValue) (maxQueryCount c : Z) (ret : ReturnValue)
          (hk : option (nat * Position * Position)).

Hypothesis Hwf : wellFormed w.
Hypothesis Hstack : isStackable w item = true.
Hypothesis Hc : 0 <= c <= count (items w item).
Hypothesis Hin : In item (contents w fromCylinder).
Hypothesis Hother : toIt <> Some item.
Hypothesis Hto : forall t, toIt = Some t -> In t (contents w (toCylinder d)).

Local Abbreviation final :=
  (world (commitMove w fromCylinder d item n toIt retMaxCount maxQueryCount c
                     ret hk)).
Local Abbreviation merged := (mergedUnits w item c toIt).
Local Abbreviation taken := (removeThing w fromCylinder item c).

Lemma taken_NoDup (h : Cylinder) : NoDup (contents taken h).
Proof.
  destruct Hwf as [Hnd _]. rewrite contents_removeThing.
  destruct (_ && _); [apply Hnd |].
  destruct (Cylinder_eqb h fromCylinder); [apply NoDup_removeId |]; apply Hnd.
Qed.

Lemma taken_old (h : Cylinder) (j : ItemId) :
  In j (contents taken h) -> In j (contents w h) /\ (j < nextItem w)%nat.
Proof.
  intros Hj. apply In_contents_removeThing in Hj. split; [exact Hj |].
  destruct Hwf as [_ [_ [Hfresh _]]]. exact (Hfresh h j Hj).
Qed.

Lemma taken_keeps (h : Cylinder) (j : ItemId) :
  j <> item -> In j (contents w h) -> In j (contents taken h).
Proof.
  intros Hne Hj. rewrite contents_removeThing.
  destruct (_ && _); [exact Hj |].
  destruct (Cylinder_eqb h fromCylinder) eqn:Hh; [| exact Hj].
  apply Cylinder_eqb_eq in Hh. subst h. rewrite In_removeId. tauto.
Qed.

Lemma taken_id (j : ItemId) : id (items taken j) = id (items w j).
Proof. apply id_removeThing. Qed.

Lemma merged_total (h : Cylinder) (f : ItemId -> Item) :
  (forall j, In j (contents taken h) ->
     id (f j) = id (items taken j)
     /\ count (f j)
        = if match mergeTarget w item toIt with
             | Some t => Nat.eqb j t
             | None => false
             end
          then count (items taken j) + merged else count (items taken j)) ->
  stackTotal f (id (items w item)) (contents taken h)
  = holderTotal taken h (id (items w item))
    + (if Cylinder_eqb h (toCylinder d) then merged else 0).
Proof.
  intros Hf. unfold holderTotal.
  destruct (mergeTarget w item toIt) as [t |] eqn:Ht.
  - destruct (mergeTarget_Some _ _ _ _ Ht) as [Htoit Hid].
    assert (Hne : t <> item) by (intros ->; contradiction).
    pose proof (taken_keeps (toCylinder d) t Hne (Hto t Htoit)) as Htin.
    rewrite (stackTotal_ext
               (upd (items taken) t
                    (setCount (items taken t) (count (items taken t) + merged)))).
    2: { intros j Hj. destruct (Hf j Hj) as [Hfid Hfcount].
         rewrite Hfid, Hfcount.
         destruct (Nat.eqb j t) eqn:Hjt.
         - apply Nat.eqb_eq in Hjt. subst j. rewrite upd_same. split; reflexivity.
         - apply Nat.eqb_neq in Hjt. rewrite upd_other by exact Hjt.
           split; reflexivity. }
    destruct (Cylinder_eqb h (toCylinder d)) eqn:Hh.
    + apply Cylinder_eqb_eq in Hh. subst h.
      rewrite stackTotal_upd_in by (auto using taken_NoDup).
      unfold share. simpl. rewrite taken_id, Hid, Z.eqb_refl. lia.
    + apply Cylinder_eqb_neq in Hh.
      rewrite stackTotal_upd_notin; [lia |].
      intros Hin'. apply Hh. apply taken_old in Hin'.
      exact (owner_unique _ _ _ _ Hwf (proj1 Hin') (Hto t Htoit)).
  - assert (Hm0 : merged = 0).
    { unfold mergedUnits. rewrite Ht. reflexivity. }
    rewrite (stackTotal_ext (items taken)).
    2: { intros j Hj. destruct (Hf j Hj) as [Hfid Hfcount].
         rewrite Hfid, Hfcount. split; reflexivity. }
    rewrite Hm0. destruct (Cylinder_eqb h (toCylinder d)); lia.
Qed.

(** The source has [c] units fewer and the destination [c] units more;
    the two cancel when they are the same holder, and no other holder
    changes. *)
Lemma commitMove_totals (h : Cylinder) :
  holderTotal final h (id (items w item))
  = holderTotal w h (id (items w item))
    - (if Cylinder_eqb h fromCylinder then c else 0)
    + (if Cylinder_eqb h (toCylinder d) then c else 0).
Proof.
  destruct (commitMove_stock w fromCylinder d item n toIt retMaxCount
              maxQueryCount c ret hk Hwf Hstack Hc Hin Hother Hto)
    as [Hcontents [Hold [Hnew _]]].
  destruct (mergedUnits_bounds w item c toIt (toCylinder d) Hwf Hstack
              ltac:(lia) Hto) as [Hmerged _].
  assert (Hbody : stackTotal (items final) (id (items w item)) (contents taken h)
                  = holderTotal w h (id (items w item))
                    - (if Cylinder_eqb h fromCylinder then c else 0)
                    + (if Cylinder_eqb h (toCylinder d) then merged else 0)).
  { rewrite merged_total.
    - rewrite holderTotal_removeThing by (assumption || lia).
      reflexivity.
    - intros j Hj. destruct (taken_old h j Hj) as [_ Hfresh].
      destruct (Hold j Hfresh) as [Hid Hcount].
      rewrite Hid, Hcount, taken_id. split; reflexivity. }
  unfold holderTotal at 1. rewrite Hcontents.
  destruct (0 <? c - merged) eqn:Hpos; simpl.
  - apply Z.ltb_lt in Hpos. destruct (Hnew Hpos) as [Hid Hcount].
    destruct (Cylinder_eqb h (toCylinder d)) eqn:Hh.
    + rewrite stackTotal_insertAt, Hbody.
      unfold share. rewrite Hid, Z.eqb_refl, Hcount. lia.
    + rewrite Hbody. lia.
  - apply Z.ltb_ge in Hpos. rewrite Hbody.
    assert (merged = c) by lia.
    destruct (Cylinder_eqb h (toCylinder d)); lia.
Qed.


Lemma item_old : (item < nextItem w)%nat.
Proof. destruct Hwf as [_ [_ [Hfresh _]]]. exact (Hfresh _ _ Hin). Qed.

Lemma item_not_target :
  match mergeTarget w item toIt with
  | Some t => Nat.eqb item t
  | None => false
  end = false.
Proof.
  destruct (mergeTarget w item toIt) as [t |] eqn:Ht; [| reflexivity].
  destruct (mergeTarget_Some _ _ _ _ Ht) as [Htoit _].
  apply Nat.eqb_neq. intros ->. contradiction.
Qed.

(** The source stack has [c] units fewer; when that leaves nothing, the
    item is in no holder any more. *)
Lemma commitMove_source :
  (c < count (items w item) ->
   count (items final item) = count (items w item) - c
   /\ In item (contents final fromCylinder))
  /\ (c = count (items w item) -> forall h, ~ In item (contents final h)).
Proof.
  destruct (commitMove_stock w fromCylinder d item n toIt retMaxCount
              maxQueryCount c ret hk Hwf Hstack Hc Hin Hother Hto)
    as [Hcontents [Hold _]].
  assert (Hins : forall h, In item (contents final h)
                           <-> In item (contents taken h)).
  { intros h. rewrite Hcontents.
    destruct ((0 <? c - merged) && Cylinder_eqb h (toCylinder d)); [| tauto].
    rewrite In_insertAt. pose proof item_old. split; [| tauto].
    intros [Heq | Hi]; [lia | exact Hi]. }
  split.
  - intros Hlt. destruct (Hold item item_old) as [_ Hcount].
    rewrite item_not_target in Hcount. rewrite Hcount. split.
    + apply count_removeThing_partial; assumption.
    + apply Hins. rewrite contents_removeThing, Hstack.
      apply Z.ltb_lt in Hlt. rewrite Hlt. exact Hin.
  - intros Hall h Hi. apply Hins in Hi. rewrite contents_removeThing, Hstack in Hi.
    assert (Hge : (c <? count (items w item)) = false) by (apply Z.ltb_ge; lia).
    rewrite Hge in Hi. simpl in Hi.
    destruct (Cylinder_eqb h fromCylinder) eqn:Hh.
    + rewrite In_removeId in Hi. tauto.
    + apply Cylinder_eqb_neq in Hh. apply Hh.
      exact (owner_unique _ _ _ _ Hwf Hi Hin).
Qed.

(** The colliding stack is filled first: it takes as many of the [c]
    units as it has room for. *)
Lemma commitMove_merge (t : ItemId) :
  mergeTarget w item toIt = Some t ->
  count (items final t)
  = count (items w t) + Z.min (getStackSize w t - count (items w t)) c.
Proof.
  intros Ht.
  destruct (commitMove_stock w fromCylinder d item n toIt retMaxCount
              maxQueryCount c ret hk Hwf Hstack Hc Hin Hother Hto)
    as [_ [Hold _]].
  destruct (mergeTarget_Some _ _ _ _ Ht) as [Htoit _].
  assert (Hne : t <> item) by (intros ->; contradiction).
  assert (Hfresh : (t < nextItem w)%nat).
  { destruct Hwf as [_ [_ [Hf _]]]. exact (Hf _ _ (Hto t Htoit)). }
  destruct (Hold t Hfresh) as [_ Hcount]. rewrite Hcount, Ht, Nat.eqb_refl.
  rewrite count_removeThing_other by exact Hne.
  unfold mergedUnits. rewrite Ht. reflexivity.
Qed.

(** What the colliding stack has no room for becomes a clone in the
    destination; when it has room for all, nothing is added. *)
Lemma commitMove_remainder :
  (0 < c - merged ->
   In (nextItem w) (contents final (toCylinder d))
   /\ (forall h, ~ In (nextItem w) (contents w h))
   /\ id (items final (nextItem w)) = id (items w item)
   /\ count (items final (nextItem w)) = c - merged
   /\ movedItem (commitMove w fromCylinder d item n toIt retMaxCount
                            maxQueryCount c ret hk) = Some (nextItem w))
  /\ (c - merged <= 0 ->
      forall h j, In j (contents final h) -> In j (contents w h)).
Proof.
  destruct (commitMove_stock w fromCylinder d item n toIt retMaxCount
              maxQueryCount c ret hk Hwf Hstack Hc Hin Hother Hto)
    as [Hcontents [_ [Hnew Hmoved]]].
  split.
  - intros Hpos. destruct (Hnew Hpos) as [Hid Hcount].
    assert (Hp : (0 <? c - merged) = true) by (apply Z.ltb_lt; exact Hpos).
    rewrite Hp in Hmoved.
    split; [| split; [| split; [| split]]]; try assumption.
    + rewrite Hcontents, Hp, Cylinder_eqb_refl. simpl.
      apply In_insertAt. left. reflexivity.
    + intros h Hk. destruct Hwf as [_ [_ [Hfresh _]]].
      pose proof (Hfresh h _ Hk). lia.
  - intros Hnone h j Hj. rewrite Hcontents in Hj.
    assert (Hp : (0 <? c - merged) = false) by (apply Z.ltb_ge; exact Hnone).
    rewrite Hp in Hj. simpl in Hj. apply taken_old in Hj. tauto.
Qed.

(** After the move every stack in a holder still has between one unit and
    the limit of its type. *)
Lemma commitMove_wellCounted : wellCounted final.
Proof.
  destruct (commitMove_stock w fromCylinder d item n toIt retMaxCount
              maxQueryCount c ret hk Hwf Hstack Hc Hin Hother Hto)
    as [Hcontents [Hold [Hnew _]]].
  destruct (mergedUnits_bounds w item c toIt (toCylinder d) Hwf Hstack
              ltac:(lia) Hto) as [Hmerged Htarget].
  pose proof Hwf as [_ [_ [_ [Hcounted _]]]].
  pose proof (Hcounted _ _ Hin Hstack) as Hitem.
  assert (Holdj : forall h j, In j (contents taken h) ->
            stackable (itemTypes (id (items final j))) = true ->
            1 <= count (items final j) <= stackSize (itemTypes (id (items final j)))).
  { intros h j Hj. destruct (taken_old h j Hj) as [Hjw Hfresh].
    destruct (Hold j Hfresh) as [Hid Hcount]. rewrite Hid, Hcount.
    intros Hst. pose proof (Hcounted h j Hjw Hst) as Hrange.
    destruct (mergeTarget w item toIt) as [t |] eqn:Ht.
    - destruct (mergeTarget_Some _ _ _ _ Ht) as [Htoit _].
      assert (Hne : t <> item) by (intros ->; contradiction).
      destruct (Nat.eqb j t) eqn:Hjt.
      + apply Nat.eqb_eq in Hjt. subst j.
        rewrite count_removeThing_other by exact Hne.
        destruct (Htarget t eq_refl) as [H1 [H2 H3]].
        unfold getStackSize in *. lia.
      + destruct (Nat.eq_dec j item) as [-> | Hji].
        * rewrite contents_removeThing, Hstack in Hj.
          destruct (c <? count (items w item)) eqn:Hlt; simpl in Hj.
          -- rewrite count_removeThing_partial by (try assumption; lia).
             apply Z.ltb_lt in Hlt. lia.
          -- exfalso. destruct (Cylinder_eqb h fromCylinder) eqn:Hh.
             ++ rewrite In_removeId in Hj. tauto.
             ++ apply Cylinder_eqb_neq in Hh. apply Hh.
                exact (owner_unique _ _ _ _ Hwf Hj Hin).
        * rewrite count_removeThing_other by exact Hji. exact Hrange.
    - destruct (Nat.eq_dec j item) as [-> | Hji].
      + rewrite contents_removeThing, Hstack in Hj.
        destruct (c <? count (items w item)) eqn:Hlt; simpl in Hj.
        * rewrite count_removeThing_partial by (try assumption; lia).
          apply Z.ltb_lt in Hlt. lia.
        * exfalso. destruct (Cylinder_eqb h fromCylinder) eqn:Hh.
          -- rewrite In_removeId in Hj. tauto.
          -- apply Cylinder_eqb_neq in Hh. apply Hh.
             exact (owner_unique _ _ _ _ Hwf Hj Hin).
      + rewrite count_removeThing_other by exact Hji. exact Hrange. }
  intros h j Hj. rewrite Hcontents in Hj.
  destruct (0 <? c - merged) eqn:Hpos; simpl in Hj.
  - destruct (Cylinder_eqb h (toCylinder d)); [| exact (Holdj h j Hj)].
    apply In_insertAt in Hj. destruct Hj as [-> | Hj]; [| exact (Holdj h j Hj)].
    apply Z.ltb_lt in Hpos. destruct (Hnew Hpos) as [Hid Hcount].
    rewrite Hid, Hcount. intros _. lia.
  - exact (Holdj h j Hj).
Qed.

End Committed.


End StackFacts.

Lemma stackWorld_wellFormed (room : Z) :
  wellFormed (E := stackHolders room) stackWorld.
Proof.
  assert (Hcases : forall h j, In j (contents stackWorld h) ->
            (h = Player 0 /\ (j = 1%nat \/ j = 9%nat))
            \/ (h = Container 9 /\ j = 2%nat)).
  { intros h j. simpl. unfold Cylinder_eqb.
    destruct (Cylinder_eq_dec h (Player 0)) as [-> | _].
    - simpl. intros [<- | [<- | []]]; left; auto.
    - destruct (Cylinder_eq_dec h (Container 9)) as [-> | _].
      + simpl. intros [<- | []]. right. auto.
      + intros []. }
  split; [| split; [| split; [| split]]].
  - intros h. simpl. unfold Cylinder_eqb.
    destruct (Cylinder_eq_dec h (Player 0)).
    + repeat constructor; simpl; intuition discriminate.
    + destruct (Cylinder_eq_dec h (Container 9)); repeat constructor.
      simpl. tauto.
  - intros h j Hj.
    destruct (Hcases h j Hj) as [[-> [-> | ->]] | [-> ->]]; reflexivity.
  - intros h j Hj.
    destruct (Hcases h j Hj) as [[-> [-> | ->]] | [-> ->]]; simpl; lia.
  - intros h j Hj.
    destruct (Hcases h j Hj) as [[-> [-> | ->]] | [-> ->]]; simpl;
      intros Hst; try discriminate; lia.
  - intros tid. simpl. unfold stackTypes.
    destruct (tid =? 30); simpl; [lia | discriminate].
Qed.



(** ** The decay scheduler *)

Section DecayFacts.

Context {K : Constants} {E : Externals}.

Variable i : ItemId.
Hypothesis Hinterval : 0 < EVENT_DECAYINTERVAL.
Hypothesis Hbuckets : 0 < EVENT_DECAY_BUCKETS.
Hypothesis Hrotation : decayRotation < 2 ^ 31.
Hypothesis Hdecays : forall w, canDecay w i = true.

Lemma untouched_refl (w : World) : untouched i w w.
Proof. repeat split; auto. Qed.

Lemma untouched_trans (a b c : World) :
  untouched i a b -> untouched i b c -> untouched i a c.
Proof.
  intros [H1 [H2 [H3 [H4 H5]]]] [G1 [G2 [G3 [G4 G5]]]].
  repeat split; try congruence; try tauto.
  all: intros x; rewrite G5; apply H5.
Qed.

Lemma occurrences_app (l1 l2 : list ItemId) :
  occurrences i (l1 ++ l2) = (occurrences i l1 + occurrences i l2)%nat.
Proof. apply count_occ_app. Qed.

Lemma occurrences_cons_other (j : ItemId) (l : list ItemId) :
  j <> i -> occurrences i (j :: l) = occurrences i l.
Proof. intros Hne. apply count_occ_cons_neq. exact Hne. Qed.

Lemma occurrences_cons_same (l : list ItemId) :
  occurrences i (i :: l) = S (occurrences i l).
Proof. apply count_occ_cons_eq. reflexivity. Qed.

Lemma checkDecayItem_other (bucket : Z) (before after : list ItemId) (w : World)
      (j : ItemId) :
  j <> i ->
  decayItems w bucket = before ++ j :: after ->
  let '(stays, w') := checkDecayItem bucket before after w j in
  untouched i w w'
  /\ decayItems w' bucket = (if stays then before ++ [j] else before) ++ after.
Proof.
  intros Hne Hbucket.
  assert (Herase : forall b, occurrences i (updZ (decayItems w) bucket (before ++ after) b)
                             = occurrences i (decayItems w b)).
  { intros b. unfold updZ. destruct (b =? bucket) eqn:Hb; [| reflexivity].
    apply Z.eqb_eq in Hb. subst b. rewrite Hbucket, !occurrences_app.
    rewrite occurrences_cons_other by exact Hne. reflexivity. }
  assert (Hlog : In i (decayed w ++ [j]) <-> In i (decayed w)).
  { rewrite in_app_iff. simpl. intuition congruence. }
  unfold checkDecayItem.
  destruct (negb (canDecay w j)).
  - split; [| simpl; unfold updZ; rewrite Z.eqb_refl; reflexivity].
    unfold untouched. simpl. rewrite upd_other by congruence.
    split; [reflexivity |]. split; [reflexivity |]. split; [reflexivity |].
    split; [tauto | exact Herase].
  - match goal with
    | |- context [if ?x <=? 0 then _ else _] => destruct (x <=? 0)
    end.
    + split; [| simpl; unfold updZ; rewrite Z.eqb_refl; reflexivity].
      unfold untouched. simpl. rewrite upd_other by congruence.
      split; [reflexivity |]. split; [reflexivity |]. split; [reflexivity |].
      split; [exact Hlog | exact Herase].
    + match goal with
      | |- context [if ?x <? decayRotation then _ else _] =>
          destruct (x <? decayRotation)
      end.
      * match goal with
        | |- context [if ?x =? bucket then _ else _] =>
            destruct (x =? bucket) eqn:Hnew
        end.
        -- split; [| simpl; unfold updZ; rewrite Z.eqb_refl; reflexivity].
           unfold untouched. simpl. rewrite upd_other by congruence.
           split; [reflexivity |]. split; [reflexivity |]. split; [reflexivity |].
           split; [exact Hlog | exact Herase].
        -- split.
           ++ unfold untouched. simpl. rewrite upd_other by congruence.
              split; [reflexivity |]. split; [reflexivity |].
              split; [reflexivity |]. split; [tauto |].
              intros b. unfold updZ at 1.
              match goal with
              | |- context [if b =? ?x then _ else _] => destruct (b =? x) eqn:Hb
              end; [| apply Herase].
              rewrite occurrences_app.
              rewrite (occurrences_cons_other j [] Hne).
              change (occurrences i []) with 0%nat. rewrite Nat.add_0_r.
              apply Z.eqb_eq in Hb. rewrite <- Hb. apply Herase.
           ++ simpl. unfold updZ at 1. rewrite Z.eqb_sym, Hnew.
              unfold updZ. rewrite Z.eqb_refl. reflexivity.
      * split; [| simpl; rewrite <- app_assoc; exact Hbucket].
        unfold untouched. simpl. rewrite upd_other by congruence.
        split; [reflexivity |]. split; [reflexivity |]. split; [reflexivity |].
        split; [tauto | reflexivity].
Qed.


Lemma checkDecayLoop_others (bucket : Z) (rest : list ItemId) :
  forall (before : list ItemId) (w : World),
    ~ In i rest ->
    decayItems w bucket = before ++ rest ->
    untouched i w (checkDecayLoop bucket before rest w).
Proof.
  induction rest as [| j after IH]; intros before w Hnotin Hbucket; simpl.
  - apply untouched_refl.
  - assert (Hne : j <> i) by (intros ->; apply Hnotin; left; reflexivity).
    pose proof (checkDecayItem_other bucket before after w j Hne Hbucket) as Hstep.
    destruct (checkDecayItem bucket before after w j) as [stays w'].
    destruct Hstep as [Hsame Hbucket'].
    eapply untouched_trans; [exact Hsame |].
    apply IH; [| exact Hbucket'].
    intros Hin. apply Hnotin. right. exact Hin.
Qed.

(** The loop up to the item: the items before it do not touch it. *)
Lemma checkDecayLoop_prefix (bucket : Z) (l1 l2 : list ItemId) :
  forall (before : list ItemId) (w : World),
    ~ In i l1 ->
    decayItems w bucket = before ++ l1 ++ l2 ->
    exists (before1 : list ItemId) (w1 : World),
      untouched i w w1
      /\ decayItems w1 bucket = before1 ++ l2
      /\ occurrences i before1 = occurrences i before
      /\ checkDecayLoop bucket before (l1 ++ l2) w
         = checkDecayLoop bucket before1 l2 w1.
Proof.
  induction l1 as [| j l1 IH]; intros before w Hnotin Hbucket; simpl.
  - exists before, w. split; [apply untouched_refl |]. auto.
  - assert (Hne : j <> i) by (intros ->; apply Hnotin; left; reflexivity).
    pose proof (checkDecayItem_other bucket before (l1 ++ l2) w j Hne Hbucket)
      as Hstep.
    destruct (checkDecayItem bucket before (l1 ++ l2) w j) as [stays w'].
    destruct Hstep as [Hsame Hbucket'].
    destruct (IH (if stays then before ++ [j] else before) w')
      as [before1 [w1 [Hsame1 [Hbucket1 [Hocc Hloop]]]]].
    + intros Hin. apply Hnotin. right. exact Hin.
    + exact Hbucket'.
    + exists before1, w1. split; [eapply untouched_trans; eassumption |].
      split; [exact Hbucket1 |]. split; [| exact Hloop].
      rewrite Hocc. destruct stays; [| reflexivity].
      rewrite occurrences_app, (occurrences_cons_other j [] Hne).
      change (occurrences i []) with 0%nat. lia.
Qed.

Lemma decrement_fold (l : list ItemId) :
  forall w : World,
    let w' := fold_left decrementReferenceCounter l w in
    (forall j, duration (items w' j) = duration (items w j))
    /\ decayItems w' = decayItems w /\ toDecayItems w' = toDecayItems w
    /\ lastBucket w' = lastBucket w /\ decayed w' = decayed w.
Proof.
  induction l as [| a l IH]; intros w; simpl.
  - repeat split.
  - destruct (IH (decrementReferenceCounter w a)) as [H1 [H2 [H3 [H4 H5]]]].
    split; [| repeat split; assumption].
    intros j. rewrite H1. simpl.
    destruct (Nat.eq_dec j a) as [-> | Hne];
      [rewrite upd_same | rewrite upd_other by exact Hne]; reflexivity.
Qed.

Lemma distribute_fold (l : list ItemId) :
  forall w : World,
    let w' := fold_left distributeDecay l w in
    (forall j, duration (items w' j) = duration (items w j))
    /\ toDecayItems w' = toDecayItems w
    /\ lastBucket w' = lastBucket w /\ decayed w' = decayed w
    /\ forall b, occurrences i (decayItems w' b)
                 = (occurrences i (decayItems w b)
                    + if (b =? firstBucket (lastBucket w) (duration (items w i)))%Z
                      then occurrences i l else 0)%nat.
Proof.
  induction l as [| a l IH]; intros w; cbv zeta; cbn [fold_left].
  - repeat split. intros b. change (occurrences i []) with 0%nat.
    destruct (b =? _); lia.
  - destruct (IH (distributeDecay w a)) as [H1 [H2 [H3 [H4 H5]]]].
    assert (Hfields : (forall j, duration (items (distributeDecay w a) j)
                                 = duration (items w j))
                      /\ toDecayItems (distributeDecay w a) = toDecayItems w
                      /\ lastBucket (distributeDecay w a) = lastBucket w
                      /\ decayed (distributeDecay w a) = decayed w).
    { unfold distributeDecay. destruct (_ <=? _); repeat split. }
    destruct Hfields as [F1 [F2 [F3 F4]]].
    split; [intros j; rewrite H1; apply F1 |].
    split; [congruence |]. split; [congruence |]. split; [congruence |].
    intros b. rewrite H5, F3, F1.
    assert (Hpush : occurrences i (decayItems (distributeDecay w a) b)
                    = (occurrences i (decayItems w b)
                       + if Nat.eq_dec a i
                         then (if (b =? firstBucket (lastBucket w)
                                                    (duration (items w i)))%Z
                               then 1 else 0)
                         else 0)%nat).
    { unfold distributeDecay, firstBucket.
      destruct (Nat.eq_dec a i) as [-> | Hne].
      - destruct (decayRotation <=? to_uint32 (duration (items w i))); simpl;
          unfold updZ;
          match goal with
          | |- context [if b =? ?x then _ else _] => destruct (b =? x) eqn:Hb
          end; try lia;
          apply Z.eqb_eq in Hb; subst b;
          rewrite occurrences_app, occurrences_cons_same;
          change (occurrences i []) with 0%nat; lia.
      - destruct (decayRotation <=? to_uint32 (duration (items w a))); simpl;
          unfold updZ;
          match goal with
          | |- context [if b =? ?x then _ else _] => destruct (b =? x) eqn:Hb
          end; try lia;
          apply Z.eqb_eq in Hb; subst b;
          rewrite occurrences_app, (occurrences_cons_other a [] Hne);
          change (occurrences i []) with 0%nat; lia. }
    rewrite Hpush.
    destruct (Nat.eq_dec a i) as [-> | Hne].
    + rewrite occurrences_cons_same. destruct (b =? _); lia.
    + rewrite (occurrences_cons_other a l Hne). destruct (b =? _); lia.
Qed.

Lemma occurrences_zero (l : list ItemId) : ~ In i l <-> occurrences i l = 0%nat.
Proof. apply count_occ_not_In. Qed.

(** [cleanup] puts the item into its first bucket as often as it is in
    the list of the items to distribute. *)
Lemma cleanup_distributes (w : World) :
  duration (items (cleanup w) i) = duration (items w i)
  /\ toDecayItems (cleanup w) = []
  /\ lastBucket (cleanup w) = lastBucket w
  /\ decayed (cleanup w) = decayed w
  /\ forall b, occurrences i (decayItems (cleanup w) b)
               = (occurrences i (decayItems w b)
                  + if (b =? firstBucket (lastBucket w) (duration (items w i)))%Z
                    then occurrences i (toDecayItems w) else 0)%nat.
Proof.
  destruct (decrement_fold (ToReleaseItems w) w) as [D1 [D2 [D3 [D4 D5]]]].
  remember (withToReleaseItems (fold_left decrementReferenceCounter
                                          (ToReleaseItems w) w) []) as w1 eqn:Hw1.
  assert (W1 : (forall j, duration (items w1 j) = duration (items w j))
               /\ decayItems w1 = decayItems w /\ toDecayItems w1 = toDecayItems w
               /\ lastBucket w1 = lastBucket w /\ decayed w1 = decayed w).
  { subst w1. unfold withToReleaseItems.
    cbn [items decayItems toDecayItems lastBucket decayed]. tauto. }
  destruct W1 as [W1 [W2 [W3 [W4 W5]]]].
  destruct (distribute_fold (toDecayItems w1) w1) as [H1 [H2 [H3 [H4 H5]]]].
  assert (Hclean : cleanup w
                   = withToDecayItems (fold_left distributeDecay (toDecayItems w1) w1)
                                      []).
  { subst w1. reflexivity. }
  rewrite Hclean. unfold withToDecayItems.
  cbn [items decayItems toDecayItems lastBucket decayed].
  split; [rewrite H1; apply W1 |]. split; [reflexivity |].
  split; [rewrite H3; exact W4 |]. split; [rewrite H4; exact W5 |].
  intros b. rewrite H5, W1, W2, W3, W4. reflexivity.
Qed.

Lemma cleanup_untouched (w : World) :
  ~ In i (toDecayItems w) ->
  duration (items (cleanup w) i) = duration (items w i)
  /\ toDecayItems (cleanup w) = []
  /\ lastBucket (cleanup w) = lastBucket w
  /\ decayed (cleanup w) = decayed w
  /\ forall b, occurrences i (decayItems (cleanup w) b)
               = occurrences i (decayItems w b).
Proof.
  intros Hnotin.
  destruct (cleanup_distributes w) as [C1 [C2 [C3 [C4 C5]]]].
  repeat (split; [assumption |]).
  intros b. rewrite C5. apply occurrences_zero in Hnotin. rewrite Hnotin.
  destruct (b =? _); lia.
Qed.

Lemma mod_shift_neq (a o : Z) :
  0 < o < EVENT_DECAY_BUCKETS ->
  (a + o) mod EVENT_DECAY_BUCKETS <> a mod EVENT_DECAY_BUCKETS.
Proof.
  intros Ho Heq.
  assert (Hz : (a + o - a) mod EVENT_DECAY_BUCKETS = 0).
  { rewrite Zminus_mod, Heq, Z.sub_diag. apply Z.mod_0_l. lia. }
  replace (a + o - a) with o in Hz by lia.
  rewrite Z.mod_small in Hz by lia. lia.
Qed.

Lemma next_bucket (w : World) :
  0 <= lastBucket w ->
  Z.rem (lastBucket w + 1) EVENT_DECAY_BUCKETS
  = (lastBucket w + 1) mod EVENT_DECAY_BUCKETS.
Proof. intros Hl. apply Z.rem_mod_nonneg; lia. Qed.

Lemma occurrences_one (l : list ItemId) :
  occurrences i l = 1%nat ->
  exists l1 l2, l = l1 ++ i :: l2 /\ ~ In i l1 /\ ~ In i l2.
Proof.
  induction l as [| a l IH]; intros Hocc.
  - discriminate.
  - destruct (Nat.eq_dec a i) as [-> | Hne].
    + rewrite occurrences_cons_same in Hocc.
      exists [], l. split; [reflexivity |]. split; [intros [] |].
      apply occurrences_zero. lia.
    + rewrite (occurrences_cons_other a l Hne) in Hocc.
      destruct (IH Hocc) as [l1 [l2 [-> [H1 H2]]]].
      exists (a :: l1), l2. split; [reflexivity |]. split; [| exact H2].
      intros [Heq | Hin]; [congruence | contradiction].
Qed.

(** A turn of the scheduler on a bucket that the item is not in. *)
Lemma tick_wait (w : World) (k dur : Z) :
  waiting i w k dur -> 2 <= k <= EVENT_DECAY_BUCKETS ->
  waiting i (checkDecay w) (k - 1) dur.
Proof.
  intros [Hlast [Hdur [Hpending [Hlog Hocc]]]] Hk.
  unfold checkDecay. rewrite next_bucket by lia.
  set (bucket := (lastBucket w + 1) mod EVENT_DECAY_BUCKETS).
  assert (Hbucket : 0 <= bucket < EVENT_DECAY_BUCKETS)
    by (apply Z.mod_pos_bound; lia).
  assert (Hposition : (bucket + (k - 1)) mod EVENT_DECAY_BUCKETS
                      = (lastBucket w + k) mod EVENT_DECAY_BUCKETS).
  { unfold bucket. rewrite Zplus_mod_idemp_l. f_equal. lia. }
  assert (Hnotin : ~ In i (decayItems w bucket)).
  { apply occurrences_zero. rewrite Hocc.
    destruct (bucket =? _) eqn:Heq; [| reflexivity].
    apply Z.eqb_eq in Heq. exfalso.
    replace (lastBucket w + k) with (lastBucket w + 1 + (k - 1)) in Heq by lia.
    symmetry in Heq. revert Heq. apply mod_shift_neq. lia. }
  pose proof (checkDecayLoop_others bucket (decayItems w bucket) [] w Hnotin
                                    eq_refl) as [L1 [L2 [L3 [L4 L5]]]].
  set (w1 := checkDecayLoop bucket [] (decayItems w bucket) w) in *.
  destruct (cleanup_untouched (withLastBucket w1 bucket))
    as [C1 [C2 [C3 [C4 C5]]]].
  { change (toDecayItems (withLastBucket w1 bucket)) with (toDecayItems w1).
    rewrite L2. exact Hpending. }
  change (items (withLastBucket w1 bucket)) with (items w1) in C1.
  change (lastBucket (withLastBucket w1 bucket)) with bucket in C3.
  change (decayed (withLastBucket w1 bucket)) with (decayed w1) in C4.
  change (decayItems (withLastBucket w1 bucket)) with (decayItems w1) in C5.
  unfold waiting. rewrite C1, C2, C3, C4, L1.
  split; [exact Hbucket |]. split; [exact Hdur |]. split; [intros [] |].
  split; [tauto |].
  intros b. rewrite C5, L5, Hocc, Hposition. reflexivity.
Qed.


Lemma int32_duration (dur : Z) : 0 < dur < 2 ^ 31 -> to_int32 dur = dur.
Proof.
  intros Hd. unfold to_int32. rewrite Z.mod_small by lia.
  destruct (dur <? 2 ^ 31) eqn:Hlt; [reflexivity | apply Z.ltb_ge in Hlt; lia].
Qed.

Lemma newBucket_mod (bucket rest : Z) :
  0 <= bucket < EVENT_DECAY_BUCKETS -> 0 < rest ->
  Z.rem (bucket + Z.quot (rest + Z.quot EVENT_DECAYINTERVAL 2) 1000)
        EVENT_DECAY_BUCKETS
  = (bucket + bucketsAhead rest) mod EVENT_DECAY_BUCKETS.
Proof.
  intros Hb Hr. unfold bucketsAhead.
  rewrite (Z.quot_div_nonneg EVENT_DECAYINTERVAL 2) by lia.
  assert (Hhalf : 0 <= EVENT_DECAYINTERVAL / 2) by (apply Z.div_pos; lia).
  rewrite Z.quot_div_nonneg by lia.
  assert (Hq : 0 <= (rest + EVENT_DECAYINTERVAL / 2) / 1000)
    by (apply Z.div_pos; lia).
  rewrite Z.rem_mod_nonneg by lia.
  rewrite Zplus_mod_idemp_r. reflexivity.
Qed.

Lemma newBucket_same (bucket rest : Z) :
  0 <= bucket < EVENT_DECAY_BUCKETS ->
  ((bucket + bucketsAhead rest) mod EVENT_DECAY_BUCKETS =? bucket)
  = (bucketsAhead rest =? 0).
Proof.
  intros Hb.
  assert (Ho : 0 <= bucketsAhead rest < EVENT_DECAY_BUCKETS)
    by (apply Z.mod_pos_bound; lia).
  destruct (bucketsAhead rest =? 0) eqn:Hz.
  - apply Z.eqb_eq in Hz. rewrite Hz, Z.add_0_r, Z.mod_small by lia.
    apply Z.eqb_refl.
  - apply Z.eqb_neq in Hz. apply Z.eqb_neq. intros Heq.
    rewrite <- (Z.mod_small bucket EVENT_DECAY_BUCKETS) in Heq at 2 by lia.
    revert Heq. apply mod_shift_neq. lia.
Qed.

(** The turn of the loop on the item itself. *)
Lemma checkDecayItem_self (bucket : Z) (before after : list ItemId) (w : World)
      (dur : Z) :
  decayItems w bucket = before ++ i :: after ->
  occurrences i before = 0%nat -> ~ In i after ->
  0 <= bucket < EVENT_DECAY_BUCKETS ->
  duration (items w i) = dur -> 0 < dur < 2 ^ 31 ->
  ~ In i (decayed w) ->
  (forall b, b <> bucket -> occurrences i (decayItems w b) = 0%nat) ->
  let rest := dur - Z.min decayRotation dur in
  let '(stays, w') := checkDecayItem bucket before after w i in
  toDecayItems w' = toDecayItems w
  /\ lastBucket w' = lastBucket w
  /\ decayItems w' bucket = (if stays then before ++ [i] else before) ++ after
  /\ if (rest <=? 0) || ((rest <? decayRotation) && (bucketsAhead rest =? 0))
     then In i (decayed w')
     else ~ In i (decayed w')
          /\ duration (items w' i) = rest
          /\ forall b, occurrences i (decayItems w' b)
                       = if b =? (bucket + (if rest <? decayRotation
                                            then bucketsAhead rest
                                            else EVENT_DECAY_BUCKETS))
                                 mod EVENT_DECAY_BUCKETS
                         then 1%nat else 0%nat.
Proof.
  intros Hbucket Hbefore Hafter Hb Hdur Hrange Hlog Hothers rest.
  apply occurrences_zero in Hafter.
  unfold checkDecayItem. rewrite Hdecays. cbn [negb].
  rewrite Hdur, (int32_duration dur Hrange). fold rest.
  destruct (rest <=? 0) eqn:Hzero; cbn [orb].
  - cbn. unfold updZ. rewrite Z.eqb_refl.
    repeat split. apply in_or_app. right. left. reflexivity.
  - apply Z.leb_gt in Hzero.
    destruct (rest <? decayRotation) eqn:Hsmall; cbn [andb].
    + rewrite newBucket_mod by assumption.
      rewrite newBucket_same by assumption.
      destruct (bucketsAhead rest =? 0) eqn:Hahead.
      * cbn. unfold updZ. rewrite Z.eqb_refl.
        repeat split. apply in_or_app. right. left. reflexivity.
      * assert (Hne : ((bucket + bucketsAhead rest) mod EVENT_DECAY_BUCKETS
                       =? bucket) = false)
          by (rewrite newBucket_same by assumption; exact Hahead).
        cbn. split; [reflexivity |]. split; [reflexivity |].
        split.
        { unfold updZ at 1. rewrite Z.eqb_sym, Hne.
          unfold updZ. rewrite Z.eqb_refl. reflexivity. }
        split; [exact Hlog |].
        split; [rewrite upd_same; cbn; rewrite Hdur; reflexivity |].
        intros b. unfold updZ at 1.
        destruct (b =? (bucket + bucketsAhead rest) mod EVENT_DECAY_BUCKETS)
          eqn:Hbb.
        -- unfold updZ. rewrite Hne.
           rewrite occurrences_app, occurrences_cons_same.
           change (occurrences i []) with 0%nat.
           rewrite Hothers; [reflexivity |].
           intros Heq. rewrite Heq, Z.eqb_refl in Hne. discriminate.
        -- unfold updZ. destruct (b =? bucket) eqn:Hbk.
           ++ rewrite occurrences_app. lia.
           ++ apply Hothers. apply Z.eqb_neq. exact Hbk.
    + cbn. split; [reflexivity |]. split; [reflexivity |].
      split; [rewrite <- app_assoc; exact Hbucket |].
      split; [exact Hlog |].
        split; [rewrite upd_same; cbn; rewrite Hdur; reflexivity |].
      intros b.
      replace (bucket + EVENT_DECAY_BUCKETS)
        with (bucket + 1 * EVENT_DECAY_BUCKETS) by lia.
      rewrite Z_mod_plus_full, Z.mod_small by exact Hb.
      destruct (b =? bucket) eqn:Hbk.
      * apply Z.eqb_eq in Hbk. subst b.
        rewrite Hbucket, occurrences_app, occurrences_cons_same. lia.
      * apply Hothers. apply Z.eqb_neq. exact Hbk.
Qed.


(** A turn of the scheduler on the bucket that the item is in. *)
Lemma tick_fire (w : World) (dur : Z) :
  waiting i w 1 dur -> 0 < dur < 2 ^ 31 ->
  let rest := dur - Z.min decayRotation dur in
  if (rest <=? 0) || ((rest <? decayRotation) && (bucketsAhead rest =? 0))
  then In i (decayed (checkDecay w))
  else waiting i (checkDecay w)
               (if rest <? decayRotation then bucketsAhead rest
                else EVENT_DECAY_BUCKETS) rest.
Proof.
  intros [Hlast [Hdur [Hpending [Hlog Hocc]]]] Hrange rest.
  unfold checkDecay. rewrite next_bucket by lia.
  set (bucket := (lastBucket w + 1) mod EVENT_DECAY_BUCKETS).
  assert (Hbucket : 0 <= bucket < EVENT_DECAY_BUCKETS)
    by (apply Z.mod_pos_bound; lia).
  assert (Hone : occurrences i (decayItems w bucket) = 1%nat).
  { rewrite Hocc. unfold bucket. rewrite Z.eqb_refl. reflexivity. }
  assert (Hzero : forall b, b <> bucket -> occurrences i (decayItems w b) = 0%nat).
  { intros b Hne. rewrite Hocc. fold bucket.
    destruct (b =? bucket) eqn:Hb; [| reflexivity].
    apply Z.eqb_eq in Hb. contradiction. }
  destruct (occurrences_one _ Hone) as [l1 [l2 [Hsplit [Hl1 Hl2]]]].
  destruct (checkDecayLoop_prefix bucket l1 (i :: l2) [] w Hl1 Hsplit)
    as [before1 [w1 [[U1 [U2 [U3 [U4 U5]]]] [Hbucket1 [Hbefore1 Hloop]]]]].
  rewrite Hsplit, Hloop. cbn [checkDecayLoop].
  pose proof (checkDecayItem_self bucket before1 l2 w1 dur Hbucket1 Hbefore1
                Hl2 Hbucket ltac:(congruence) Hrange ltac:(tauto)
                ltac:(intros b Hne; rewrite U5; apply Hzero; exact Hne))
    as Hself.
  fold rest in Hself.
  destruct (checkDecayItem bucket before1 l2 w1 i) as [stays w2].
  destruct Hself as [S1 [S2 [S3 S4]]].
  pose proof (checkDecayLoop_others bucket l2
                (if stays then before1 ++ [i] else before1) w2 Hl2 S3)
    as [V1 [V2 [V3 [V4 V5]]]].
  set (w3 := checkDecayLoop bucket (if stays then before1 ++ [i] else before1)
                            l2 w2) in *.
  destruct (cleanup_untouched (withLastBucket w3 bucket))
    as [C1 [C2 [C3 [C4 C5]]]].
  { change (toDecayItems (withLastBucket w3 bucket)) with (toDecayItems w3).
    rewrite V2, S1, U2. exact Hpending. }
  change (items (withLastBucket w3 bucket)) with (items w3) in C1.
  change (lastBucket (withLastBucket w3 bucket)) with bucket in C3.
  change (decayed (withLastBucket w3 bucket)) with (decayed w3) in C4.
  change (decayItems (withLastBucket w3 bucket)) with (decayItems w3) in C5.
  destruct ((rest <=? 0) || ((rest <? decayRotation) && (bucketsAhead rest =? 0))).
  - rewrite C4. apply V4. exact S4.
  - destruct S4 as [T1 [T2 T3]].
    unfold waiting. rewrite C1, C2, C3, C4, V1.
    split; [exact Hbucket |]. split; [exact T2 |]. split; [intros [] |].
    split; [tauto |].
    intros b. rewrite C5, V5, T3. reflexivity.
Qed.


Lemma decaysAt_later (w : World) (n : nat) :
  ~ In i (decayed w) -> decaysAt i (checkDecay w) n -> decaysAt i w (S n).
Proof.
  intros Hlog [Hbefore Hat]. split; [| exact Hat].
  intros [| m] Hm; [exact Hlog |]. apply Hbefore. lia.
Qed.

Lemma countdown (k : nat) :
  forall (w : World) (dur : Z) (n : nat),
    waiting i w (Z.of_nat (S k)) dur ->
    Z.of_nat (S k) <= EVENT_DECAY_BUCKETS ->
    (forall w', waiting i w' 1 dur -> decaysAt i w' n) ->
    decaysAt i w (k + n).
Proof.
  induction k as [| k IH]; intros w dur n Hwait Hk Hfire.
  - apply Hfire. exact Hwait.
  - cbn [Nat.add]. apply decaysAt_later; [apply Hwait |].
    apply (IH (checkDecay w) dur n); [| lia | exact Hfire].
    replace (Z.of_nat (S k)) with (Z.of_nat (S (S k)) - 1) by lia.
    apply tick_wait; [exact Hwait | lia].
Qed.

Lemma fires_now (w : World) (dur : Z) :
  waiting i w 1 dur -> In i (decayed (checkDecay w)) -> decaysAt i w 1.
Proof.
  intros Hwait Hin. split; [| exact Hin].
  intros m Hm. assert (m = 0%nat) by lia. subst m. apply Hwait.
Qed.

(** An item with at most one rotation left decays when its bucket has its
    turn. *)
Lemma decays_within_rotation (w : World) (k dur : Z) :
  waiting i w k dur -> 1 <= k <= EVENT_DECAY_BUCKETS ->
  0 < dur <= decayRotation ->
  decaysAt i w (Z.to_nat k).
Proof.
  intros Hwait Hk Hdur.
  replace (Z.to_nat k) with (Z.to_nat (k - 1) + 1)%nat by lia.
  apply (countdown (Z.to_nat (k - 1)) w dur 1).
  - replace (Z.of_nat (S (Z.to_nat (k - 1)))) with k by lia. exact Hwait.
  - lia.
  - intros w' Hwait'. apply (fires_now w' dur Hwait').
    pose proof (tick_fire w' dur Hwait' ltac:(lia)) as Hfire.
    cbv zeta in Hfire.
    replace (dur - Z.min decayRotation dur) with 0 in Hfire by lia.
    exact Hfire.
Qed.

Lemma rotation_positive : 0 < decayRotation.
Proof. unfold decayRotation. lia. Qed.

Lemma bucketsAhead_range (rest : Z) :
  0 <= bucketsAhead rest < EVENT_DECAY_BUCKETS.
Proof. apply Z.mod_pos_bound. lia. Qed.

(** An item with one rotation or more left. *)
Lemma decays_after_rotations (q : nat) :
  forall (w : World) (dur : Z),
    waiting i w EVENT_DECAY_BUCKETS dur ->
    dur / decayRotation = Z.of_nat (S q) -> dur < 2 ^ 31 ->
    decaysAt i w (Z.to_nat (decayTicks dur)).
Proof.
  pose proof rotation_positive as HR.
  assert (Hnz : decayRotation <> 0) by lia.
  induction q as [| q IH]; intros w dur Hwait Hq Hrange.
  - assert (Hdur : decayRotation <= dur < 2 * decayRotation).
    { pose proof (Z.div_mod dur decayRotation Hnz) as Hdm.
      pose proof (Z.mod_pos_bound dur decayRotation HR). rewrite Hq in Hdm. lia. }
    assert (Hmod : dur mod decayRotation = dur - decayRotation).
    { pose proof (Z.div_mod dur decayRotation Hnz) as Hdm.
      rewrite Hq in Hdm. lia. }
    unfold decayTicks. rewrite Hq, Hmod.
    destruct (dur <? decayRotation) eqn:Hlt; [apply Z.ltb_lt in Hlt; lia |].
    set (rest := dur - decayRotation).
    pose proof (bucketsAhead_range rest) as Hahead.
    assert (Hstep : forall w', waiting i w' 1 dur ->
              decaysAt i w' (1 + Z.to_nat (if rest =? 0 then 0
                                         else bucketsAhead rest))).
    { intros w' Hwait'.
      pose proof (tick_fire w' dur Hwait' ltac:(lia)) as Hfire.
      cbv zeta in Hfire.
      replace (dur - Z.min decayRotation dur) with rest in Hfire
        by (unfold rest; lia).
      destruct (rest =? 0) eqn:Hz.
      - apply Z.eqb_eq in Hz. rewrite Hz in Hfire. cbn in Hfire.
        exact (fires_now w' dur Hwait' Hfire).
      - apply Z.eqb_neq in Hz.
        assert (Hpos : (rest <=? 0) = false) by (apply Z.leb_gt; unfold rest in *; lia).
        assert (Hsmall : (rest <? decayRotation) = true)
          by (apply Z.ltb_lt; unfold rest; lia).
        rewrite Hpos, Hsmall in Hfire. cbn [orb andb] in Hfire.
        destruct (bucketsAhead rest =? 0) eqn:Ha.
        + apply Z.eqb_eq in Ha. rewrite Ha.
          exact (fires_now w' dur Hwait' Hfire).
        + apply Z.eqb_neq in Ha.
          apply decaysAt_later; [apply Hwait' |].
          apply (decays_within_rotation _ _ rest Hfire); unfold rest in *; lia. }
    set (extra := if rest =? 0 then 0 else bucketsAhead rest) in *.
    assert (Hextra : 0 <= extra) by (unfold extra; destruct (rest =? 0); lia).
    replace (Z.to_nat (EVENT_DECAY_BUCKETS * Z.of_nat 1 + extra))
      with (Z.to_nat (EVENT_DECAY_BUCKETS - 1) + (1 + Z.to_nat extra))%nat
      by lia.
    apply (countdown (Z.to_nat (EVENT_DECAY_BUCKETS - 1)) w dur).
    + replace (Z.of_nat (S (Z.to_nat (EVENT_DECAY_BUCKETS - 1))))
        with EVENT_DECAY_BUCKETS by lia.
      exact Hwait.
    + lia.
    + exact Hstep.
  - set (rest := dur - decayRotation).
    assert (Hdm : dur = decayRotation * Z.of_nat (S (S q)) + dur mod decayRotation).
    { pose proof (Z.div_mod dur decayRotation Hnz) as Hdm.
      rewrite Hq in Hdm. exact Hdm. }
    pose proof (Z.mod_pos_bound dur decayRotation HR) as Hmb.
    assert (Hrest : rest = dur mod decayRotation + Z.of_nat (S q) * decayRotation)
      by (unfold rest; lia).
    assert (Hrq : rest / decayRotation = Z.of_nat (S q)).
    { rewrite Hrest, Z.div_add by lia. rewrite Z.div_small by lia. lia. }
    assert (Hrm : rest mod decayRotation = dur mod decayRotation).
    { rewrite Hrest, Z.mod_add by lia. apply Z.mod_small. lia. }
    assert (Hbig : decayRotation <= rest) by (rewrite Hrest; nia).
    assert (Hticks : decayTicks dur = EVENT_DECAY_BUCKETS + decayTicks rest).
    { unfold decayTicks. rewrite Hq, Hrq, Hrm.
      destruct (dur <? decayRotation) eqn:H1; [apply Z.ltb_lt in H1; lia |].
      destruct (rest <? decayRotation) eqn:H2; [apply Z.ltb_lt in H2; lia |].
      lia. }
    assert (Hnonneg : 0 <= decayTicks rest).
    { unfold decayTicks. rewrite Hrq.
      destruct (rest <? decayRotation) eqn:H2; [apply Z.ltb_lt in H2; lia |].
      pose proof (bucketsAhead_range (rest mod decayRotation)).
      destruct (rest mod decayRotation =? 0); nia. }
    rewrite Hticks.
    replace (Z.to_nat (EVENT_DECAY_BUCKETS + decayTicks rest))
      with (Z.to_nat (EVENT_DECAY_BUCKETS - 1) + (1 + Z.to_nat (decayTicks rest)))%nat
      by lia.
    apply (countdown (Z.to_nat (EVENT_DECAY_BUCKETS - 1)) w dur).
    + replace (Z.of_nat (S (Z.to_nat (EVENT_DECAY_BUCKETS - 1))))
        with EVENT_DECAY_BUCKETS by lia.
      exact Hwait.
    + lia.
    + intros w' Hwait'.
      pose proof (tick_fire w' dur Hwait' ltac:(lia)) as Hfire.
      cbv zeta in Hfire.
      replace (dur - Z.min decayRotation dur) with rest in Hfire
        by (unfold rest; lia).
      assert (Hpos : (rest <=? 0) = false) by (apply Z.leb_gt; lia).
      assert (Hsmall : (rest <? decayRotation) = false) by (apply Z.ltb_ge; lia).
      rewrite Hpos, Hsmall in Hfire. cbn [orb andb] in Hfire.
      apply decaysAt_later; [apply Hwait' |].
      apply IH; [exact Hfire | exact Hrq | unfold rest; lia].
Qed.


Lemma cleanup_enrols (w : World) (d : Z) :
  0 <= lastBucket w < EVENT_DECAY_BUCKETS ->
  duration (items w i) = d -> 0 < d < 2 ^ 31 ->
  occurrences i (toDecayItems w) = 1%nat ->
  (forall b, ~ In i (decayItems w b)) ->
  ~ In i (decayed w) ->
  waiting i (cleanup w) (firstTurn d) d.
Proof.
  intros Hlast Hdur Hrange Hpending Hnew Hlog.
  destruct (cleanup_distributes w) as [C1 [C2 [C3 [C4 C5]]]].
  unfold waiting. rewrite C1, C2, C3, C4.
  split; [exact Hlast |]. split; [exact Hdur |]. split; [intros [] |].
  split; [exact Hlog |].
  intros b. rewrite C5, Hpending, Hdur.
  pose proof (proj1 (occurrences_zero _) (Hnew b)) as Hz. rewrite Hz.
  assert (Hfirst : firstBucket (lastBucket w) d
                   = (lastBucket w + firstTurn d) mod EVENT_DECAY_BUCKETS).
  { unfold firstBucket, firstTurn, to_uint32.
    rewrite Z.mod_small by (change (2 ^ 32) with (2 * 2 ^ 31); lia).
    destruct (decayRotation <=? d).
    - replace (lastBucket w + EVENT_DECAY_BUCKETS)
        with (lastBucket w + 1 * EVENT_DECAY_BUCKETS) by lia.
      rewrite Z_mod_plus_full, Z.mod_small by lia. reflexivity.
    - rewrite Z.quot_div_nonneg by lia.
      assert (0 <= d / 1000) by (apply Z.div_pos; lia).
      rewrite Z.rem_mod_nonneg by lia.
      rewrite Z.add_assoc, Zplus_mod_idemp_r. reflexivity. }
  rewrite Hfirst. destruct (b =? _); reflexivity.
Qed.

(** C5, as amended: the scheduler has a positive tick interval and a
    positive number of buckets, one rotation fits a signed 32-bit
    integer, and the item can decay.  An item that [cleanup] distributes
    with [d] milliseconds left is handed to [internalDecayItem] at turn
    [decayTicks d] of the scheduler and at none before: at turn
    1 + (d / 1000) mod buckets when [d] is less than one rotation
    (interval * buckets), and else after d / rotation full rotations, plus,
    when a rest r = d mod rotation is left, ((r + interval / 2) / 1000) mod
    buckets turns.  An item that has its turn with more than one and less
    than two rotations left, r after the rotation is taken off, decays at
    once when ((r + interval / 2) / 1000) mod buckets is 0 and is else put
    that many buckets ahead. *)
Theorem decay_after_ticks (w : World) (d : Z) :
  0 <= lastBucket w < EVENT_DECAY_BUCKETS ->
  duration (items w i) = d -> 0 < d < 2 ^ 31 ->
  occurrences i (toDecayItems w) = 1%nat ->
  (forall b, ~ In i (decayItems w b)) ->
  ~ In i (decayed w) ->
  decaysAt i (cleanup w) (Z.to_nat (decayTicks d))
  /\ forall (w' : World) (dur : Z),
       waiting i w' 1 dur ->
       decayRotation < dur < 2 * decayRotation -> dur < 2 ^ 31 ->
       if bucketsAhead (dur - decayRotation) =? 0
       then In i (decayed (checkDecay w'))
       else waiting i (checkDecay w') (bucketsAhead (dur - decayRotation))
                    (dur - decayRotation).
Proof.
  intros Hlast Hdur Hrange Hpending Hnew Hlog.
  split.
  2: { intros w' dur Hwait' Hbetween Hint.
       pose proof rotation_positive as HR.
       assert (Hdur' : 0 < dur < 2 ^ 31) by lia.
       pose proof (tick_fire w' dur Hwait' Hdur') as Hfire.
       cbv zeta in Hfire.
       replace (dur - Z.min decayRotation dur) with (dur - decayRotation)
         in Hfire by lia.
       assert (Hpos : (dur - decayRotation <=? 0) = false)
         by (apply Z.leb_gt; lia).
       assert (Hsmall : (dur - decayRotation <? decayRotation) = true)
         by (apply Z.ltb_lt; lia).
       rewrite Hpos, Hsmall in Hfire. cbn [orb andb] in Hfire.
       exact Hfire. }
  pose proof (cleanup_enrols w d Hlast Hdur Hrange Hpending Hnew Hlog) as Hwait.
  pose proof rotation_positive as HR.
  unfold firstTurn in Hwait.
  destruct (decayRotation <=? d) eqn:Hbig.
  - apply Z.leb_le in Hbig.
    assert (Hq : 1 <= d / decayRotation).
    { apply Z.div_le_lower_bound; lia. }
    apply (decays_after_rotations (Z.to_nat (d / decayRotation - 1)));
      [exact Hwait | lia | lia].
  - apply Z.leb_gt in Hbig.
    assert (Hticks : decayTicks d = 1 + (d / 1000) mod EVENT_DECAY_BUCKETS).
    { unfold decayTicks. apply Z.ltb_lt in Hbig. rewrite Hbig. reflexivity. }
    rewrite Hticks.
    pose proof (Z.mod_pos_bound (d / 1000) EVENT_DECAY_BUCKETS Hbuckets).
    apply (decays_within_rotation _ _ d Hwait); lia.
Qed.

End DecayFacts.

(** C5, the claim as it stands fails: with a tick interval of 250 ms and 4
    buckets, an item enrolled with 1500 ms left has decayed after 4 turns
    of the scheduler (1000 ms), not after ceil(1500 / 250) = 6; one
    enrolled with 999 ms left has decayed after the first turn. *)
Lemma decays_before_its_duration :
  let K := sampleConstants in
  let E := slotHolders None 1 None in
  EVENT_DECAYINTERVAL = 250
  /\ duration (items (pendingWorld 1500) 1%nat) = 1500
  /\ toDecayItems (pendingWorld 1500) = [1%nat]
  /\ (1500 + 250 - 1) / 250 = 6
  /\ decayed (ticks 3 (cleanup (pendingWorld 1500))) = []
  /\ decayed (ticks 4 (cleanup (pendingWorld 1500))) = [1%nat]
  /\ (999 + 250 - 1) / 250 = 4
  /\ decayed (ticks 1 (cleanup (pendingWorld 999))) = [1%nat].
Proof. vm_compute. repeat split. Qed.

Lemma decay_after_ticks_witness :
  decaysAt (K := sampleConstants) (E := slotHolders None 1 None) 1%nat
           (cleanup (K := sampleConstants) (pendingWorld 1500)) 4.
Proof.
  change 4%nat
    with (Z.to_nat (decayTicks (K := sampleConstants) 1500)).
  apply (decay_after_ticks (K := sampleConstants)
           (E := slotHolders None 1 None) 1%nat).
  - reflexivity.
  - reflexivity.
  - reflexivity.
  - intros w. reflexivity.
  - vm_compute. split; [discriminate | reflexivity].
  - reflexivity.
  - vm_compute. split; reflexivity.
  - reflexivity.
  - intros b. simpl. tauto.
  - simpl. tauto.
Defined.

(** Whatever the constants, as long as the tick interval is below 1998 ms
    and a rotation is more than 1 ms: an item with one millisecond more
    than a rotation left decays after one rotation, one turn before
    ceil(d / interval). *)
Lemma decayTicks_one_past_rotation (K : Constants) :
  0 < EVENT_DECAYINTERVAL < 1998 -> 0 < EVENT_DECAY_BUCKETS ->
  1 < decayRotation ->
  decayTicks (decayRotation + 1) = EVENT_DECAY_BUCKETS
  /\ (decayRotation + 1 + EVENT_DECAYINTERVAL - 1) / EVENT_DECAYINTERVAL
     = EVENT_DECAY_BUCKETS + 1.
Proof.
  intros Hinterval Hbuckets Hrotation. split.
  - unfold decayTicks.
    destruct (decayRotation + 1 <? decayRotation) eqn:Hlt;
      [apply Z.ltb_lt in Hlt; lia |].
    assert (Hq : (decayRotation + 1) / decayRotation = 1).
    { symmetry. apply (Z.div_unique_pos _ _ 1 1); lia. }
    assert (Hm : (decayRotation + 1) mod decayRotation = 1).
    { symmetry. apply (Z.mod_unique_pos _ _ 1 1); lia. }
    rewrite Hq, Hm. cbn [Z.eqb]. unfold bucketsAhead.
    assert (Hhalf : 0 <= EVENT_DECAYINTERVAL / 2 < 999).
    { split; [apply Z.div_pos; lia |].
      apply Z.div_lt_upper_bound; lia. }
    rewrite (Z.div_small (1 + EVENT_DECAYINTERVAL / 2) 1000) by lia.
    rewrite Z.mod_0_l by lia. lia.
  - unfold decayRotation.
    replace (EVENT_DECAYINTERVAL * EVENT_DECAY_BUCKETS + 1
             + EVENT_DECAYINTERVAL - 1)
      with ((EVENT_DECAY_BUCKETS + 1) * EVENT_DECAYINTERVAL) by lia.
    apply Z.div_mul. lia.
Qed.

(** ** Steps of a creature, the test of a removal and the sweep *)

Section MoreMovementFacts.

Context {K : Constants} {M : MapExternals}.

(** X1: the loop of [internalMoveCreature] that follows the tiles
    [queryDestination] redirects to ends after at most [MAP_MAX_LAYERS]
    calls (one, were the bound below one), whatever the tiles answer. *)
Theorem creature_redirects_within_depth_bound (mw : Walk) (c : CreatureId)
        (toTile : TileRef) (flags : Z) :
  Z.of_nat (redirects (followRedirects mw c toTile None 0 flags 0 0))
  <= Z.max 1 MAP_MAX_LAYERS.
Proof.
  pose proof (followRedirects_bounded mw c toTile None 0 flags 0 0) as Hle.
  replace (MAP_MAX_LAYERS - 0) with MAP_MAX_LAYERS in Hle by lia.
  simpl in Hle. exact Hle.
Qed.

Lemma to_uint8_succ_neq (z : Z) : to_uint8 (z + 1) <> z.
Proof.
  unfold to_uint8. intros Heq.
  pose proof (Z.mod_pos_bound (z + 1) (2 ^ 8) ltac:(lia)) as Hb.
  change (2 ^ 8) with 256 in *.
  assert (Hz : 0 <= z < 256) by lia.
  destruct (Z.eq_dec z 255) as [-> | Hnz]; [discriminate |].
  rewrite Z.mod_small in Heq by lia. lia.
Qed.

(** X2: a player who steps straight, not from level 7 and not from a tile
    of height 3, onto a place that is open and has a tile of height 3
    below it that is not immovable, goes down one level, is turned into
    the direction of the step, and blocking items and creatures are
    ignored for the step. *)
Theorem descend_one_level (mw : Walk) (c : CreatureId) (dir flags : Z)
        (t : TileRef) :
  let cur := getPosition mw c in
  let nxt := getNextPosition dir cur in
  Z.land dir DIRECTION_DIAGONAL_MASK = 0 ->
  pz nxt = pz cur ->
  pz cur <> 7 ->
  hasHeight (map mw) (creatureTile (map mw) c) 3 = false ->
  isOpenAbove (map mw) (getTile (map mw) (px nxt) (py nxt) (pz nxt)) = true ->
  getTile (map mw) (px nxt) (py nxt) (pz nxt + 1) = Some t ->
  hasHeight (map mw) t 3 = true ->
  hasFlag (map mw) t TILESTATE_IMMOVABLEBLOCKSOLID = false ->
  stepTarget mw c true dir flags
  = (setDirection (setLastPosition mw c cur) c dir,
     mkPosition (px nxt) (py nxt) (to_uint8 (pz cur + 1)),
     Z.lor flags (Z.lor FLAG_IGNOREBLOCKITEM FLAG_IGNOREBLOCKCREATURE)).
Proof.
  intros cur nxt Hdir Hlevel Hz7 Hheight Hopen Hdest Hh Himm.
  unfold stepTarget.
  change (getPosition (setLastPosition mw c (getPosition mw c)) c) with cur.
  fold nxt. rewrite Hdir. simpl.
  unfold tryGoUp.
  change (map (setLastPosition mw c (getPosition mw c))) with (map mw).
  rewrite Hheight, andb_false_r.
  unfold tryGoDown.
  change (map (setLastPosition mw c (getPosition mw c))) with (map mw).
  destruct (pz cur =? 7) eqn:H7; [apply Z.eqb_eq in H7; contradiction |].
  rewrite Hlevel, Z.eqb_refl. simpl.
  rewrite <- Hlevel, Hopen, Hdest, Hh, Himm. simpl. reflexivity.
Qed.

End MoreMovementFacts.

Section MoreMovementFacts2.

Context {K : Constants} {M : MapExternals}.

Lemma map_setDirection (mw : Walk) (c : CreatureId) (dir : Z) :
  map (setDirection mw c dir) = map mw.
Proof. reflexivity. Qed.

Lemma tryGoUp_cases (mw : Walk) (c : CreatureId) (dir : Z)
      (currentPos destPos : Position) (flags : Z) :
  let blocking := Z.lor FLAG_IGNOREBLOCKITEM FLAG_IGNOREBLOCKCREATURE in
  tryGoUp mw c dir currentPos destPos flags = (mw, destPos, flags)
  \/ tryGoUp mw c dir currentPos destPos flags
     = (mw, destPos, Z.lor flags blocking)
  \/ (pz currentPos <> 8
      /\ tryGoUp mw c dir currentPos destPos flags
         = (setDirection mw c dir,
            mkPosition (px destPos) (py destPos) (to_uint8 (pz destPos - 1)),
            Z.lor flags blocking)).
Proof.
  intros blocking. unfold tryGoUp.
  destruct (pz currentPos =? 8) eqn:H8; simpl; [left; reflexivity |].
  apply Z.eqb_neq in H8.
  destruct (hasHeight _ _ 3); simpl; [| left; reflexivity].
  destruct (isOpenAbove _ _); [| left; reflexivity].
  destruct (getTile _ _ _ _) as [t |]; [| left; reflexivity].
  destruct (hasGround _ t && _); [| left; reflexivity].
  destruct (hasFlag _ t TILESTATE_FLOORCHANGE); simpl.
  - right; left; reflexivity.
  - right; right. split; [exact H8 | reflexivity].
Qed.

Lemma tryGoDown_cases (mw : Walk) (c : CreatureId) (dir : Z)
      (currentPos destPos : Position) (flags : Z) :
  let blocking := Z.lor FLAG_IGNOREBLOCKITEM FLAG_IGNOREBLOCKCREATURE in
  tryGoDown mw c dir currentPos destPos flags = (mw, destPos, flags)
  \/ (pz currentPos <> 7 /\ pz currentPos = pz destPos
      /\ tryGoDown mw c dir currentPos destPos flags
         = (setDirection mw c dir,
            mkPosition (px destPos) (py destPos) (to_uint8 (pz destPos + 1)),
            Z.lor flags blocking)).
Proof.
  intros blocking. unfold tryGoDown.
  destruct (pz currentPos =? 7) eqn:H7; simpl; [left; reflexivity |].
  apply Z.eqb_neq in H7.
  destruct (pz currentPos =? pz destPos) eqn:Hsame; [| left; reflexivity].
  apply Z.eqb_eq in Hsame.
  destruct (isOpenAbove _ _); [| left; reflexivity].
  destruct (getTile _ _ _ _) as [t |]; [| left; reflexivity].
  destruct (hasHeight _ t 3 && _); [| left; reflexivity].
  right. repeat split; assumption.
Qed.

(** X3: when the next position is on the creature's level, the target
    of a step is the next position, on the same level or one level above
    or below it; the map is not touched, the last position is recorded,
    and a creature that is no player, or a diagonal step, gets the next
    position with its flags and direction as they were. *)
Theorem step_changes_level_by_one_at_most (mw mw' : Walk) (c : CreatureId)
        (isPlayer : bool) (dir flags flags' : Z) (destPos : Position) :
  let cur := getPosition mw c in
  let nxt := getNextPosition dir cur in
  pz nxt = pz cur ->
  stepTarget mw c isPlayer dir flags = (mw', destPos, flags') ->
  map mw' = map mw
  /\ lastPosition mw' c = cur
  /\ px destPos = px nxt /\ py destPos = py nxt
  /\ (pz destPos = pz cur
      \/ (pz cur <> 8 /\ pz destPos = to_uint8 (pz cur - 1))
      \/ (pz cur <> 7 /\ pz destPos = to_uint8 (pz cur + 1)))
  /\ ((isPlayer = false \/ Z.land dir DIRECTION_DIAGONAL_MASK <> 0) ->
      destPos = nxt /\ flags' = flags /\ direction mw' = direction mw).
Proof.
  intros cur nxt Hlevel. unfold stepTarget.
  change (getPosition (setLastPosition mw c (getPosition mw c)) c) with cur.
  fold nxt.
  assert (Hlast : lastPosition (setLastPosition mw c cur) c = cur).
  { unfold setLastPosition; simpl. unfold upd. rewrite Nat.eqb_refl. reflexivity. }
  destruct isPlayer; simpl.
  2: { intros [= <- <- <-]. repeat split; try reflexivity; try exact Hlast.
       left; exact Hlevel. }
  destruct (Z.land dir DIRECTION_DIAGONAL_MASK =? 0) eqn:Hdiag; simpl.
  2: { intros [= <- <- <-]. repeat split; try reflexivity; try exact Hlast.
       left; exact Hlevel. }
  apply Z.eqb_eq in Hdiag. fold cur.
  assert (Hno :
            (true = false \/ Z.land dir DIRECTION_DIAGONAL_MASK <> 0) -> False).
  { intros [Hf | Hf]; [discriminate | contradiction]. }
  destruct (tryGoUp_cases (setLastPosition mw c cur) c dir cur nxt flags)
    as [Hup | [Hup | [H8 Hup]]]; rewrite Hup.
  - destruct (tryGoDown_cases (setLastPosition mw c cur) c dir cur nxt flags)
      as [Hdown | [H7 [Hsame Hdown]]]; rewrite Hdown; intros [= <- <- <-];
      (split; [reflexivity |]); (split; [exact Hlast |]);
      (split; [reflexivity |]); (split; [reflexivity |]);
      (split; [| intros Hx; destruct (Hno Hx)]); simpl.
    + left; exact Hlevel.
    + right; right. rewrite Hlevel. split; [exact H7 | reflexivity].
  - destruct (tryGoDown_cases (setLastPosition mw c cur) c dir cur nxt
                (Z.lor flags (Z.lor FLAG_IGNOREBLOCKITEM FLAG_IGNOREBLOCKCREATURE)))
      as [Hdown | [H7 [Hsame Hdown]]]; rewrite Hdown; intros [= <- <- <-];
      (split; [reflexivity |]); (split; [exact Hlast |]);
      (split; [reflexivity |]); (split; [reflexivity |]);
      (split; [| intros Hx; destruct (Hno Hx)]); simpl.
    + left; exact Hlevel.
    + right; right. rewrite Hlevel. split; [exact H7 | reflexivity].
  - destruct (tryGoDown_cases (setDirection (setLastPosition mw c cur) c dir) c dir cur
                (mkPosition (px nxt) (py nxt) (to_uint8 (pz nxt - 1)))
                (Z.lor flags (Z.lor FLAG_IGNOREBLOCKITEM FLAG_IGNOREBLOCKCREATURE)))
      as [Hdown | [H7 [Hsame Hdown]]]; rewrite Hdown.
    + intros [= <- <- <-].
      (split; [reflexivity |]); (split; [exact Hlast |]);
      (split; [reflexivity |]); (split; [reflexivity |]);
      (split; [| intros Hx; destruct (Hno Hx)]); simpl.
      right; left. rewrite Hlevel. split; [exact H8 | reflexivity].
    + (* up and then down cannot both apply *)
      simpl in Hsame. rewrite Hlevel in Hsame. symmetry in Hsame.
      destruct (to_uint8_pred_neq _ Hsame).
Qed.

End MoreMovementFacts2.

Section MoreMovementFacts3.

Context {K : Constants} {M : MapExternals}.

Lemma map_stepTarget (mw : Walk) (c : CreatureId) (isPlayer : bool) (dir flags : Z) :
  map (fst (fst (stepTarget mw c isPlayer dir flags))) = map mw.
Proof.
  unfold stepTarget.
  destruct (isPlayer && _); [| reflexivity].
  set (s := setLastPosition mw c (getPosition mw c)).
  change (getPosition s c) with (getPosition mw c).
  set (cur := getPosition mw c). set (nxt := getNextPosition dir cur).
  destruct (tryGoUp_cases s c dir cur nxt flags) as [Hup | [Hup | [_ Hup]]];
    rewrite Hup;
    match goal with
    | |- context [tryGoDown ?a ?b ?cc ?d ?e ?f] =>
        destruct (tryGoDown_cases a b cc d e f) as [Hdown | [_ [_ Hdown]]];
        rewrite Hdown; reflexivity
    end.
Qed.

(** X4: a step that [internalMoveCreature] refuses leaves the creature
    where it was: the map is as before. *)
Theorem refused_step_moves_nothing (mw : Walk) (c : CreatureId) (isPlayer : bool)
        (dir flags : Z) :
  fst (internalMoveCreature mw c isPlayer dir flags) <> RETURNVALUE_NOERROR ->
  map (snd (internalMoveCreature mw c isPlayer dir flags)) = map mw.
Proof.
  unfold internalMoveCreature.
  pose proof (map_stepTarget mw c isPlayer dir flags) as Hmap.
  destruct (stepTarget mw c isPlayer dir flags) as [[mw1 destPos] flags1].
  simpl in Hmap.
  destruct (getTile (map mw1) (px destPos) (py destPos) (pz destPos)) as [toTile |];
    simpl; [| intros _; exact Hmap].
  unfold internalMoveCreatureTo.
  destruct (negb (isNoError _)); simpl; [intros _; exact Hmap |].
  destruct (negb (Nat.eqb _ toTile)); simpl; [intros Hf; contradiction |].
  destruct (fromTile _) as [f |]; simpl; [| intros Hf; contradiction].
  destruct (negb _ && _); simpl; [| intros Hf; contradiction].
  destruct (Z.land _ _ =? 0); simpl; intros Hf; contradiction.
Qed.

End MoreMovementFacts3.

Section MoreEngineFacts.

Context {K : Constants} {E : Externals}.

(** X11: the test call of [internalRemoveItem] changes nothing and
    answers what the call that removes answers on the same world. *)
Theorem removal_test_predicts_removal (w : World) (item : ItemId) (n flags : Z) :
  internalRemoveItem w item n true flags
  = (fst (internalRemoveItem w item n false flags), w).
Proof.
  unfold internalRemoveItem.
  destruct (parent (items w item)) as [cylinder |]; [| reflexivity].
  destruct (negb (isNoError _)); [reflexivity |].
  destruct (negb (canRemove w item)); reflexivity.
Qed.

End MoreEngineFacts.

Section SweepFacts.

Context {K : Constants} {E : Externals}.

Lemma distributeDecay_frame (l : list ItemId) :
  forall w : World,
    items (fold_left distributeDecay l w) = items w
    /\ ToReleaseItems (fold_left distributeDecay l w) = ToReleaseItems w.
Proof.
  induction l as [| a l IH]; intros w; simpl; [split; reflexivity |].
  destruct (IH (distributeDecay w a)) as [H1 H2]. rewrite H1, H2.
  unfold distributeDecay, push_back.
  destruct (decayRotation <=? _); split; reflexivity.
Qed.

Lemma decrement_counts (l : list ItemId) :
  forall (w : World) (j : ItemId),
    referenceCounter (items (fold_left decrementReferenceCounter l w) j)
    = referenceCounter (items w j) - Z.of_nat (occurrences j l).
Proof.
  induction l as [| a l IH]; intros w j; simpl.
  - unfold occurrences; simpl. lia.
  - rewrite IH.
    assert (Hone : referenceCounter (items (decrementReferenceCounter w a) j)
                   = referenceCounter (items w j)
                     - (if Nat.eq_dec a j then 1 else 0)).
    { unfold decrementReferenceCounter, withItems. cbn [items].
      destruct (Nat.eq_dec a j) as [-> | Hne].
      - rewrite upd_same. simpl. lia.
      - rewrite upd_other by (intros Hx; apply Hne; symmetry; exact Hx). lia. }
    rewrite Hone. unfold occurrences. simpl.
    destruct (Nat.eq_dec a j); lia.
Qed.

Lemma cleanup_of_settled (w : World) :
  ToReleaseItems w = [] -> toDecayItems w = [] -> cleanup w = w.
Proof.
  destruct w; simpl. intros -> ->. reflexivity.
Qed.

(** X16: [cleanup] empties the list of the items to release and the
    list of the items to enrol, takes from the reference counter of an
    item one for each time the list to release named it, and a second
    [cleanup] changes nothing. *)
Theorem cleanup_settles_the_pending_lists (w : World) :
  ToReleaseItems (cleanup w) = []
  /\ toDecayItems (cleanup w) = []
  /\ (forall j, referenceCounter (items (cleanup w) j)
                = referenceCounter (items w j)
                  - Z.of_nat (occurrences j (ToReleaseItems w)))
  /\ cleanup (cleanup w) = cleanup w.
Proof.
  assert (Hrel : ToReleaseItems (cleanup w) = []).
  { unfold cleanup. cbv zeta. unfold withToDecayItems. cbn [ToReleaseItems].
    match goal with
    | |- ToReleaseItems (fold_left distributeDecay ?l ?x) = _ =>
        rewrite (proj2 (distributeDecay_frame l x))
    end. reflexivity. }
  assert (Hdec : toDecayItems (cleanup w) = []) by reflexivity.
  split; [exact Hrel |]. split; [exact Hdec |]. split.
  - intros j. unfold cleanup. cbv zeta. unfold withToDecayItems. cbn [items].
    match goal with
    | |- context [items (fold_left distributeDecay ?l ?x)] =>
        rewrite (proj1 (distributeDecay_frame l x))
    end.
    unfold withToReleaseItems. cbn [items]. apply decrement_counts.
  - apply cleanup_of_settled; assumption.
Qed.

End SweepFacts.

(** ** Adding an item: the result, what is left alone, the enrolment *)

Section AddFacts.

Context {K : Constants} {E : Externals}.

Lemma to_int32_le (x : Z) : 0 <= x -> to_int32 x <= x.
Proof.
  intros Hx. unfold to_int32.
  pose proof (Z.mod_le x (2 ^ 32) Hx ltac:(lia)) as Hle.
  cbv zeta. destruct (x mod 2 ^ 32 <? 2 ^ 31); lia.
Qed.

Lemma to_uint8_le (x : Z) : 0 <= x -> 0 <= to_uint8 x <= x.
Proof.
  intros Hx. unfold to_uint8.
  pose proof (Z.mod_le x (2 ^ 8) Hx ltac:(lia)) as Hle.
  pose proof (Z.mod_pos_bound x (2 ^ 8) ltac:(lia)).
  lia.
Qed.

(** The remainder that [internalAddItem] splits off is smaller than the
    item it comes from. *)
Lemma remainder_smaller (c0 maxQ room after n0 : Z) :
  let m := Z.min c0 maxQ in
  let n := Z.min (to_uint32 room) m in
  (after = c0 \/ after = c0 + n) ->
  0 < to_int32 (m - n) ->
  after <> to_int32 (m - n) ->
  0 <= to_uint8 (to_int32 (m - n)) < c0.
Proof.
  intros m n Hafter Hpos Hne.
  assert (Hu : 0 <= to_uint32 room).
  { unfold to_uint32. apply Z.mod_pos_bound. lia. }
  assert (Hm : 0 <= m).
  { destruct (Z_lt_dec m 0) as [Hneg |]; [| lia].
    assert (n = m) by (unfold n; lia).
    replace (m - n) with 0 in Hpos by lia. discriminate. }
  assert (Hn : 0 <= n <= m) by (unfold n; lia).
  pose proof (to_int32_le (m - n) ltac:(lia)) as Hle.
  pose proof (to_uint8_le (to_int32 (m - n)) ltac:(lia)) as H8.
  assert (Hmc : m <= c0) by (unfold m; lia).
  assert (to_int32 (m - n) < c0); [| lia].
  destruct (Z.eq_dec (to_int32 (m - n)) c0) as [Heq |]; [| lia].
  assert (n = 0) by lia.
  destruct Hafter; lia.
Qed.

Lemma count_updateThing (w : World) (c : Cylinder) (t j : ItemId) (i n : Z) :
  count (items (updateThing w c t i n) j)
  = if Nat.eqb j t then n else count (items w j).
Proof.
  unfold updateThing, withItems, upd. cbn [items].
  destruct (Nat.eqb j t); reflexivity.
Qed.

Local Arguments updateThing : simpl never.
Local Arguments clone : simpl never.
Local Arguments setItemCount : simpl never.
Local Arguments addThing : simpl never.
Local Arguments ReleaseItem : simpl never.
Local Arguments enrolDecay : simpl never.
Local Arguments getThingIndex : simpl never.
Local Arguments notify : simpl never.
Local Arguments postAddNotification : simpl never.

Lemma internalAddItem_returns (fuel : nat) :
  forall (w : World) (c : Cylinder) (item : ItemId) (index flags r : Z),
    (Z.to_nat (count (items w item)) < fuel)%nat ->
    exists r' w',
      internalAddItem fuel w (Some c) (Some item) index flags false r
      = Some (addValidation w c item index flags, r', w').
Proof.
  induction fuel as [| fuel IH]; intros w c item index flags r Hfuel; [lia |].
  unfold addValidation. simpl.
  destruct (queryDestination w c index item None flags)
    as [[[toC index'] toIt] flags'].
  destruct (isNoError (queryAdd w toC index' item (count (items w item))
                                flags' None)) eqn:Hadd; simpl;
    [| eexists; eexists; reflexivity].
  destruct (queryMaxCount w c INDEX_WHEREEVER item (count (items w item)) flags')
    as [ret maxQueryCount]; simpl.
  destruct (isNoError ret) eqn:Hmax; simpl; [| eexists; eexists; reflexivity].
  apply isNoError_true in Hmax. subst ret.
  destruct toIt as [t |]; [| eexists; eexists; reflexivity].
  destruct (isStackable w item && equals w item (Some t));
    [| eexists; eexists; reflexivity].
  set (m := Z.min (count (items w item)) maxQueryCount).
  set (n := Z.min (to_uint32 (getStackSize w t - count (items w t))) m).
  set (w1 := updateThing w toC t (id (items w t)) (count (items w t) + n)).
  destruct (0 <? to_int32 (m - n)) eqn:Hpos; [| eexists; eexists; reflexivity].
  apply Z.ltb_lt in Hpos.
  destruct (negb (_ =? to_int32 (m - n))) eqn:Hne;
    [| eexists; eexists; reflexivity].
  apply negb_true_iff, Z.eqb_neq in Hne.
  change (count (items w1 item) <> to_int32 (m - n)) in Hne.
  assert (Hsmall : 0 <= to_uint8 (to_int32 (m - n)) < count (items w item)).
  { apply (remainder_smaller (count (items w item)) maxQueryCount
             (getStackSize w t - count (items w t)) (count (items w1 item)) 0);
      [| exact Hpos | exact Hne].
    unfold w1. rewrite count_updateThing.
    destruct (Nat.eqb item t) eqn:Hit; [| left; reflexivity].
    apply Nat.eqb_eq in Hit. subst t. right. reflexivity. }
  destruct (clone w1 item) as [k w2] eqn:Hclone.
  match goal with
  | |- context [internalAddItem fuel ?x (Some c) (Some ?kk) ?i ?f false 0] =>
      destruct (IH x c kk i f 0) as [r' [w' Hrec]]
  end.
  { unfold setItemCount, withItems. cbn [items].
    rewrite upd_same. unfold setCount. cbn [count]. lia. }
  rewrite Hrec.
  destruct (negb (isNoError _)); eexists; eexists; reflexivity.
Qed.

End AddFacts.

Section FrameFacts.

Context {K : Constants} {E : Externals}.

(** X5: when the destination does not ask for an exchange, a move that
    does not answer success leaves the world as it was, unless the item
    is stackable and [queryMaxCount] answered fewer units than were asked
    for. *)
Theorem failed_move_without_exchange_changes_nothing (fuel : nat) (w : World)
        (fromCylinder toCyl : Cylinder) (index : Z) (item : ItemId) (n flags : Z)
        (actor : option Creature) (tradeItem : option ItemId)
        (fromPos toPos : option Position) (r : MoveResult) :
  let d := resolveDestination w item toCyl index None flags 0 0 in
  (item < nextItem w)%nat ->
  queryAdd w (toCylinder d) (destIndex d) item n (destFlags d) actor
    <> RETURNVALUE_NEEDEXCHANGE ->
  internalMoveItem fuel w fromCylinder toCyl index item n flags actor tradeItem
                   fromPos toPos = Some r ->
  outcome r <> RETURNVALUE_NOERROR ->
  world r = w
  \/ (isStackable w item = true
      /\ snd (queryMaxCount w (toCylinder d) (destIndex d) item n (destFlags d))
         < n).
Proof.
  intros d Hold Hplain. unfold internalMoveItem. fold d. clearbody d.
  destruct (negb (isNoError (preMoveHook _ _ _ _ _ _))).
  { intros [= <-] _. left. reflexivity. }
  destruct (match toItem d with Some t => Nat.eqb item t | None => false end).
  { intros [= <-] _. left. reflexivity. }
  unfold exchangeItem.
  destruct (ReturnValue_eq_dec _ RETURNVALUE_NEEDEXCHANGE) as [Hex | _];
    [contradiction |].
  destruct (negb (isNoError _)) eqn:Hadd.
  { intros [= <-] _. left. reflexivity. }
  destruct (queryMaxCount w (toCylinder d) (destIndex d) item n (destFlags d))
    as [retMaxCount maxQueryCount].
  destruct (negb (isNoError retMaxCount) && (maxQueryCount =? 0)).
  { intros [= <-] _. left. reflexivity. }
  destruct (negb (isNoError (queryRemove _ _ _ _ _ _))) eqn:Hrem.
  { intros [= <-] _. left. reflexivity. }
  destruct (tradeItemInDestination fuel w (toCylinder d) tradeItem) as [[|] |];
    [| | discriminate].
  { intros [= <-] _. left. reflexivity. }
  intros [= <-]. rewrite commitMove_outcome by exact Hold.
  apply negb_false_iff, isNoError_true in Hrem. rewrite Hrem.
  destruct (isStackable w item) eqn:Hstack; simpl; [| intros Hf; contradiction].
  destruct (maxQueryCount <? n) eqn:Hlt; [| intros Hf; contradiction].
  intros _. right. split; [reflexivity |]. apply Z.ltb_lt. exact Hlt.
Qed.

End FrameFacts.

Section EnrolFacts.

Context {K : Constants} {E : Externals}.

Lemma keptFor_refl (j : ItemId) (w : World) : keptFor j w w.
Proof. repeat split; lia. Qed.

Lemma keptFor_trans (j : ItemId) (a b c : World) :
  keptFor j a b -> keptFor j b c -> keptFor j a c.
Proof.
  intros [A1 [A2 [A3 A4]]] [B1 [B2 [B3 B4]]].
  repeat split; try congruence. lia.
Qed.

Lemma keptFor_updateThing (j : ItemId) (w : World) (c : Cylinder) (t : ItemId)
      (i n : Z) :
  keptFor j w (updateThing w c t i n).
Proof.
  unfold keptFor, updateThing, withItems. cbn [items toDecayItems nextItem].
  unfold upd. destruct (Nat.eqb j t) eqn:Hjt; repeat split; try lia.
  - apply Nat.eqb_eq in Hjt. subst t. reflexivity.
  - apply Nat.eqb_eq in Hjt. subst t. reflexivity.
Qed.

Lemma keptFor_addThing (j : ItemId) (w : World) (c : Cylinder) (index : Z)
      (i : ItemId) :
  keptFor j w (addThing w c index i).
Proof.
  unfold keptFor, addThing, withItems, withContents.
  cbn [items toDecayItems nextItem].
  unfold upd. destruct (Nat.eqb j i) eqn:Hji; repeat split; try lia.
  - apply Nat.eqb_eq in Hji. subst i. reflexivity.
  - apply Nat.eqb_eq in Hji. subst i. reflexivity.
Qed.

Lemma keptFor_notify (j : ItemId) (w : World) (x : Notification) :
  keptFor j w (notify w x).
Proof. repeat split; simpl; lia. Qed.

Lemma keptFor_release (j : ItemId) (w : World) (i : ItemId) :
  keptFor j w (ReleaseItem w i).
Proof. repeat split; simpl; lia. Qed.

Lemma keptFor_setItemCount (j : ItemId) (w : World) (i : ItemId) (n : Z) :
  keptFor j w (setItemCount w i n).
Proof.
  unfold keptFor, setItemCount, withItems. cbn [items toDecayItems nextItem].
  unfold upd. destruct (Nat.eqb j i) eqn:Hji; repeat split; try lia.
  - apply Nat.eqb_eq in Hji. subst i. reflexivity.
  - apply Nat.eqb_eq in Hji. subst i. reflexivity.
Qed.

Lemma keptFor_clone (j : ItemId) (w : World) (i : ItemId) :
  (j < nextItem w)%nat -> keptFor j w (snd (clone w i)).
Proof.
  intros Hold. unfold keptFor, clone, withItems, withNextItem.
  cbn [snd items toDecayItems nextItem].
  rewrite upd_other by lia. repeat split; lia.
Qed.

Lemma keptFor_enrol_other (j : ItemId) (w : World) (i : ItemId) :
  j <> i -> keptFor j w (enrolDecay w i).
Proof.
  intros Hne. unfold keptFor, enrolDecay, withItems, withToDecayItems.
  cbn [items toDecayItems nextItem].
  rewrite upd_other by exact Hne.
  unfold occurrences. simpl.
  destruct (Nat.eq_dec i j) as [Heq | _]; [congruence |].
  repeat split; lia.
Qed.

Ltac kept_step :=
  first
    [ apply keptFor_refl
    | eapply keptFor_trans; [| apply keptFor_notify]
    | eapply keptFor_trans; [| apply keptFor_release]
    | eapply keptFor_trans; [| apply keptFor_addThing]
    | eapply keptFor_trans; [| apply keptFor_updateThing]
    | eapply keptFor_trans; [| apply keptFor_setItemCount] ].

Local Arguments updateThing : simpl never.
Local Arguments clone : simpl never.
Local Arguments setItemCount : simpl never.
Local Arguments addThing : simpl never.
Local Arguments ReleaseItem : simpl never.
Local Arguments enrolDecay : simpl never.
Local Arguments getThingIndex : simpl never.
Local Arguments notify : simpl never.
Local Arguments postAddNotification : simpl never.

(** [internalAddItem] either refuses and changes nothing, or ends with the
    enrolment of the item it was given; before that, an object [j] that
    existed is left as it was: the remainders that are split off and
    enrolled are new objects. *)
Lemma internalAddItem_keeps (fuel : nat) :
  forall (w : World) (c : Cylinder) (item : ItemId) (index flags r : Z)
         (ret : ReturnValue) (r' : Z) (w' : World) (j : ItemId),
    internalAddItem fuel w (Some c) (Some item) index flags false r
      = Some (ret, r', w') ->
    (j < nextItem w)%nat ->
    ret <> RETURNVALUE_NOERROR /\ w' = w
    \/ ret = RETURNVALUE_NOERROR
       /\ exists w1, keptFor j w w1
                     /\ w' = if 0 <? duration (items w1 item)
                             then enrolDecay w1 item else w1.
Proof.
  induction fuel as [| fuel IH];
    intros w c item index flags r ret r' w' j; cbn [internalAddItem];
    destruct (queryDestination w c index item None flags)
      as [[[toC index'] toIt] flags'];
    (destruct (negb (isNoError (queryAdd _ _ _ _ _ _ _))) eqn:Hadd;
     [intros [= <- _ <-] _; left; split; [| reflexivity];
      apply negb_true_iff, isNoError_false in Hadd; exact Hadd |]);
    destruct (queryMaxCount w c INDEX_WHEREEVER item (count (items w item)) flags')
      as [rm maxQueryCount];
    (destruct (negb (isNoError rm)) eqn:Hmax;
     [intros [= <- _ <-] _; left; split; [| reflexivity];
      apply negb_true_iff, isNoError_false in Hmax; exact Hmax |]).
  - (* no fuel: the branch that recurses has no result *)
    destruct toIt as [t |];
      [destruct (isStackable w item && equals w item (Some t));
       [destruct (0 <? _); [destruct (negb (_ =? _)); [discriminate |] |] |] |];
      destruct (getThingIndex _ _ _ =? -1);
      intros [= <- _ <-] Hold; right; (split; [reflexivity |]);
      match goal with
      | |- exists w1, _ /\ (if _ then _ else ?W) = _ =>
          exists W; split; [| reflexivity]
      end;
      unfold postAddNotification; repeat kept_step.
  - destruct toIt as [t |];
      [destruct (isStackable w item && equals w item (Some t));
       [destruct (0 <? _); [destruct (negb (_ =? _)) |] |] |].
    2-5: destruct (getThingIndex _ _ _ =? -1);
      intros [= <- _ <-] Hold; right; (split; [reflexivity |]);
      match goal with
      | |- exists w1, _ /\ (if _ then _ else ?W) = _ =>
          exists W; split; [| reflexivity]
      end;
      unfold postAddNotification; repeat kept_step.
    destruct (clone _ item) as [k w2] eqn:Hclone.
    match goal with
    | |- context [internalAddItem fuel ?x (Some c) (Some k) ?i ?f false 0] =>
        destruct (internalAddItem fuel x (Some c) (Some k) i f false 0)
          as [[[rr rc] wr] |] eqn:Hrec; [| discriminate]
    end.
    intros Hres Hold.
    assert (Hk : k = nextItem w /\ nextItem w2 = S (nextItem w)).
    { unfold clone in Hclone. injection Hclone as <- <-. split; reflexivity. }
    destruct Hk as [Hk Hnext].
    match type of Hrec with
    | internalAddItem fuel ?x _ _ _ _ _ _ = _ =>
        assert (Hfirst : keptFor j w x)
    end.
    { eapply keptFor_trans; [| apply keptFor_setItemCount].
      eapply keptFor_trans; [apply keptFor_updateThing |].
      replace w2 with (snd (clone
        (updateThing w toC t (id (items w t))
           (count (items w t)
            + Z.min (to_uint32 (getStackSize w t - count (items w t)))
                    (Z.min (count (items w item)) maxQueryCount))) item))
        by (rewrite Hclone; reflexivity).
      apply keptFor_clone. exact Hold. }
    assert (Hrest : keptFor j w wr).
    { eapply keptFor_trans; [exact Hfirst |].
      destruct (IH _ _ _ _ _ _ _ _ _ j Hrec) as [[_ ->] | [_ [w1 [Hkept ->]]]].
      - unfold setItemCount, withItems. cbn [nextItem]. lia.
      - apply keptFor_refl.
      - destruct (0 <? duration (items w1 k)); [| exact Hkept].
        eapply keptFor_trans; [exact Hkept |].
        apply keptFor_enrol_other. lia. }
    revert Hres.
    destruct (negb (isNoError rr)); intros [= <- _ <-];
      right; (split; [reflexivity |]);
      match goal with
      | |- exists w1, _ /\ (if _ then _ else ?W) = _ =>
          exists W; split; [| reflexivity]
      end.
    + eapply keptFor_trans; [exact Hrest | apply keptFor_release].
    + exact Hrest.
Qed.

(** X10: an item of positive duration that [internalAddItem] accepts is put on
    the list of the items to enrol and its reference counter is raised,
    whatever its decay state was. *)
Theorem internalAddItem_enrols_again (fuel : nat) (w : World) (c : Cylinder)
        (item : ItemId) (index flags r : Z) :
  (item < nextItem w)%nat ->
  (Z.to_nat (count (items w item)) < fuel)%nat ->
  addValidation w c item index flags = RETURNVALUE_NOERROR ->
  0 < duration (items w item) ->
  exists r' w',
    internalAddItem fuel w (Some c) (Some item) index flags false r
      = Some (RETURNVALUE_NOERROR, r', w')
    /\ occurrences item (toDecayItems w')
       = S (occurrences item (toDecayItems w))
    /\ referenceCounter (items w' item) = referenceCounter (items w item) + 1
    /\ decaying (items w' item) = DECAYING_TRUE.
Proof.
  intros Hold Hfuel Hvalid Hdur.
  destruct (internalAddItem_returns fuel w c item index flags r Hfuel)
    as [r' [w' Hres]].
  rewrite Hvalid in Hres. exists r', w'. split; [exact Hres |].
  destruct (internalAddItem_keeps fuel w c item index flags r _ _ _ item Hres Hold)
    as [[Hf _] | [_ [w1 [[K1 [K2 [K3 _]]] ->]]]]; [contradiction |].
  rewrite <- K1 in Hdur. apply Z.ltb_lt in Hdur. rewrite Hdur.
  unfold enrolDecay, withItems, withToDecayItems. cbn [items toDecayItems].
  rewrite upd_same. unfold occurrences in *. simpl.
  destruct (Nat.eq_dec item item) as [_ | Hne]; [| contradiction].
  rewrite K2, K3. repeat split.
Qed.

End EnrolFacts.

(** ** Account storage, unique items and [startDecay] *)

Lemma updZ_same {A : Type} (f : Z -> A) (k : Z) (v : A) : updZ f k v k = v.
Proof. unfold updZ. rewrite Z.eqb_refl. reflexivity. Qed.

Lemma updZ_other {A : Type} (f : Z -> A) (k j : Z) (v : A) :
  j <> k -> updZ f k v j = f j.
Proof.
  intros Hne. unfold updZ. destruct (j =? k) eqn:Heq; [| reflexivity].
  apply Z.eqb_eq in Heq. contradiction.
Qed.

(** X27: reading an account storage value after a write gives the value
    written at the key that was written and the former value elsewhere;
    writing -1 erases the key, which then reads as -1. *)
Theorem account_storage_round_trip (m : AccountStorage)
        (accountId key value accountId' key' : Z) :
  getAccountStorageValue (setAccountStorageValue m accountId key value)
                         accountId' key'
  = if (accountId' =? accountId) && (key' =? key) then value
    else getAccountStorageValue m accountId' key'.
Proof.
  unfold getAccountStorageValue, setAccountStorageValue, accountEntry.
  destruct (accountId' =? accountId) eqn:Ha; simpl.
  - apply Z.eqb_eq in Ha. subst accountId'.
    destruct (value =? -1) eqn:Hv; rewrite updZ_same.
    + apply Z.eqb_eq in Hv. subst value.
      destruct (key' =? key) eqn:Hk.
      * apply Z.eqb_eq in Hk. subst key'. rewrite updZ_same. reflexivity.
      * apply Z.eqb_neq in Hk. rewrite updZ_other by exact Hk.
        destruct (m accountId); reflexivity.
    + destruct (key' =? key) eqn:Hk.
      * apply Z.eqb_eq in Hk. subst key'. rewrite updZ_same. reflexivity.
      * apply Z.eqb_neq in Hk. rewrite updZ_other by exact Hk.
        destruct (m accountId); reflexivity.
  - apply Z.eqb_neq in Ha.
    destruct (value =? -1); rewrite updZ_other by exact Ha; reflexivity.
Qed.

(** X28: a unique id that is registered is not registered again: the
    second call answers false and changes nothing, and the id can be taken
    again once it has been removed. *)
Theorem unique_id_first_registration_wins (m : UniqueItems) (uniqueId : Z)
        (first second : option ItemId) :
  let m1 := snd (addUniqueItem m uniqueId first) in
  addUniqueItem m1 uniqueId second = (false, m1)
  /\ (fst (addUniqueItem m uniqueId first) = true ->
      getUniqueItem m1 uniqueId = first)
  /\ (fst (addUniqueItem m uniqueId first) = false ->
      m1 = m)
  /\ addUniqueItem (removeUniqueItem m1 uniqueId) uniqueId second
     = (true, updZ (removeUniqueItem m1 uniqueId) uniqueId (Some second))
  /\ getUniqueItem
       (snd (addUniqueItem (removeUniqueItem m1 uniqueId) uniqueId second))
       uniqueId = second.
Proof.
  unfold addUniqueItem, removeUniqueItem, getUniqueItem.
  destruct (m uniqueId) as [old |] eqn:Hm; simpl.
  - rewrite Hm. repeat split; try discriminate.
    + rewrite updZ_same. reflexivity.
    + rewrite updZ_same. simpl. rewrite updZ_same. reflexivity.
  - rewrite updZ_same. repeat split; try discriminate.
    + rewrite updZ_same. reflexivity.
    + rewrite updZ_same. simpl. rewrite updZ_same. reflexivity.
Qed.

Section DecayStart.

Context {K : Constants} {E : Externals}.

(** X15: an item of positive duration is enrolled by [startDecay] once:
    a second call changes nothing; the first puts an item that can decay
    and does not decay yet at the front of the list of the items to enrol,
    marks it as decaying and raises its reference counter. *)
Theorem startDecay_enrols_once (w : World) (i : ItemId) :
  0 < duration (items w i) ->
  startDecay (startDecay w (Some i)) (Some i) = startDecay w (Some i)
  /\ (occurrences i (toDecayItems (startDecay w (Some i)))
      <= S (occurrences i (toDecayItems w)))%nat
  /\ (canDecay w i = true -> decaying (items w i) <> DECAYING_TRUE ->
      toDecayItems (startDecay w (Some i)) = i :: toDecayItems w
      /\ decaying (items (startDecay w (Some i)) i) = DECAYING_TRUE
      /\ referenceCounter (items (startDecay w (Some i)) i)
         = referenceCounter (items w i) + 1).
Proof.
  intros Hdur. apply Z.ltb_lt in Hdur.
  assert (Hcases : startDecay w (Some i) = w
                   /\ (canDecay w i = false
                       \/ decaying (items w i) = DECAYING_TRUE)
                   \/ startDecay w (Some i) = enrolDecay w i
                      /\ canDecay w i = true).
  { unfold startDecay. destruct (canDecay w i); simpl; [| left; auto].
    destruct (decaying (items w i)) eqn:Hdec; simpl; rewrite ?Hdur; auto. }
  assert (Hnow : decaying (items (enrolDecay w i) i) = DECAYING_TRUE).
  { unfold enrolDecay, withItems, withToDecayItems. cbn [items].
    rewrite upd_same. reflexivity. }
  destruct Hcases as [[Hs Hwhy] | [Hs Hcan]]; rewrite !Hs.
  - split; [reflexivity |]. split; [lia |].
    intros Hcan Hne. destruct Hwhy; [congruence | contradiction].
  - split; [| split].
    + unfold startDecay. rewrite Hnow.
      destruct (negb (canDecay (enrolDecay w i) i)); reflexivity.
    + unfold enrolDecay, withToDecayItems. cbn [toDecayItems].
      unfold occurrences. simpl. destruct (Nat.eq_dec i i); lia.
    + intros _ _. split; [reflexivity |]. split; [exact Hnow |].
      unfold enrolDecay, withItems, withToDecayItems. cbn [items].
      rewrite upd_same. reflexivity.
Qed.

End DecayStart.

(** ** The check lists of the creatures *)

Lemma occurrences_nil (c : nat) : occurrences c [] = 0%nat.
Proof. reflexivity. Qed.

Lemma occurrences_cons (c a : nat) (l : list nat) :
  occurrences c (a :: l)
  = ((if Nat.eq_dec a c then 1 else 0) + occurrences c l)%nat.
Proof. unfold occurrences. simpl. destruct (Nat.eq_dec a c); reflexivity. Qed.

Lemma occurrences_append (c : nat) (l1 l2 : list nat) :
  occurrences c (l1 ++ l2) = (occurrences c l1 + occurrences c l2)%nat.
Proof. unfold occurrences. apply count_occ_app. Qed.

Lemma occurrences_In (c : nat) (l : list nat) :
  In c l <-> (0 < occurrences c l)%nat.
Proof. unfold occurrences. apply count_occ_In. Qed.

Lemma occurrences_not_In (c : nat) (l : list nat) :
  ~ In c l <-> occurrences c l = 0%nat.
Proof. unfold occurrences. apply count_occ_not_In. Qed.

Section CheckFacts.

Context {K : Constants} {E : Externals}.

Variable EVENT_CREATURECOUNT : Z.
Variable isDead : Herd -> CreatureId -> bool.

Lemma enrolledOnce_lists (h h' : Herd) :
  inCheckCreaturesVector h' = inCheckCreaturesVector h ->
  checkCreatureLists h' = checkCreatureLists h ->
  enrolledOnce h -> enrolledOnce h'.
Proof. unfold enrolledOnce. intros -> ->. auto. Qed.

Lemma enrolledOnce_add (h : Herd) (creature : CreatureId) (slot : Z) :
  enrolledOnce h -> enrolledOnce (addCreatureCheck h creature slot).
Proof.
  intros Hinv. unfold addCreatureCheck. cbv zeta.
  change (inCheckCreaturesVector (setCreatureCheck h creature true) creature)
    with (inCheckCreaturesVector h creature).
  destruct (inCheckCreaturesVector h creature) eqn:Hin.
  - apply (enrolledOnce_lists h); [reflexivity | reflexivity | exact Hinv].
  - intros c. pose proof (Hinv c) as Hc. pose proof (Hinv creature) as Hnew.
    rewrite Hin in Hnew.
    cbn [addCreatureReference withCheckCreatureList setInCheckCreaturesVector
         setCreatureCheck inCheckCreaturesVector checkCreatureLists].
    unfold upd at 1.
    destruct (Nat.eqb c creature) eqn:Hcc.
    + apply Nat.eqb_eq in Hcc. subst c. exists slot. split.
      * rewrite updZ_same, occurrences_append, occurrences_cons, occurrences_nil.
        destruct (Nat.eq_dec creature creature) as [_ | Hne]; [| contradiction].
        pose proof (proj1 (occurrences_not_In creature _) (Hnew slot)). lia.
      * intros k' Hk'. rewrite updZ_other by exact Hk'. apply Hnew.
    + apply Nat.eqb_neq in Hcc.
      assert (Hocc : forall k, occurrences c
                       (updZ (checkCreatureLists h) slot
                             (checkCreatureLists h slot ++ [creature]) k)
                     = occurrences c (checkCreatureLists h k)).
      { intros k. destruct (Z.eq_dec k slot) as [-> | Hk].
        - rewrite updZ_same, occurrences_append, occurrences_cons, occurrences_nil.
          destruct (Nat.eq_dec creature c) as [Heq | _]; [congruence | lia].
        - rewrite updZ_other by exact Hk. reflexivity. }
      destruct (inCheckCreaturesVector h c).
      * destruct Hc as [k [Hone Hother]]. exists k. split.
        -- rewrite Hocc. exact Hone.
        -- intros k' Hk'. apply occurrences_not_In. rewrite Hocc.
           apply occurrences_not_In. apply Hother. exact Hk'.
      * intros k. apply occurrences_not_In. rewrite Hocc.
        apply occurrences_not_In. apply Hc.
Qed.

Lemma enrolledOnce_remove (h : Herd) (creature : CreatureId) :
  enrolledOnce h -> enrolledOnce (removeCreatureCheck h creature).
Proof.
  intros Hinv. unfold removeCreatureCheck.
  destruct (inCheckCreaturesVector h creature); [| exact Hinv].
  apply (enrolledOnce_lists h); [reflexivity | reflexivity | exact Hinv].
Qed.

(** What the loop of [checkCreatures] does to the list it walks and to the
    creatures it drops. *)
Lemma checkCreaturesLoop_filters (index : Z) (rest : list CreatureId) :
  forall (kept : list CreatureId) (h : Herd),
    let h' := checkCreaturesLoop isDead index kept rest h in
    checkCreatureLists h index = kept ++ rest ->
    creatureCheck h' = creatureCheck h
    /\ creatureReferences h' = creatureReferences h
    /\ checkCreatureLists h' index = kept ++ filter (creatureCheck h) rest
    /\ (forall k, k <> index -> checkCreatureLists h' k = checkCreatureLists h k)
    /\ ToReleaseCreatures h'
       = ToReleaseCreatures h
         ++ filter (fun x => negb (creatureCheck h x)) rest
    /\ (forall x, creatureCheck h x = true \/ ~ In x rest ->
                  inCheckCreaturesVector h' x = inCheckCreaturesVector h x)
    /\ (forall x, creatureCheck h x = false -> In x rest ->
                  inCheckCreaturesVector h' x = false)
    /\ (forall x, creatureCheck h x = false ->
                  occurrences x (thoughtOf h') = occurrences x (thoughtOf h)).
Proof.
  induction rest as [| creature after IH]; intros kept h h' Hlist.
  - subst h'. simpl. rewrite !app_nil_r. rewrite app_nil_r in Hlist.
    split; [| split; [| split; [| split; [| split; [| split; [| split]]]]]];
      try assumption; try reflexivity.
    intros x _ [].
  - subst h'. cbn [checkCreaturesLoop filter].
    destruct (creatureCheck h creature) eqn:Hcheck.
    + set (h1 := if negb (isDead h creature) then think h creature else h).
      assert (Hsame : creatureCheck h1 = creatureCheck h
                      /\ creatureReferences h1 = creatureReferences h
                      /\ checkCreatureLists h1 = checkCreatureLists h
                      /\ ToReleaseCreatures h1 = ToReleaseCreatures h
                      /\ inCheckCreaturesVector h1 = inCheckCreaturesVector h).
      { subst h1. destruct (negb (isDead h creature)); repeat split. }
      destruct Hsame as [S1 [S2 [S3 [S4 S5]]]].
      destruct (IH (kept ++ [creature]) h1) as [I1 [I2 [I3 [I4 [I5 [I6 [I7 I8]]]]]]].
      { rewrite S3, Hlist, <- app_assoc. reflexivity. }
      rewrite I1, I2, I3, I5, S1, S2, S4, <- app_assoc. cbn [negb app].
      split; [| split; [| split; [| split; [| split; [| split; [| split]]]]]];
        try reflexivity.
      * intros k Hk. rewrite I4, S3 by exact Hk. reflexivity.
      * intros x Hx. rewrite I6, S5; [reflexivity |]. rewrite S1.
        destruct Hx as [Hx | Hx]; [left; exact Hx |].
        right. intros Hin. apply Hx. right. exact Hin.
      * intros x Hx [<- | Hin]; [congruence |].
        apply I7; [rewrite S1; exact Hx | exact Hin].
      * intros x Hx. rewrite I8 by (rewrite S1; exact Hx).
        subst h1. destruct (negb (isDead h creature)); [| reflexivity].
        unfold think. cbn [thoughtOf].
        rewrite occurrences_append, occurrences_cons, occurrences_nil.
        destruct (Nat.eq_dec creature x) as [-> | _]; [congruence | lia].
    + cbn [negb].
      set (h1 := ReleaseCreature
                   (withCheckCreatureList
                      (setInCheckCreaturesVector h creature false) index
                      (kept ++ after)) creature).
      destruct (IH kept h1) as [I1 [I2 [I3 [I4 [I5 [I6 [I7 I8]]]]]]].
      { subst h1. cbn [ReleaseCreature withCheckCreatureList checkCreatureLists].
        apply updZ_same. }
      change (creatureCheck h1) with (creatureCheck h) in *.
      change (creatureReferences h1) with (creatureReferences h) in *.
      rewrite I1, I2, I3, I5.
      assert (Hflag : forall x, inCheckCreaturesVector h1 x
                                = if Nat.eqb x creature then false
                                  else inCheckCreaturesVector h x).
      { intros x. subst h1. reflexivity. }
      split; [| split; [| split; [| split; [| split; [| split; [| split]]]]]];
        try reflexivity.
      * intros k Hk. rewrite I4 by exact Hk. subst h1.
        cbn [ReleaseCreature withCheckCreatureList checkCreatureLists].
        apply updZ_other. exact Hk.
      * subst h1. cbn [ReleaseCreature withCheckCreatureList ToReleaseCreatures
                       setInCheckCreaturesVector].
        rewrite <- app_assoc. reflexivity.
      * intros x Hx.
        assert (Hne : x <> creature).
        { intros ->. destruct Hx as [Hx | Hx]; [congruence |].
          apply Hx. left. reflexivity. }
        rewrite I6, Hflag.
        -- apply Nat.eqb_neq in Hne. rewrite Hne. reflexivity.
        -- destruct Hx as [Hx | Hx]; [left; exact Hx |].
           right. intros Hin. apply Hx. right. exact Hin.
      * intros x Hx Hin.
        destruct (in_dec Nat.eq_dec x after) as [Hafter | Hafter];
          [apply I7; assumption |].
        destruct Hin as [<- | Hin]; [| contradiction].
        rewrite I6 by (right; exact Hafter).
        rewrite Hflag, Nat.eqb_refl. reflexivity.
      * intros x Hx. rewrite I8 by exact Hx. reflexivity.
Qed.

Lemma release_fold (l : list CreatureId) :
  forall h : Herd,
    let h' := fold_left (fun h creature => addCreatureReference h creature (-1))
                        l h in
    creatureCheck h' = creatureCheck h
    /\ inCheckCreaturesVector h' = inCheckCreaturesVector h
    /\ checkCreatureLists h' = checkCreatureLists h
    /\ thoughtOf h' = thoughtOf h
    /\ forall c, creatureReferences h' c
                 = creatureReferences h c - Z.of_nat (occurrences c l).
Proof.
  induction l as [| a l IH]; intros h; cbn [fold_left]; cbv zeta.
  - split; [| split; [| split; [| split]]]; try reflexivity.
    intros c. rewrite occurrences_nil. lia.
  - destruct (IH (addCreatureReference h a (-1))) as [H1 [H2 [H3 [H4 H5]]]].
    split; [| split; [| split; [| split]]]; try assumption.
    intros c. rewrite H5, occurrences_cons.
    unfold addCreatureReference. cbn [creatureReferences].
    destruct (Nat.eq_dec a c) as [-> | Hne].
    + rewrite upd_same. lia.
    + rewrite upd_other by (intros Hx; apply Hne; symmetry; exact Hx). lia.
Qed.

Lemma releaseCreatures_frame (h : Herd) :
  creatureCheck (releaseCreatures h) = creatureCheck h
  /\ inCheckCreaturesVector (releaseCreatures h) = inCheckCreaturesVector h
  /\ checkCreatureLists (releaseCreatures h) = checkCreatureLists h
  /\ thoughtOf (releaseCreatures h) = thoughtOf h
  /\ ToReleaseCreatures (releaseCreatures h) = []
  /\ forall c, creatureReferences (releaseCreatures h) c
               = creatureReferences h c
                 - Z.of_nat (occurrences c (ToReleaseCreatures h)).
Proof.
  destruct (release_fold (ToReleaseCreatures h) h) as [H1 [H2 [H3 [H4 H5]]]].
  unfold releaseCreatures. cbv zeta.
  cbn [creatureCheck inCheckCreaturesVector checkCreatureLists thoughtOf
       ToReleaseCreatures creatureReferences].
  repeat split; assumption.
Qed.

Lemma occurrences_filter_out (c : CreatureId) (f : CreatureId -> bool)
      (l : list CreatureId) :
  f c = false -> occurrences c (filter f l) = 0%nat.
Proof.
  intros Hf. apply occurrences_not_In. intros Hin.
  apply filter_In in Hin. destruct Hin as [_ Hin]. congruence.
Qed.

Lemma occurrences_filter_in (c : CreatureId) (f : CreatureId -> bool)
      (l : list CreatureId) :
  f c = true -> occurrences c (filter f l) = occurrences c l.
Proof.
  intros Hf. induction l as [| a l IH]; [reflexivity |].
  simpl. destruct (f a) eqn:Hfa.
  - rewrite !occurrences_cons, IH. reflexivity.
  - rewrite occurrences_cons, IH.
    destruct (Nat.eq_dec a c) as [-> | _]; [congruence | reflexivity].
Qed.

(** X17: the three operations on the check lists keep every creature in at most
    one list, once, and in one exactly when its flag says so. *)
Theorem check_lists_enrol_once (w : World) (h : Herd) (creature : CreatureId)
        (slot index : Z) :
  enrolledOnce h ->
  enrolledOnce (addCreatureCheck h creature slot)
  /\ enrolledOnce (removeCreatureCheck h creature)
  /\ enrolledOnce (snd (checkCreatures EVENT_CREATURECOUNT isDead w h index)).
Proof.
  intros Hinv. split; [apply enrolledOnce_add; exact Hinv |].
  split; [apply enrolledOnce_remove; exact Hinv |].
  unfold checkCreatures. cbn [snd].
  destruct (checkCreaturesLoop_filters index (checkCreatureLists h index) [] h
              eq_refl) as [I1 [I2 [I3 [I4 [I5 [I6 [I7 I8]]]]]]].
  set (h1 := checkCreaturesLoop isDead index [] (checkCreatureLists h index) h) in *.
  destruct (releaseCreatures_frame h1) as [R1 [R2 [R3 _]]].
  apply (enrolledOnce_lists h1); [exact R2 | exact R3 |].
  simpl in I3.
  assert (Hocc : forall c k,
             occurrences c (checkCreatureLists h1 k)
             = if (k =? index) && negb (creatureCheck h c) then 0%nat
               else occurrences c (checkCreatureLists h k)).
  { intros c k. destruct (Z.eq_dec k index) as [-> | Hk].
    - rewrite Z.eqb_refl, I3. simpl.
      destruct (creatureCheck h c) eqn:Hc; simpl.
      + apply occurrences_filter_in. exact Hc.
      + apply occurrences_filter_out. exact Hc.
    - apply Z.eqb_neq in Hk. rewrite Hk. simpl.
      apply Z.eqb_neq in Hk. rewrite I4 by exact Hk. reflexivity. }
  intros c. pose proof (Hinv c) as Hc.
  destruct (creatureCheck h c) eqn:Hcheck.
  - rewrite I6 by (left; exact Hcheck).
    destruct (inCheckCreaturesVector h c).
    + destruct Hc as [k [Hone Hother]]. exists k. split.
      * rewrite Hocc, Hcheck, andb_false_r. exact Hone.
      * intros k' Hk'. apply occurrences_not_In.
        rewrite Hocc, Hcheck, andb_false_r. apply occurrences_not_In.
        apply Hother. exact Hk'.
    + intros k. apply occurrences_not_In.
      rewrite Hocc, Hcheck, andb_false_r. apply occurrences_not_In. apply Hc.
  - destruct (in_dec Nat.eq_dec c (checkCreatureLists h index)) as [Hin | Hout].
    + rewrite I7 by assumption.
      destruct (inCheckCreaturesVector h c); [| exfalso; apply (Hc index); exact Hin].
      destruct Hc as [k [Hone Hother]].
      assert (k = index).
      { destruct (Z.eq_dec k index) as [-> | Hk]; [reflexivity |].
        exfalso. apply (Hother index); [congruence | exact Hin]. }
      subst k. intros k. apply occurrences_not_In. rewrite Hocc, Hcheck. simpl.
      destruct (k =? index) eqn:Hk; simpl; [reflexivity |].
      apply occurrences_not_In. apply Hother. apply Z.eqb_neq. exact Hk.
    + rewrite I6 by (right; exact Hout).
      assert (Hsame : forall k, occurrences c (checkCreatureLists h1 k)
                                = occurrences c (checkCreatureLists h k)).
      { intros k. rewrite Hocc, Hcheck. simpl.
        destruct (k =? index) eqn:Hk; simpl; [| reflexivity].
        apply Z.eqb_eq in Hk. subst k. symmetry.
        apply occurrences_not_In. exact Hout. }
      destruct (inCheckCreaturesVector h c).
      * destruct Hc as [k [Hone Hother]]. exists k. split.
        -- rewrite Hsame. exact Hone.
        -- intros k' Hk'. apply occurrences_not_In. rewrite Hsame.
           apply occurrences_not_In. apply Hother. exact Hk'.
      * intros k. apply occurrences_not_In. rewrite Hsame.
        apply occurrences_not_In. apply Hc.
Qed.

(** X18: [checkCreatures] keeps in the list it visits the creatures whose
    [creatureCheck] is set, in their order; a creature of that list whose
    check has been removed is taken out, its reference is given back, and
    none of its callbacks is called. *)
Theorem checkCreatures_drops_the_unchecked (w : World) (h : Herd) (index : Z)
        (c : CreatureId) :
  let h' := snd (checkCreatures EVENT_CREATURECOUNT isDead w h index) in
  enrolledOnce h ->
  In c (checkCreatureLists h index) ->
  creatureCheck h c = false ->
  checkCreatureLists h' index
  = filter (creatureCheck h) (checkCreatureLists h index)
  /\ (forall k, k <> index -> checkCreatureLists h' k = checkCreatureLists h k)
  /\ inCheckCreaturesVector h' c = false
  /\ (forall k, ~ In c (checkCreatureLists h' k))
  /\ creatureReferences h' c
     = creatureReferences h c
       - Z.of_nat (occurrences c (ToReleaseCreatures h)) - 1
  /\ ToReleaseCreatures h' = []
  /\ occurrences c (thoughtOf h') = occurrences c (thoughtOf h).
Proof.
  intros h' Hinv Hin Hcheck. subst h'. unfold checkCreatures. cbn [snd].
  destruct (checkCreaturesLoop_filters index (checkCreatureLists h index) [] h
              eq_refl) as [I1 [I2 [I3 [I4 [I5 [I6 [I7 I8]]]]]]].
  set (h1 := checkCreaturesLoop isDead index [] (checkCreatureLists h index) h) in *.
  destruct (releaseCreatures_frame h1) as [R1 [R2 [R3 [R4 [R5 R6]]]]].
  simpl in I3. rewrite R2, R3, R4, R5, R6, I2, I3, I5.
  pose proof (Hinv c) as Hc.
  destruct (inCheckCreaturesVector h c); [| exfalso; apply (Hc index); exact Hin].
  destruct Hc as [k [Hone Hother]].
  assert (k = index).
  { destruct (Z.eq_dec k index) as [-> | Hk]; [reflexivity |].
    exfalso. apply (Hother index); [congruence | exact Hin]. }
  subst k.
  split; [reflexivity |]. split; [exact I4 |].
  split; [apply I7; assumption |]. split; [| split; [| split]].
  - intros k. destruct (Z.eq_dec k index) as [-> | Hk].
    + rewrite I3. intros Hx. apply filter_In in Hx. destruct Hx. congruence.
    + rewrite I4 by exact Hk. apply Hother. exact Hk.
  - rewrite occurrences_append.
    rewrite (occurrences_filter_in c (fun x => negb (creatureCheck h x)))
      by (rewrite Hcheck; reflexivity).
    rewrite Hone. lia.
  - reflexivity.
  - apply I8. exact Hcheck.
Qed.

End CheckFacts.

(** ** The trade between two players *)

Lemma isTradeState_true (a b : tradestate_t) : isTradeState a b = true <-> a = b.
Proof.
  unfold isTradeState. destruct (tradestate_eq_dec a b);
    split; intros; try assumption; try reflexivity; try discriminate; contradiction.
Qed.

Lemma isTradeState_false (a b : tradestate_t) : isTradeState a b = false <-> a <> b.
Proof.
  unfold isTradeState. destruct (tradestate_eq_dec a b);
    split; intros; try assumption; try reflexivity; try discriminate; contradiction.
Qed.

Lemma samePlayer_true (a : option nat) (b : nat) : samePlayer a b = true <-> a = Some b.
Proof.
  destruct a as [p |]; simpl.
  - rewrite Nat.eqb_eq. split; [intros ->; reflexivity | intros [= ->]; reflexivity].
  - split; discriminate.
Qed.

(** The traders after [internalStartTrade] has accepted the offer. *)
Lemma internalStartTrade_traders (w : World) (m : Market) (player partner : nat)
      (item : ItemId) :
  fst (fst (internalStartTrade w m player partner item)) = true ->
  let m' := snd (internalStartTrade w m player partner item) in
  traders m' player
  = mkTrader TRADE_INITIATED (Some partner) (Some item)
  /\ (partner <> player ->
      traders m' partner
      = if isTradeState (tradeState (traders m partner)) TRADE_NONE
        then mkTrader TRADE_ACKNOWLEDGE (Some player)
                      (tradeItem (traders m partner))
        else traders m partner)
  /\ (forall r, r <> player -> r <> partner -> traders m' r = traders m r)
  /\ tradeItems m' = upd (tradeItems m) item (Some player).
Proof.
  unfold internalStartTrade. cbv zeta.
  destruct (negb (isTradeState (tradeState (traders m player)) TRADE_NONE) && _);
    [discriminate |].
  destruct (negb (isTradeState (tradeState (traders m partner)) TRADE_NONE) && _);
    [discriminate |].
  intros _.
  cbn [tradeEvent setTradeItems setTrader traders tradeItems].
  destruct (Nat.eq_dec partner player) as [-> | Hne].
  - rewrite upd_same. cbn [tradeState].
    change (isTradeState TRADE_INITIATED TRADE_NONE) with false.
    cbn [snd tradeEvent setTradeItems setTrader traders tradeItems].
    rewrite upd_same. repeat split; try contradiction.
    intros r Hr _. apply upd_other. exact Hr.
  - rewrite (upd_other _ _ _ _ Hne).
    destruct (isTradeState (tradeState (traders m partner)) TRADE_NONE);
      cbn [snd tradeEvent setTradeItems setTrader traders tradeItems].
    + rewrite upd_same, (upd_other _ partner player).
      2: { intros Hx. apply Hne. symmetry. exact Hx. }
      rewrite upd_same. repeat split.
      intros r Hr1 Hr2. rewrite !upd_other by assumption. reflexivity.
    + rewrite upd_same, (upd_other _ _ _ _ Hne). repeat split.
      intros r Hr1 Hr2. rewrite !upd_other by assumption. reflexivity.
Qed.

Lemma internalStartTrade_refused (w : World) (m : Market) (player partner : nat)
      (item : ItemId) :
  fst (fst (internalStartTrade w m player partner item)) = false ->
  traders (snd (internalStartTrade w m player partner item)) = traders m
  /\ tradeItems (snd (internalStartTrade w m player partner item)) = tradeItems m
  /\ snd (fst (internalStartTrade w m player partner item)) = w.
Proof.
  unfold internalStartTrade. cbv zeta.
  destruct (negb (isTradeState (tradeState (traders m player)) TRADE_NONE) && _);
    [intros _; repeat split |].
  destruct (negb (isTradeState (tradeState (traders m partner)) TRADE_NONE) && _);
    [intros _; repeat split |].
  cbn [tradeEvent setTradeItems setTrader traders tradeItems].
  destruct (isTradeState _ TRADE_NONE); discriminate.
Qed.

(** The conditions under which [internalStartTrade] accepts. *)
Lemma internalStartTrade_accepts (w : World) (m : Market) (player partner : nat)
      (item : ItemId) :
  fst (fst (internalStartTrade w m player partner item)) = true ->
  (tradeState (traders m player) = TRADE_NONE
   \/ (tradeState (traders m player) = TRADE_ACKNOWLEDGE
       /\ tradePartner (traders m player) = Some partner))
  /\ (tradeState (traders m partner) = TRADE_NONE
      \/ tradePartner (traders m partner) = Some player).
Proof.
  unfold internalStartTrade. cbv zeta.
  destruct (isTradeState (tradeState (traders m player)) TRADE_NONE) eqn:Hp;
    cbn [negb andb].
  - destruct (isTradeState (tradeState (traders m partner)) TRADE_NONE) eqn:Hq;
      cbn [negb andb].
    + intros _. apply isTradeState_true in Hp, Hq. auto.
    + destruct (samePlayer (tradePartner (traders m partner)) player) eqn:Hs;
        cbn [negb]; [| discriminate].
      intros _. apply isTradeState_true in Hp. apply samePlayer_true in Hs. auto.
  - destruct (isTradeState (tradeState (traders m player)) TRADE_ACKNOWLEDGE
              && samePlayer (tradePartner (traders m player)) partner) eqn:Hack;
      cbn [negb]; [| discriminate].
    apply andb_true_iff in Hack. destruct Hack as [Hack Hs].
    apply isTradeState_true in Hack. apply samePlayer_true in Hs.
    destruct (isTradeState (tradeState (traders m partner)) TRADE_NONE) eqn:Hq;
      cbn [negb andb].
    + intros _. apply isTradeState_true in Hq. auto.
    + destruct (samePlayer (tradePartner (traders m partner)) player) eqn:Hs';
        cbn [negb]; [| discriminate].
      intros _. apply samePlayer_true in Hs'. auto.
Qed.

Lemma tradePaired_start (w : World) (m : Market) (player partner : nat)
      (item : ItemId) :
  tradePaired m ->
  tradePaired (snd (internalStartTrade w m player partner item)).
Proof.
  intros Hinv.
  destruct (fst (fst (internalStartTrade w m player partner item))) eqn:Hok.
  2: { destruct (internalStartTrade_refused _ _ _ _ _ Hok) as [Ht _].
       intros p. rewrite Ht. apply Hinv. }
  destruct (internalStartTrade_accepts _ _ _ _ _ Hok) as [Hp Hq].
  destruct (internalStartTrade_traders _ _ _ _ _ Hok) as [T1 [T2 [T3 _]]].
  set (m' := snd (internalStartTrade w m player partner item)) in *.
  destruct (Hinv player) as [P1 [P2 P3]].
  destruct (Hinv partner) as [Q1 [Q2 Q3]].
  (* the partner of the offering player names that player afterwards *)
  assert (Hpartner : partner <> player ->
                     tradePartner (traders m' partner) = Some player
                     /\ tradeState (traders m' partner) <> TRADE_NONE
                     /\ (isTradeState (tradeState (traders m partner)) TRADE_NONE
                         = false -> traders m' partner = traders m partner)).
  { intros Hne. rewrite (T2 Hne).
    destruct (isTradeState (tradeState (traders m partner)) TRADE_NONE) eqn:Hst.
    - repeat split; try discriminate.
    - apply isTradeState_false in Hst.
      destruct Hq as [Hq | Hq]; [contradiction |].
      repeat split; try assumption. }
  (* nobody else had one of the two as partner *)
  assert (Hothers : forall r, r <> player -> r <> partner ->
                      tradePartner (traders m r) <> Some player
                      /\ tradePartner (traders m r) <> Some partner).
  { intros r Hr1 Hr2. destruct (Hinv r) as [R1 _]. split; intros Hx.
    - apply R1 in Hx.
      destruct Hp as [Hp | [_ Hp]].
      + apply P2 in Hp. congruence.
      + congruence.
    - apply R1 in Hx.
      destruct Hq as [Hq | Hq].
      + apply Q2 in Hq. congruence.
      + congruence. }
  intros p.
  destruct (Nat.eq_dec p player) as [-> | Hp1].
  - rewrite T1. cbn [tradePartner tradeState tradeItem].
    split; [| split; [split; discriminate | discriminate]].
    intros q [= <-].
    destruct (Nat.eq_dec partner player) as [-> | Hne].
    + rewrite T1. reflexivity.
    + apply Hpartner. exact Hne.
  - destruct (Nat.eq_dec p partner) as [-> | Hp2].
    + destruct (Hpartner Hp1) as [H1 [H2 H3]].
      rewrite (T2 Hp1).
      destruct (isTradeState (tradeState (traders m partner)) TRADE_NONE) eqn:Hst.
      * cbn [tradePartner tradeState tradeItem].
        split; [| split; [split; discriminate | discriminate]].
        intros q [= <-]. rewrite T1. reflexivity.
      * split; [| split; [exact Q2 | exact Q3]].
        intros q Hq'.
        assert (q = player).
        { apply isTradeState_false in Hst.
          destruct Hq as [Hq | Hq]; [contradiction | congruence]. }
        subst q. rewrite T1. reflexivity.
    + rewrite (T3 p Hp1 Hp2). destruct (Hinv p) as [R1 [R2 R3]].
      destruct (Hothers p Hp1 Hp2) as [O1 O2].
      split; [| split; assumption].
      intros q Hq'.
      assert (q <> player) by congruence.
      assert (q <> partner) by congruence.
      rewrite T3 by assumption. apply R1. exact Hq'.
Qed.

Lemma closeTradeOf_traders (w : World) (m : Market) (player : nat)
      (sendCancel : bool) (r : nat) :
  traders (snd (closeTradeOf w m player sendCancel)) r
  = upd (traders m) player (mkTrader TRADE_NONE None None) r.
Proof.
  unfold closeTradeOf.
  destruct (tradeItem (traders m player)) as [item |] eqn:Hitem;
    [destruct (tradeItems m item) |];
    destruct sendCancel; simpl; unfold upd; rewrite ?Nat.eqb_refl; simpl;
    rewrite ?Hitem; destruct (Nat.eqb r player); reflexivity.
Qed.

Lemma tradePaired_close (w : World) (m : Market) (player : nat)
      (sendCancel : bool) :
  tradePaired m ->
  tradePaired (snd (internalCloseTrade w m player sendCancel)).
Proof.
  intros Hinv. unfold internalCloseTrade. cbv zeta.
  destruct (_ || _); [exact Hinv |].
  destruct (closeTradeOf w m player sendCancel) as [w1 m1] eqn:Hfirst.
  assert (T1 : forall r, traders m1 r
                         = upd (traders m) player (mkTrader TRADE_NONE None None) r).
  { intros r. rewrite <- (closeTradeOf_traders w m player sendCancel r), Hfirst.
    reflexivity. }
  destruct (Hinv player) as [P1 [P2 P3]].
  destruct (tradePartner (traders m player)) as [q |] eqn:Hq.
  - assert (T2 : forall r, traders (snd (closeTradeOf w1 m1 q sendCancel)) r
                           = upd (upd (traders m) player
                                      (mkTrader TRADE_NONE None None))
                                 q (mkTrader TRADE_NONE None None) r).
    { intros r. rewrite closeTradeOf_traders. unfold upd.
      destruct (Nat.eqb r q); [reflexivity |]. rewrite T1. reflexivity. }
    pose proof (P1 q eq_refl) as Hback.
    intros p. rewrite T2.
    destruct (Nat.eq_dec p q) as [-> | Hpq].
    { rewrite upd_same. cbn. repeat split; discriminate. }
    rewrite upd_other by exact Hpq.
    destruct (Nat.eq_dec p player) as [-> | Hpp].
    { rewrite upd_same. cbn. repeat split; discriminate. }
    rewrite upd_other by exact Hpp.
    destruct (Hinv p) as [R1 [R2 R3]].
    split; [| split; assumption].
    intros s Hs. rewrite T2.
    assert (s <> q).
    { intros ->. apply R1 in Hs. congruence. }
    assert (s <> player).
    { intros ->. apply R1 in Hs. congruence. }
    rewrite !upd_other by assumption. apply R1. exact Hs.
  - intros p. rewrite T1.
    destruct (Nat.eq_dec p player) as [-> | Hpp].
    { rewrite upd_same. cbn. repeat split; discriminate. }
    rewrite upd_other by exact Hpp.
    destruct (Hinv p) as [R1 [R2 R3]].
    split; [| split; assumption].
    intros s Hs. rewrite T1.
    assert (s <> player).
    { intros ->. apply R1 in Hs. congruence. }
    rewrite !upd_other by assumption. apply R1. exact Hs.
Qed.

(** X20: partners name each other before and after a trade is offered or
    closed, and a player who is not trading has neither partner nor
    offer. *)
Theorem trade_partners_stay_paired (w : World) (m : Market)
        (player partner : nat) (item : ItemId) (sendCancel : bool) :
  tradePaired m ->
  tradePaired (snd (internalStartTrade w m player partner item))
  /\ tradePaired (snd (internalCloseTrade w m player sendCancel)).
Proof.
  intros Hinv. split.
  - apply tradePaired_start. exact Hinv.
  - apply tradePaired_close. exact Hinv.
Qed.

Lemma trader_without_trade (m : Market) (p : nat) :
  tradePaired m -> tradeState (traders m p) = TRADE_NONE ->
  traders m p = mkTrader TRADE_NONE None None.
Proof.
  intros Hinv Hnone. destruct (Hinv p) as [_ [H2 H3]].
  apply H2 in Hnone as Hpartner. apply H3 in Hnone as Hitem.
  destruct (traders m p) as [s q i]. simpl in *. congruence.
Qed.

(** What [closeTradeOf] does apart from the traders. *)
Lemma closeTradeOf_offer (w : World) (m : Market) (player : nat)
      (sendCancel : bool) :
  let r := closeTradeOf w m player sendCancel in
  match tradeItem (traders m player) with
  | Some item =>
      match tradeItems m item with
      | Some _ => fst r = ReleaseItem w item
                  /\ tradeItems (snd r) = upd (tradeItems m) item None
      | None => fst r = w /\ tradeItems (snd r) = tradeItems m
      end
  | None => fst r = w /\ tradeItems (snd r) = tradeItems m
  end.
Proof.
  unfold closeTradeOf.
  destruct (tradeItem (traders m player)) as [item |];
    [destruct (tradeItems m item) |];
    destruct sendCancel; simpl; split; reflexivity.
Qed.

(** X21: a trade that has been offered and is closed by one of the two players
    leaves both without a trade and the item off the list of the trade
    items; the reference that the offer took is given back through
    [ReleaseItem]. *)
Theorem offered_trade_closes_without_trace (w : World) (m : Market)
        (player partner closer : nat) (item : ItemId) (sendCancel : bool) :
  let started := internalStartTrade w m player partner item in
  let closed := internalCloseTrade (snd (fst started)) (snd started) closer
                                   sendCancel in
  tradePaired m ->
  player <> partner ->
  tradeState (traders m player) = TRADE_NONE ->
  tradeState (traders m partner) = TRADE_NONE ->
  tradeItems m item = None ->
  closer = player \/ closer = partner ->
  fst (fst started) = true
  /\ (forall r, traders (snd closed) r = traders m r)
  /\ (forall i, tradeItems (snd closed) i = tradeItems m i)
  /\ (forall j, items (fst closed) j
                = if Nat.eqb j item then incrementReferenceCounter (items w item)
                  else items w j)
  /\ ToReleaseItems (fst closed) = ToReleaseItems w ++ [item].
Proof.
  intros started closed Hinv Hne Hp Hq Hfree Hcloser.
  pose proof (trader_without_trade m player Hinv Hp) as Ep.
  pose proof (trader_without_trade m partner Hinv Hq) as Eq.
  assert (Hok : fst (fst started) = true).
  { subst started. unfold internalStartTrade. cbv zeta. rewrite Ep, Eq. simpl.
    unfold upd. destruct (Nat.eqb partner player) eqn:Hx.
    - apply Nat.eqb_eq in Hx. congruence.
    - rewrite Eq. reflexivity. }
  split; [exact Hok |].
  assert (Hne' : partner <> player) by congruence.
  destruct (internalStartTrade_traders w m player partner item Hok)
    as [T1 [T2 [T3 T4]]].
  specialize (T2 Hne'). rewrite Eq in T2. simpl in T2.
  assert (Hw : snd (fst started)
               = withItems w (upd (items w) item
                                  (incrementReferenceCounter (items w item)))).
  { subst started. unfold internalStartTrade. cbv zeta. rewrite Ep, Eq. simpl.
    unfold upd. destruct (Nat.eqb partner player) eqn:Hx.
    - apply Nat.eqb_eq in Hx. congruence.
    - rewrite Eq. reflexivity. }
  fold started in T1, T2, T3, T4.
  set (w1 := snd (fst started)) in *. set (m1 := snd started) in *.
  assert (Hitems1 : tradeItems m1 item = Some player).
  { rewrite T4. apply upd_same. }
  (* closing the two sides, in either order *)
  assert (Hboth : forall a b, (a = player /\ b = partner)
                              \/ (a = partner /\ b = player) ->
            let c1 := closeTradeOf w1 m1 a sendCancel in
            let c2 := closeTradeOf (fst c1) (snd c1) b sendCancel in
            (forall r, traders (snd c2) r = traders m r)
            /\ (forall i, tradeItems (snd c2) i = tradeItems m i)
            /\ fst c2 = ReleaseItem w1 item).
  { intros a b Hab c1 c2.
    pose proof (closeTradeOf_offer w1 m1 a sendCancel) as O1.
    pose proof (closeTradeOf_offer (fst c1) (snd c1) b sendCancel) as O2.
    fold c1 in O1. fold c2 in O2. cbv zeta in O1, O2.
    assert (Htr1 : forall r, traders (snd c1) r
                     = upd (traders m1) a (mkTrader TRADE_NONE None None) r).
    { intros r. apply closeTradeOf_traders. }
    assert (Htr2 : forall r, traders (snd c2) r
                     = upd (traders (snd c1)) b (mkTrader TRADE_NONE None None) r).
    { intros r. apply closeTradeOf_traders. }
    assert (Hfinal : forall r, traders (snd c2) r = traders m r).
    { intros r. rewrite Htr2. unfold upd at 1.
      destruct (Nat.eqb r b) eqn:Hrb.
      - apply Nat.eqb_eq in Hrb. subst r.
        destruct Hab as [[_ ->] | [_ ->]]; congruence.
      - rewrite Htr1. unfold upd.
        destruct (Nat.eqb r a) eqn:Hra.
        + apply Nat.eqb_eq in Hra. subst r.
          destruct Hab as [[-> _] | [-> _]]; congruence.
        + apply Nat.eqb_neq in Hrb, Hra. apply T3.
          * destruct Hab as [[-> ->] | [-> ->]]; assumption.
          * destruct Hab as [[-> ->] | [-> ->]]; assumption. }
    split; [exact Hfinal |].
    assert (Hclear : forall i, upd (upd (tradeItems m) item (Some player)) item
                                   None i = tradeItems m i).
    { intros i. unfold upd. destruct (Nat.eqb i item) eqn:Hi; [| reflexivity].
      apply Nat.eqb_eq in Hi. subst i. symmetry. exact Hfree. }
    destruct Hab as [[-> ->] | [-> ->]].
    - rewrite T1 in O1. cbn [tradeItem] in O1. rewrite Hitems1 in O1.
      destruct O1 as [O1w O1i].
      rewrite Htr1 in O2. rewrite upd_other in O2 by exact Hne'.
      rewrite T2 in O2. cbn [tradeItem] in O2.
      destruct O2 as [O2w O2i].
      split; [| rewrite O2w; exact O1w].
      intros i. rewrite O2i, O1i, T4. apply Hclear.
    - rewrite T2 in O1. cbn [tradeItem] in O1.
      destruct O1 as [O1w O1i].
      rewrite Htr1 in O2. rewrite upd_other in O2 by exact Hne.
      rewrite T1 in O2. cbn [tradeItem] in O2.
      rewrite O1i, Hitems1 in O2.
      destruct O2 as [O2w O2i].
      split; [| rewrite O2w, O1w; reflexivity].
      intros i. rewrite O2i, T4. apply Hclear. }
  assert (Hclosed : exists a b,
             ((a = player /\ b = partner) \/ (a = partner /\ b = player))
             /\ closed = closeTradeOf
                           (fst (closeTradeOf w1 m1 a sendCancel))
                           (snd (closeTradeOf w1 m1 a sendCancel)) b sendCancel).
  { subst closed. unfold internalCloseTrade. cbv zeta.
    destruct Hcloser as [-> | ->].
    - exists player, partner. split; [left; split; reflexivity |].
      rewrite T1. cbn [tradePartner tradeState]. rewrite T2. cbn [tradeState].
      change (isTradeState TRADE_ACKNOWLEDGE TRADE_TRANSFER) with false.
      change (isTradeState TRADE_INITIATED TRADE_TRANSFER) with false.
      cbn [orb].
      destruct (closeTradeOf w1 m1 player sendCancel); reflexivity.
    - exists partner, player. split; [right; split; reflexivity |].
      rewrite T2. cbn [tradePartner tradeState]. rewrite T1. cbn [tradeState].
      change (isTradeState TRADE_ACKNOWLEDGE TRADE_TRANSFER) with false.
      change (isTradeState TRADE_INITIATED TRADE_TRANSFER) with false.
      cbn [orb].
      destruct (closeTradeOf w1 m1 partner sendCancel); reflexivity. }
  destruct Hclosed as [a [b [Hab ->]]].
  destruct (Hboth a b Hab) as [B1 [B2 B3]].
  split; [exact B1 |]. split; [exact B2 |].
  rewrite B3, Hw. split; [| reflexivity].
  intros j. unfold ReleaseItem, withToReleaseItems, withItems. cbn [items].
  unfold upd. destruct (Nat.eqb j item); reflexivity.
Qed.

(** ** Money *)

Section MoneyFacts.

Context {K : Constants} {E : Externals} {B : MoneyExternals}.

Lemma internalAddItemTo_returns (w : World) (toCyl : option Cylinder)
      (item : option ItemId) (index flags : Z) :
  exists ret w', internalAddItemTo w toCyl item index flags false = Some (ret, w').
Proof.
  unfold internalAddItemTo.
  destruct toCyl as [c |], item as [i |].
  - destruct (internalAddItem_returns (S (Z.to_nat (count (items w i)))) w c i
                index flags 0 ltac:(lia)) as [r' [w' Hres]].
    rewrite Hres. eexists; eexists; reflexivity.
  - eexists; eexists; reflexivity.
  - eexists; eexists; reflexivity.
  - eexists; eexists; reflexivity.
Qed.

Lemma coinsWorth_app (a b : list Coins) :
  coinsWorth (a ++ b) = coinsWorth a + coinsWorth b.
Proof.
  unfold coinsWorth. induction a as [| c a IH]; simpl; [reflexivity |].
  rewrite IH. lia.
Qed.

(** Below 65536 coins the inner loop ends, with stacks of 1 to 100 coins
    that add up to the coins asked for. *)
Lemma addCoins_returns (fuel : nat) :
  forall (w : World) (cylinder : Cylinder) (worth id flags coins : Z)
         (made : list Coins),
    0 <= coins < 65536 -> coins <= 100 * Z.of_nat fuel ->
    exists w' batch,
      addCoins fuel w cylinder worth id flags coins made = Some (w', made ++ batch)
      /\ Forall (fun c => 1 <= coinCount c <= 100) batch
      /\ coinsWorth batch = worth * coins.
Proof.
  induction fuel as [| fuel IH]; intros w cylinder worth id flags coins made Hc Hf.
  - assert (coins = 0) by lia. subst coins. simpl.
    exists w, []. rewrite app_nil_r. repeat split; [constructor | simpl; lia].
  - cbn [addCoins].
    destruct (coins <=? 0) eqn:Hz.
    { apply Z.leb_le in Hz. assert (coins = 0) by lia. subst coins.
      exists w, []. rewrite app_nil_r. repeat split; [constructor | simpl; lia]. }
    apply Z.leb_gt in Hz.
    assert (H16 : to_uint16 coins = coins).
    { unfold to_uint16. apply Z.mod_small. change (2 ^ 16) with 65536. lia. }
    rewrite H16.
    set (n := Z.min 100 coins).
    assert (Hn : 1 <= n <= 100 /\ n <= coins) by (unfold n; lia).
    destruct (CreateItem w id n) as [remaindItem w1].
    destruct (internalAddItemTo_returns w1 (Some cylinder) remaindItem
                INDEX_WHEREEVER flags) as [ret [w2 Hadd]].
    rewrite Hadd.
    assert (Hnext : exists w3,
               (if negb (isNoError ret)
                then match internalAddItemTo w2 (cylinderTile w2 cylinder)
                                             remaindItem INDEX_WHEREEVER
                                             FLAG_NOLIMIT false with
                     | Some (_, w) => Some w
                     | None => None
                     end
                else Some w2) = Some w3).
    { destruct (negb (isNoError ret)); [| exists w2; reflexivity].
      destruct (internalAddItemTo_returns w2 (cylinderTile w2 cylinder)
                  remaindItem INDEX_WHEREEVER FLAG_NOLIMIT) as [r3 [w3 H3]].
      rewrite H3. exists w3. reflexivity. }
    destruct Hnext as [w3 Hnext]. rewrite Hnext.
    assert (H32 : to_uint32 (coins - n) = coins - n).
    { unfold to_uint32. apply Z.mod_small. change (2 ^ 32) with 4294967296. lia. }
    rewrite H32.
    destruct (IH w3 cylinder worth id flags (coins - n)
                 (made ++ [mkCoins worth id n]) ltac:(lia) ltac:(lia))
      as [w' [batch [Hres [Hall Hsum]]]].
    exists w', (mkCoins worth id n :: batch).
    rewrite Hres, <- app_assoc. split; [reflexivity |].
    split.
    + constructor; [simpl; lia | exact Hall].
    + unfold coinsWorth in *. simpl. rewrite Hsum. lia.
Qed.

Lemma changeLeft_bounds (currencies : list (Z * Z)) :
  forall money,
    0 <= money ->
    (forall c, In c currencies -> 0 < fst c) ->
    0 <= changeLeft currencies money <= money.
Proof.
  induction currencies as [| [worth id] rest IH]; intros money Hm Hpos; simpl.
  - lia.
  - assert (0 < worth) by (apply (Hpos (worth, id)); left; reflexivity).
    pose proof (Z.mod_pos_bound money worth ltac:(lia)).
    pose proof (Z.mod_le money worth ltac:(lia) ltac:(lia)).
    unfold changeLeft in *. simpl.
    specialize (IH (money mod worth) ltac:(lia)
                   (fun c Hc => Hpos c (or_intror Hc))).
    lia.
Qed.

Lemma addMoneyLoop_returns (fuel : nat) (cylinder : Cylinder) (flags : Z)
      (currencies : list (Z * Z)) :
  forall (w : World) (money : Z) (made : list Coins),
    (656 <= fuel)%nat ->
    0 <= money < 2 ^ 64 ->
    (forall c, In c currencies -> 0 < fst c) ->
    Forall (fun k => k < 65536) (coinsNeeded currencies money) ->
    exists w' batch,
      addMoneyLoop fuel w cylinder currencies money flags made
      = Some (w', changeLeft currencies money, made ++ batch)
      /\ Forall (fun c => 1 <= coinCount c <= 100) batch
      /\ coinsWorth batch + changeLeft currencies money = money.
Proof.
  induction currencies as [| [worth id] rest IH];
    intros w money made Hfuel Hm Hpos Hneed.
  - exists w, []. simpl. rewrite app_nil_r.
    split; [reflexivity |]. split; [constructor |].
    unfold changeLeft, coinsWorth. simpl. lia.
  - pose proof (Hpos (worth, id) (or_introl eq_refl)) as Hw. simpl in Hw.
    cbn [coinsNeeded] in Hneed.
    pose proof (Forall_inv Hneed) as Hq.
    pose proof (Forall_inv_tail Hneed) as Hrest.
    cbn beta in Hq.
    cbn [addMoneyLoop].
    destruct (worth =? 0) eqn:Hz; [apply Z.eqb_eq in Hz; lia |].
    assert (Hq0 : 0 <= money / worth) by (apply Z.div_pos; lia).
    assert (H32 : to_uint32 (money / worth) = money / worth).
    { unfold to_uint32. apply Z.mod_small. change (2 ^ 32) with 4294967296. lia. }
    rewrite H32.
    pose proof (Z.mod_pos_bound money worth Hw) as Hmod.
    pose proof (Z.mod_le money worth ltac:(lia) Hw) as Hmodle.
    assert (Hpos' : forall c, In c rest -> 0 < fst c)
      by (intros c Hc; apply Hpos; right; exact Hc).
    assert (Hleft : changeLeft ((worth, id) :: rest) money
                    = changeLeft rest (money mod worth)) by reflexivity.
    destruct (money / worth <=? 0) eqn:Hnone.
    + apply Z.leb_le in Hnone. assert (Hzero : money / worth = 0) by lia.
      assert (Hsmall : money mod worth = money).
      { pose proof (Z.div_mod money worth ltac:(lia)). rewrite Hzero in *. lia. }
      rewrite Hsmall in Hrest.
      destruct (IH w money made Hfuel Hm Hpos' Hrest)
        as [w' [batch [Hres [Hall Hsum]]]].
      exists w', batch. rewrite Hleft, Hsmall. repeat split; assumption.
    + assert (H64 : to_uint64 (money - money / worth * worth) = money mod worth).
      { unfold to_uint64. rewrite Z.mod_small.
        - pose proof (Z.div_mod money worth ltac:(lia)). lia.
        - pose proof (Z.div_mod money worth ltac:(lia)). lia. }
      rewrite H64.
      destruct (addCoins_returns fuel w cylinder worth id flags (money / worth)
                  made ltac:(lia) ltac:(lia))
        as [w1 [batch1 [Hcoins [Hall1 Hsum1]]]].
      rewrite Hcoins.
      destruct (IH w1 (money mod worth) (made ++ batch1) Hfuel ltac:(lia) Hpos'
                   Hrest)
        as [w' [batch [Hres [Hall Hsum]]]].
      exists w', (batch1 ++ batch).
      rewrite Hres, Hleft, <- app_assoc. split; [reflexivity |].
      split; [apply Forall_app; split; assumption |].
      rewrite coinsWorth_app, Hsum1.
      pose proof (Z.div_mod money worth ltac:(lia)). lia.
Qed.

Lemma changeLeft_unit (currencies : list (Z * Z)) :
  forall money,
    0 <= money ->
    (forall c, In c currencies -> 0 < fst c) ->
    (exists id, In (1, id) currencies) ->
    changeLeft currencies money = 0.
Proof.
  induction currencies as [| [worth id] rest IH]; intros money Hm Hpos [u Hu].
  - destruct Hu.
  - assert (0 < worth) by (apply (Hpos (worth, id)); left; reflexivity).
    change (changeLeft ((worth, id) :: rest) money)
      with (changeLeft rest (money mod worth)).
    destruct Hu as [Hu | Hu].
    + injection Hu as -> _. rewrite Z.mod_1_r.
      pose proof (changeLeft_bounds rest 0 ltac:(lia)
                    (fun c Hc => Hpos c (or_intror Hc))). lia.
    + apply IH.
      * apply Z.mod_pos_bound. lia.
      * intros c Hc. apply Hpos. right. exact Hc.
      * exists u. exact Hu.
Qed.

(** X13: while no currency needs 65536 coins or more of what the
    currencies before it have left, [addMoney] ends, asks for stacks of 1
    to 100 coins, and the stacks are worth the money less what no currency
    divides: nothing, when one of the currencies is worth 1. *)
Theorem addMoney_makes_the_amount (fuel : nat) (w : World) (cylinder : Cylinder)
        (money flags : Z) :
  (656 <= fuel)%nat ->
  0 <= money < 2 ^ 64 ->
  (forall c, In c currencyItems -> 0 < fst c) ->
  Forall (fun k => k < 65536) (coinsNeeded currencyItems money) ->
  exists w' made,
    addMoney fuel w cylinder money flags
    = Some (w', changeLeft currencyItems money, made)
    /\ Forall (fun c => 1 <= coinCount c <= 100) made
    /\ coinsWorth made + changeLeft currencyItems money = money
    /\ ((exists id, In (1, id) currencyItems) -> coinsWorth made = money).
Proof.
  intros Hfuel Hm Hcur Hcoins. unfold addMoney.
  assert (Hunit : forall made, coinsWorth made + changeLeft currencyItems money
                               = money ->
            (exists id, In (1, id) currencyItems) -> coinsWorth made = money).
  { intros made Hsum Hu.
    rewrite (changeLeft_unit currencyItems money) in Hsum; [lia | lia | | exact Hu].
    exact Hcur. }
  destruct (money =? 0) eqn:Hz.
  - apply Z.eqb_eq in Hz. subst money.
    pose proof (changeLeft_bounds currencyItems 0 ltac:(lia) Hcur) as Hb.
    assert (Hzero : changeLeft currencyItems 0 = 0) by lia.
    exists w, []. rewrite Hzero. repeat split; try constructor.
  - destruct (addMoneyLoop_returns fuel cylinder flags currencyItems w money []
                Hfuel Hm Hcur Hcoins) as [w' [batch [Hres [Hall Hsum]]]].
    exists w', batch. rewrite Hres. simpl.
    split; [reflexivity |]. split; [exact Hall |]. split; [exact Hsum |].
    apply Hunit. exact Hsum.
Qed.

(** From 65536 coins on the inner loop does not end: the count of the
    next stack is taken from the low 16 bits of the coins that are left,
    so that a multiple of 65536 is reached and stays. *)
Lemma addCoins_never_returns (fuel : nat) :
  forall (w : World) (cylinder : Cylinder) (worth id flags coins : Z)
         (made : list Coins),
    65536 <= coins < 2 ^ 32 ->
    addCoins fuel w cylinder worth id flags coins made = None.
Proof.
  induction fuel as [| fuel IH]; intros w cylinder worth id flags coins made Hc;
    cbn [addCoins];
    (destruct (coins <=? 0) eqn:Hz; [apply Z.leb_le in Hz; lia |]);
    [reflexivity |].
  set (n := Z.min 100 (to_uint16 coins)).
  destruct (CreateItem w id n) as [remaindItem w1].
  destruct (internalAddItemTo w1 (Some cylinder) remaindItem INDEX_WHEREEVER
                              flags false) as [[ret w2] |]; [| reflexivity].
  match goal with
  | |- match ?x with Some _ => _ | None => None end = None =>
      destruct x as [w3 |]; [| reflexivity]
  end.
  apply IH.
  assert (Hlow : 0 <= to_uint16 coins <= coins - 65536 * (coins / 65536)).
  { unfold to_uint16. change (2 ^ 16) with 65536.
    pose proof (Z.mod_pos_bound coins 65536 ltac:(lia)).
    pose proof (Z.div_mod coins 65536 ltac:(lia)). lia. }
  assert (Hq : 1 <= coins / 65536).
  { apply Z.div_le_lower_bound; lia. }
  assert (Hrange : 65536 <= coins - n < 2 ^ 32) by (unfold n; lia).
  unfold to_uint32. rewrite Z.mod_small by lia. exact Hrange.
Qed.

(** X14: when the first currency needs 65536 coins or more, [addMoney]
    has no result however much fuel the loop is given: the count of a
    stack is cut to 16 bits, comes to 0, and the coins left stay the
    same. *)
Theorem addMoney_hangs_on_65536_coins (fuel : nat) (w : World)
        (cylinder : Cylinder) (money flags worth id : Z)
        (rest : list (Z * Z)) :
  currencyItems = (worth, id) :: rest ->
  0 < worth ->
  0 < money < 2 ^ 64 ->
  65536 <= to_uint32 (money / worth) ->
  addMoney fuel w cylinder money flags = None.
Proof.
  intros Hcur Hw Hm Hcoins. unfold addMoney.
  destruct (money =? 0) eqn:Hz; [apply Z.eqb_eq in Hz; lia |].
  rewrite Hcur. cbn [addMoneyLoop].
  destruct (worth =? 0) eqn:Hwz; [apply Z.eqb_eq in Hwz; lia |].
  destruct (to_uint32 (money / worth) <=? 0) eqn:Hnone;
    [apply Z.leb_le in Hnone; lia |].
  rewrite addCoins_never_returns; [reflexivity |].
  split; [exact Hcoins |]. unfold to_uint32. apply Z.mod_pos_bound. lia.
Qed.

End MoneyFacts.

(** ** Removing a list of items *)

Section RemoveListFacts.

Context {K : Constants} {E : Externals}.

Lemma internalRemoveItem_items (w : World) (item j : ItemId) (n : Z) (test : bool)
      (flags : Z) :
  j <> item ->
  items (snd (internalRemoveItem w item n test flags)) j = items w j.
Proof.
  intros Hne. unfold internalRemoveItem.
  destruct (parent (items w item)) as [cylinder |]; [| reflexivity].
  destruct (negb (isNoError _)); [reflexivity |].
  destruct (negb (canRemove w item)); [reflexivity |].
  destruct test; [reflexivity |].
  unfold removeThing.
  destruct (isStackable w item && _); simpl;
    match goal with
    | |- context [isRemoved ?x item] => destruct (isRemoved x item)
    end; simpl;
    try match goal with
    | |- context [canDecay ?x item] => destruct (canDecay x item)
    end; simpl; apply upd_other; exact Hne.
Qed.

Hypothesis Hremove : forall w c i n f a,
    queryRemove w c i n f a = RETURNVALUE_NOERROR.
Hypothesis Hcan : forall w i, canRemove w i = true.

Lemma internalRemoveItem_whole (w : World) (item : ItemId) :
  parent (items w item) <> None ->
  isRemoved (snd (internalRemoveItem w item (-1) false 0)) item = true.
Proof.
  intros Hp. unfold internalRemoveItem.
  destruct (parent (items w item)) as [cylinder |] eqn:Hparent; [| contradiction].
  rewrite Hremove, Hcan. simpl.
  unfold removeThing. rewrite Z.ltb_irrefl, andb_false_r.
  assert (Hgone : isRemoved
            (withItems (withContents w
                          (updC (contents w) cylinder
                                (removeId item (contents w cylinder))))
                       (upd (items w) item (setParent (items w item) None)))
            item = true).
  { unfold isRemoved, withItems. cbn [items]. rewrite upd_same. reflexivity. }
  rewrite Hgone.
  match goal with
  | |- context [canDecay ?x item] => destruct (canDecay x item)
  end; unfold isRemoved; simpl; rewrite upd_same; reflexivity.
Qed.

Lemma internalRemoveItem_part (w : World) (item : ItemId) (n : Z) :
  parent (items w item) <> None ->
  isStackable w item = true ->
  0 <= n < count (items w item) ->
  let w' := snd (internalRemoveItem w item n false 0) in
  isRemoved w' item = false
  /\ count (items w' item) = count (items w item) - n.
Proof.
  intros Hp Hstack Hn. unfold internalRemoveItem.
  destruct (parent (items w item)) as [cylinder |] eqn:Hparent; [| contradiction].
  assert (Hnot : (n =? -1) = false) by (apply Z.eqb_neq; lia).
  rewrite Hnot, Hremove, Hcan. simpl.
  unfold removeThing. rewrite Hstack.
  assert (Hlt : (n <? count (items w item)) = true) by (apply Z.ltb_lt; lia).
  rewrite Hlt. simpl.
  assert (Hkeep : isRemoved
            (withItems w (upd (items w) item
                              (setCount (items w item) (count (items w item) - n))))
            item = false).
  { unfold isRemoved, withItems. cbn [items]. rewrite upd_same. simpl.
    rewrite Hparent. reflexivity. }
  rewrite Hkeep. unfold isRemoved. simpl. rewrite upd_same. simpl.
  rewrite Hparent. split; reflexivity.
Qed.

Lemma heldUnits_cons (w : World) (a : ItemId) (l : list ItemId) :
  heldUnits w (a :: l)
  = (if isRemoved w a then 0 else count (items w a)) + heldUnits w l.
Proof. reflexivity. Qed.

Lemma heldUnits_ext (w w' : World) (l : list ItemId) :
  (forall j, In j l -> items w' j = items w j) ->
  heldUnits w' l = heldUnits w l.
Proof.
  induction l as [| a l IH]; intros Hsame; [reflexivity |].
  rewrite !heldUnits_cons. unfold isRemoved.
  rewrite (Hsame a (or_introl eq_refl)).
  rewrite IH; [reflexivity |]. intros j Hj. apply Hsame. right. exact Hj.
Qed.

Lemma removeStackable_frame (l : list ItemId) :
  forall (w : World) (amount : Z) (j : ItemId),
    ~ In j l -> items (removeStackable w l amount) j = items w j.
Proof.
  induction l as [| a l IH]; intros w amount j Hout; [reflexivity |].
  cbn [removeStackable].
  assert (j <> a) by (intros ->; apply Hout; left; reflexivity).
  destruct (amount <? count (items w a)).
  - apply internalRemoveItem_items. assumption.
  - rewrite IH by (intros Hin; apply Hout; right; exact Hin).
    apply internalRemoveItem_items. assumption.
Qed.

Lemma heldUnits_nonneg (w : World) (l : list ItemId) :
  (forall i, In i l -> 0 <= count (items w i)) -> 0 <= heldUnits w l.
Proof.
  induction l as [| a l IH]; intros Hpos.
  - unfold heldUnits. simpl. lia.
  - rewrite heldUnits_cons.
    specialize (IH (fun i Hi => Hpos i (or_intror Hi))).
    specialize (Hpos a (or_introl eq_refl)).
    destruct (isRemoved w a); lia.
Qed.

Lemma removeStackable_units (l : list ItemId) :
  forall (w : World) (amount : Z),
    NoDup l ->
    (forall i, In i l -> parent (items w i) <> None
                         /\ isStackable w i = true
                         /\ 1 <= count (items w i)) ->
    0 <= amount < 2 ^ 31 ->
    heldUnits (removeStackable w l amount) l
    = heldUnits w l - Z.min amount (heldUnits w l).
Proof.
  induction l as [| item rest IH]; intros w amount Hnd Hall Ham.
  - unfold heldUnits. simpl. lia.
  - inversion Hnd as [| ? ? Hnotin Hnd']; subst.
    destruct (Hall item (or_introl eq_refl)) as [Hp [Hstack Hcount]].
    assert (Hrest0 : 0 <= heldUnits w rest).
    { apply heldUnits_nonneg. intros i Hi.
      destruct (Hall i (or_intror Hi)) as [_ [_ Hc]]. lia. }
    assert (Hhere : heldUnits w (item :: rest)
                    = count (items w item) + heldUnits w rest).
    { rewrite heldUnits_cons. unfold isRemoved.
      destruct (parent (items w item)); [reflexivity | contradiction]. }
    cbn [removeStackable].
    destruct (amount <? count (items w item)) eqn:Hlt.
    + apply Z.ltb_lt in Hlt.
      assert (H32 : to_int32 amount = amount).
      { apply small_to_int32. lia. }
      rewrite H32.
      destruct (internalRemoveItem_part w item amount Hp Hstack ltac:(lia))
        as [Hkeep Hless].
      set (w' := snd (internalRemoveItem w item amount false 0)) in *.
      assert (Hrest : heldUnits w' rest = heldUnits w rest).
      { apply heldUnits_ext. intros j Hj. apply internalRemoveItem_items.
        intros ->. contradiction. }
      rewrite heldUnits_cons, Hkeep, Hless, Hrest, Hhere. lia.
    + apply Z.ltb_ge in Hlt.
      set (w1 := snd (internalRemoveItem w item (-1) false 0)).
      assert (Hsame : forall j, In j rest -> items w1 j = items w j).
      { intros j Hj. apply internalRemoveItem_items. intros ->. contradiction. }
      assert (H32 : to_uint32 (amount - count (items w item))
                    = amount - count (items w item)).
      { apply small_to_uint32. lia. }
      rewrite H32.
      assert (Hitem : items (removeStackable w1 rest
                               (amount - count (items w item))) item
                      = items w1 item).
      { apply removeStackable_frame. exact Hnotin. }
      assert (Hgone : isRemoved (removeStackable w1 rest
                                   (amount - count (items w item))) item = true).
      { unfold isRemoved. rewrite Hitem.
        apply (internalRemoveItem_whole w item Hp). }
      rewrite heldUnits_cons, Hgone.
      rewrite IH.
      * rewrite (heldUnits_ext w w1 rest Hsame), Hhere. lia.
      * exact Hnd'.
      * intros i Hi. unfold isStackable. rewrite (Hsame i Hi).
        apply Hall. right. exact Hi.
      * lia.
Qed.

End RemoveListFacts.

Section RemoveListClaim.

Context {K : Constants} {E : Externals}.

(** X12: when the holders let every item go, [internalRemoveItems] takes
    [amount] units off a list of stacks, or all the units there are when
    that is less. *)
Theorem internalRemoveItems_takes_the_amount (w : World) (itemList : list ItemId)
        (amount : Z) :
  (forall w c i n f a, queryRemove w c i n f a = RETURNVALUE_NOERROR) ->
  (forall w i, canRemove w i = true) ->
  NoDup itemList ->
  (forall i, In i itemList -> parent (items w i) <> None
                              /\ isStackable w i = true
                              /\ 1 <= count (items w i)) ->
  0 <= amount < 2 ^ 31 ->
  heldUnits (internalRemoveItems w itemList amount true) itemList
  = heldUnits w itemList - Z.min amount (heldUnits w itemList)
  /\ forall j, ~ In j itemList ->
               items (internalRemoveItems w itemList amount true) j = items w j.
Proof.
  intros Hremove Hcan Hnd Hall Ham. unfold internalRemoveItems. split.
  - apply removeStackable_units; assumption.
  - intros j Hj. apply removeStackable_frame. exact Hj.
Qed.

End RemoveListClaim.

(** ** Positions on the client's side and blocked hits *)

Section PlaceFacts.

Context {P : PlaceExternals}.

Lemma container_bits (cid : Z) :
  0 <= cid < 16 ->
  Z.land (Z.lor 64 cid) 64 = 64 /\ Z.land (Z.lor 64 cid) 15 = cid.
Proof.
  intros Hc.
  assert (Hcases : cid = 0 \/ cid = 1 \/ cid = 2 \/ cid = 3 \/ cid = 4 \/ cid = 5
                   \/ cid = 6 \/ cid = 7 \/ cid = 8 \/ cid = 9 \/ cid = 10
                   \/ cid = 11 \/ cid = 12 \/ cid = 13 \/ cid = 14 \/ cid = 15)
    by lia.
  repeat (destruct Hcases as [-> | Hcases]; [split; reflexivity |]).
  subst cid. split; reflexivity.
Qed.

Lemma slot_bit (y : Z) : 0 <= y < 64 -> Z.land y 64 = 0.
Proof.
  intros Hy. apply Z.bits_inj'. intros n Hn.
  rewrite Z.land_spec, Z.bits_0.
  destruct (Z.eq_dec n 6) as [-> | Hne].
  - rewrite (Z.bits_above_log2 y 6); [reflexivity | lia |].
    destruct (Z.eq_dec y 0) as [-> | Hy0]; [simpl; lia |].
    apply Z.log2_lt_pow2; [lia |]. change (2 ^ 6) with 64. lia.
  - replace 64 with (2 ^ 6) by reflexivity.
    rewrite Z.pow2_bits_false by lia. apply andb_false_r.
Qed.

(** X22: the position that [internalGetPosition] gives for an item in a
    container that the player has open under an id below 16 leads
    [internalGetCylinder] back to that container, and the index decoded
    from it is the slot of the item. *)
Theorem container_position_round_trip (w : World) (item : ItemId) (player : nat)
        (container : ItemId) (fromStackPos : Z) :
  getTopParent w item = Some (Player player) ->
  parent (items w item) = Some (Container container) ->
  0 <= getContainerID w player container < 16 ->
  getContainerByID w player (getContainerID w player container)
    = Some container ->
  0 <= getThingIndex w (Container container) item < 256 ->
  let pos := fst (internalGetPosition w item) in
  internalGetCylinder w player pos = Some (Container container)
  /\ fromIndexOf pos fromStackPos = getThingIndex w (Container container) item
  /\ snd (internalGetPosition w item)
     = getThingIndex w (Container container) item.
Proof.
  intros Htop Hparent Hcid Hopen Hidx pos. subst pos.
  unfold internalGetPosition. rewrite Htop, Hparent. cbn [fst snd].
  assert (H16 : to_uint16 (getContainerID w player container)
                = getContainerID w player container).
  { unfold to_uint16. apply Z.mod_small. change (2 ^ 16) with 65536. lia. }
  assert (H8 : to_uint8 (getThingIndex w (Container container) item)
               = getThingIndex w (Container container) item).
  { apply small_to_uint8. change (2 ^ 8) with 256. exact Hidx. }
  change (to_uint16 64) with 64. rewrite H16, H8.
  destruct (container_bits _ Hcid) as [Hbit Hlow].
  unfold internalGetCylinder, fromIndexOf. cbn [px py pz].
  rewrite Hbit, Hlow. simpl.
  assert (H8' : to_uint8 (getContainerID w player container)
                = getContainerID w player container).
  { apply small_to_uint8. change (2 ^ 8) with 256. lia. }
  rewrite H8', Hopen. repeat split.
Qed.

(** X23: when the player has not opened the container ([getContainerID]
    answers -1), the position has y = 0xFFFF and is read back as the
    container that is open under id 15. *)
Theorem unopened_container_reads_as_container_15 (w : World) (item : ItemId)
        (player : nat) (container : ItemId) :
  getTopParent w item = Some (Player player) ->
  parent (items w item) = Some (Container container) ->
  getContainerID w player container = -1 ->
  let pos := fst (internalGetPosition w item) in
  py pos = 65535
  /\ internalGetCylinder w player pos
     = match getContainerByID w player 15 with
       | Some c => Some (Container c)
       | None => None
       end.
Proof.
  intros Htop Hparent Hcid pos. subst pos.
  unfold internalGetPosition. rewrite Htop, Hparent, Hcid. cbn [fst].
  unfold internalGetCylinder. cbn [px py]. split; reflexivity.
Qed.

(** X24: an item in a slot of the inventory below 64 is read back as held by
    the player, at that slot; bit 0x40 of a larger index would be read as
    the mark of a container. *)
Theorem inventory_position_round_trip (w : World) (item : ItemId) (player : nat)
        (fromStackPos : Z) :
  getTopParent w item = Some (Player player) ->
  parent (items w item) = Some (Player player) ->
  0 <= getThingIndex w (Player player) item < 64 ->
  let pos := fst (internalGetPosition w item) in
  internalGetCylinder w player pos = Some (Player player)
  /\ fromIndexOf pos fromStackPos = getThingIndex w (Player player) item
  /\ snd (internalGetPosition w item) = getThingIndex w (Player player) item.
Proof.
  intros Htop Hparent Hidx pos. subst pos.
  unfold internalGetPosition. rewrite Htop, Hparent. cbn [fst snd].
  assert (H16 : to_uint16 (getThingIndex w (Player player) item)
                = getThingIndex w (Player player) item).
  { unfold to_uint16. apply Z.mod_small. change (2 ^ 16) with 65536. lia. }
  assert (H8 : to_uint8 (getThingIndex w (Player player) item)
               = getThingIndex w (Player player) item).
  { apply small_to_uint8. change (2 ^ 8) with 256. lia. }
  rewrite H16, H8.
  unfold internalGetCylinder, fromIndexOf. cbn [px py pz].
  rewrite (slot_bit _ Hidx). simpl. rewrite H8. repeat split.
Qed.

End PlaceFacts.

Section CombatFacts.

Context {C : CombatExternals}.

Lemma blockHalf_none (a : Arena) (attacker : option Creature) (target : Creature)
      (half : CombatValue) (checkDefense checkArmor field ignoreResistances : bool) :
  combatType half = COMBAT_NONE ->
  blockHalf a attacker target half checkDefense checkArmor field ignoreResistances
  = (BLOCK_NONE, half, a).
Proof. intros Hnone. unfold blockHalf. rewrite Hnone. reflexivity. Qed.

(** X25: a hit that has one damage type only is never reported as blocked,
    whatever the target's [blockHit] answers; the report needs both halves
    to be blocked.  (A hit without any type, and a hit on a player in
    ghost mode, are reported as blocked before the target is asked.) *)
Theorem one_sided_hit_is_never_blocked (a : Arena) (damage : CombatDamage)
        (attacker : option Creature) (target : Creature)
        (checkDefense checkArmor field ignoreResistances : bool) :
  combatType (primary damage) = COMBAT_NONE
  \/ combatType (secondary damage) = COMBAT_NONE ->
  ~ (combatType (primary damage) = COMBAT_NONE
     /\ combatType (secondary damage) = COMBAT_NONE) ->
  match getPlayer target with
  | Some _ => isInGhostMode a target
  | None => false
  end = false ->
  fst (fst (combatBlockHit a damage attacker target checkDefense checkArmor
                           field ignoreResistances)) = false.
Proof.
  intros Hone Hnot Hghost. unfold combatBlockHit. rewrite Hghost.
  destruct (isCombatNone (combatType (primary damage))
            && isCombatNone (combatType (secondary damage))) eqn:Hboth.
  { exfalso. apply Hnot. apply andb_true_iff in Hboth. destruct Hboth as [H1 H2].
    split.
    - destruct (combatType (primary damage)); try discriminate; reflexivity.
    - destruct (combatType (secondary damage)); try discriminate; reflexivity. }
  destruct Hone as [Hp | Hs].
  - rewrite (blockHalf_none _ _ _ _ _ _ _ _ Hp).
    destruct (blockHalf a attacker target (secondary damage) false false field
                        ignoreResistances) as [[sb sv] a']. reflexivity.
  - destruct (blockHalf a attacker target (primary damage) checkDefense
                        checkArmor field ignoreResistances) as [[pb pv] a'].
    rewrite (blockHalf_none _ _ _ _ _ _ _ _ Hs). simpl. apply andb_false_r.
Qed.

End CombatFacts.

(** ** Removing a creature and the closest free tile *)

Lemma skipn_head {A : Type} (l : list A) :
  forall (i : nat) (x : A) (tl : list A),
    skipn i l = x :: tl -> nth_error l i = Some x /\ skipn (S i) l = tl.
Proof.
  induction l as [| a l IH]; intros i x tl Hskip.
  - destruct i; discriminate.
  - destruct i as [| i].
    + simpl in Hskip. injection Hskip as -> ->. split; reflexivity.
    + simpl in Hskip. apply IH in Hskip. exact Hskip.
Qed.

Section RemovalFacts.

Context {V : SceneExternals}.

Variable creature : CreatureId.
Variable see : nat -> bool.

(** Whether a player sees the creature does not change while it is
    removed. *)
Hypothesis Hsee : forall s player, canSeeCreature s player creature = see player.

Lemma oldStackPositions_entries (s : Scene) (tile : TileRef)
      (spectators : list CreatureId) :
  oldStackPositions s tile creature spectators
  = List.map (fun player => if see player
                       then getClientIndexOfCreature s tile player creature
                       else -1)
        (playersAmong spectators).
Proof.
  induction spectators as [| spectator rest IH]; [reflexivity |].
  unfold playersAmong in *. simpl.
  destruct (spectatorPlayer spectator) as [player |]; simpl.
  - rewrite Hsee, IH. reflexivity.
  - exact IH.
Qed.

Lemma sendRemovals_aligned (tilePosition : Position) (vec : list Z)
      (spectators : list CreatureId) :
  forall (s : Scene) (i : nat) (sent : list (nat * Z)),
    (length (filter see (playersAmong spectators)) <= length (skipn i vec))%nat ->
    exists s',
      sendRemovals s tilePosition creature spectators vec i sent
      = Some (s', sent ++ combine (filter see (playersAmong spectators))
                                  (skipn i vec)).
Proof.
  induction spectators as [| spectator rest IH]; intros s i sent Hlen.
  - exists s. simpl. rewrite app_nil_r. reflexivity.
  - unfold playersAmong in *. cbn [sendRemovals flat_map] in *. revert Hlen.
    destruct (spectatorPlayer spectator) as [player |]; cbn [app].
    + rewrite Hsee. cbn [filter].
      destruct (see player) eqn:Hp; intros Hlen.
      * cbn [length] in Hlen.
        destruct (skipn i vec) as [| x tl] eqn:Hskip; [simpl in Hlen; lia |].
        destruct (skipn_head vec i x tl Hskip) as [Hnth Hnext].
        rewrite Hnth.
        destruct (IH (sendRemoveTileThing s player tilePosition x) (S i)
                     (sent ++ [(player, x)])) as [s' Hres].
        { rewrite Hnext. simpl in Hlen. lia. }
        exists s'. rewrite Hres, Hnext, <- app_assoc. reflexivity.
      * apply IH. exact Hlen.
    + apply IH.
Qed.

Lemma filter_length_le {A : Type} (f : A -> bool) (l : list A) :
  (length (filter f l) <= length l)%nat.
Proof.
  induction l as [| a l IH]; simpl; [lia |].
  destruct (f a); simpl; lia.
Qed.

Lemma combine_all_seen (idx : nat -> Z) (players : list nat) :
  (forall p, In p players -> see p = true) ->
  combine (filter see players)
          (List.map (fun p => if see p then idx p else -1) players)
  = List.map (fun p => (p, idx p)) players.
Proof.
  induction players as [| p players IH]; intros Hall; [reflexivity |].
  simpl. rewrite (Hall p (or_introl eq_refl)). simpl.
  rewrite IH; [reflexivity |]. intros q Hq. apply Hall. right. exact Hq.
Qed.

End RemovalFacts.

Section RemovalClaim.

Context {V : SceneExternals}.

(** X19: when a creature is removed, the [k]-th player who sees it is sent the
    stack position that was recorded for the [k]-th player among the
    spectators, who need not be the same player: the index into the
    recorded positions moves with the players who see the creature, the
    positions were recorded for every player.  When all of them see the
    creature each is sent its own position; when the first does not, the
    first who does is sent -1. *)
Theorem removal_notices_follow_the_recorded_order (fuel : nat) (s : Scene)
        (h : Herd) (creature : CreatureId) (isLogout : bool) (see : nat -> bool) :
  let tile := creaturePlace s creature in
  let players := playersAmong (getSpectators s (placePosition s tile)) in
  let index := fun player => getClientIndexOfCreature s tile player creature in
  let notices :=
    combine (filter see players)
            (List.map (fun player => if see player then index player else -1) players) in
  isRemovedCreature s creature = false ->
  (forall s' player, canSeeCreature s' player creature = see player) ->
  (forall r, removeCreature fuel s h creature isLogout = Some r ->
             exists more, snd r = notices ++ more)
  /\ ((forall s', getSummons s' creature = []) ->
      exists s' h', removeCreature fuel s h creature isLogout
                    = Some (true, s', h', notices))
  /\ ((forall p, In p players -> see p = true) ->
      notices = List.map (fun p => (p, index p)) players)
  /\ (forall p ps, players = p :: ps -> see p = false ->
                   forall q v, hd_error notices = Some (q, v) -> v = -1).
Proof.
  intros tile players index notices Hplaced Hsee.
  assert (Hsent : forall s0, exists s1,
             sendRemovals s0 (placePosition s0 tile) creature
                          (getSpectators s (placePosition s tile))
                          (oldStackPositions s tile creature
                             (getSpectators s (placePosition s tile))) 0 []
             = Some (s1, notices)).
  { intros s0.
    rewrite (oldStackPositions_entries creature see Hsee).
    destruct (sendRemovals_aligned creature see Hsee (placePosition s0 tile)
                (List.map (fun player => if see player
                                    then getClientIndexOfCreature s tile player
                                                                  creature
                                    else -1)
                     (playersAmong (getSpectators s (placePosition s tile))))
                (getSpectators s (placePosition s tile)) s0 0%nat [])
      as [s1 Hres].
    { simpl. rewrite length_map. apply filter_length_le. }
    exists s1. rewrite Hres. reflexivity. }
  split; [| split; [| split]].
  - intros r. destruct fuel as [| fuel]; cbn [removeCreature];
      rewrite Hplaced; fold tile;
      destruct (Hsent (tileRemoveCreature s tile creature)) as [s1 Hs1];
      rewrite Hs1;
      match goal with
      | |- context [fold_left ?f ?l (Some (?a, ?b, notices))] =>
          assert (Hfold : forall l0 acc,
                     match acc with
                     | Some (_, _, sent0) => exists m0, sent0 = notices ++ m0
                     | None => True
                     end ->
                     match fold_left f l0 acc with
                     | Some (_, _, sent1) => exists m1, sent1 = notices ++ m1
                     | None => True
                     end);
          [| pose proof (Hfold l (Some (a, b, notices))
                               (ex_intro _ [] (eq_sym (app_nil_r notices))))
               as Hdone;
             destruct (fold_left f l (Some (a, b, notices)))
               as [[[s2 h2] sent2] |]; [| discriminate];
             intros [= <-]; exact Hdone]
      end.
    + induction l0 as [| summon l0 IHl]; intros acc Hacc; [exact Hacc |].
      simpl. apply IHl. destruct acc as [[[? ?] ?] |]; exact I.
    + induction l0 as [| summon l0 IHl]; intros acc Hacc; [exact Hacc |].
      simpl. apply IHl. destruct acc as [[[s3 h3] sent3] |]; [| exact I].
      destruct (removeCreature fuel (setSkillLoss s3 summon false) h3 summon true)
        as [[[[b4 s4] h4] more4] |]; [| exact I].
      destruct Hacc as [m0 ->]. exists (m0 ++ more4). rewrite app_assoc.
      reflexivity.
  - intros Hnone.
    destruct fuel as [| fuel]; cbn [removeCreature];
      rewrite Hplaced; fold tile;
      destruct (Hsent (tileRemoveCreature s tile creature)) as [s1 Hs1];
      rewrite Hs1, Hnone; simpl; eexists; eexists; reflexivity.
  - intros Hall. subst notices. apply combine_all_seen. exact Hall.
  - intros p ps Hplayers Hblind q v. subst notices. rewrite Hplayers.
    simpl. rewrite Hblind.
    destruct (filter see ps) as [| q' qs]; simpl; [discriminate |].
    intros [= _ <-]. reflexivity.
Qed.

End RemovalClaim.

Section FreeTileFacts.

Context {K : Constants} {M : MapExternals} {Q : TileQueries}.

Lemma firstFreeTile_found (m : Map) (creature : CreatureId) (nextPos : Position)
      (rel : list (Z * Z)) :
  firstFreeTile m creature nextPos rel = mkPosition 0 0 0
  \/ exists x y tile,
       In (x, y) rel
       /\ getTile m (px nextPos + x) (py nextPos + y) (pz nextPos) = Some tile
       /\ isFreeTile m creature tile = true
       /\ firstFreeTile m creature nextPos rel = tilePosition m tile.
Proof.
  induction rel as [| [x y] rest IH]; [left; reflexivity |].
  cbn [firstFreeTile].
  destruct (getTile m (px nextPos + x) (py nextPos + y) (pz nextPos))
    as [tile |] eqn:Htile.
  - destruct (isFreeTile m creature tile) eqn:Hfree.
    + right. exists x, y, tile. repeat split; try assumption. left. reflexivity.
    + destruct IH as [IH | [x' [y' [t' [Hin Hrest]]]]]; [left; exact IH |].
      right. exists x', y', t'. split; [right; exact Hin | exact Hrest].
  - destruct IH as [IH | [x' [y' [t' [Hin Hrest]]]]]; [left; exact IH |].
    right. exists x', y', t'. split; [right; exact Hin | exact Hrest].
Qed.

Lemma firstFreeTile_app (m : Map) (creature : CreatureId) (nextPos : Position)
      (l1 l2 : list (Z * Z)) (x y : Z) (tile : TileRef) :
  In (x, y) l1 ->
  getTile m (px nextPos + x) (py nextPos + y) (pz nextPos) = Some tile ->
  isFreeTile m creature tile = true ->
  firstFreeTile m creature nextPos (l1 ++ l2) = firstFreeTile m creature nextPos l1.
Proof.
  induction l1 as [| [a b] l1 IH]; intros Hin Htile Hfree; [destruct Hin |].
  cbn [app firstFreeTile].
  destruct (getTile m (px nextPos + a) (py nextPos + b) (pz nextPos))
    as [t |] eqn:Ht.
  - destruct (isFreeTile m creature t) eqn:Hf; [reflexivity |].
    destruct Hin as [[= -> ->] | Hin]; [congruence |].
    apply IH; assumption.
  - destruct Hin as [[= -> ->] | Hin]; [congruence |].
    apply IH; assumption.
Qed.

(** X26: [getClosestFreeTile] answers (0, 0, 0) or the position of a tile with
    ground that accepts the creature, one step away at most (two along an
    axis when the search is extended), the place itself first; a tile
    found nearby is also what the extended search answers. *)
Theorem closest_free_tile_is_near (m : Map) (creature : CreatureId)
        (nextPos : Position) (extended : bool) :
  (getClosestFreeTile m creature nextPos extended = mkPosition 0 0 0
   \/ exists x y tile,
        Z.abs x + Z.abs y <= 2
        /\ (extended = false -> Z.abs x <= 1 /\ Z.abs y <= 1)
        /\ getTile m (px nextPos + x) (py nextPos + y) (pz nextPos) = Some tile
        /\ hasGround m tile = true
        /\ tileQueryAddBy m tile 0 creature 1 FLAG_IGNOREBLOCKITEM (Some creature)
           = RETURNVALUE_NOERROR
        /\ getClosestFreeTile m creature nextPos extended = tilePosition m tile)
  /\ (forall tile,
        getTile m (px nextPos) (py nextPos) (pz nextPos) = Some tile ->
        isFreeTile m creature tile = true ->
        getClosestFreeTile m creature nextPos extended = tilePosition m tile)
  /\ (forall x y tile,
        In (x, y) (relList false) ->
        getTile m (px nextPos + x) (py nextPos + y) (pz nextPos) = Some tile ->
        isFreeTile m creature tile = true ->
        getClosestFreeTile m creature nextPos true
        = getClosestFreeTile m creature nextPos false).
Proof.
  split; [| split].
  - unfold getClosestFreeTile.
    destruct (firstFreeTile_found m creature nextPos (relList extended))
      as [Hnone | [x [y [tile [Hin [Htile [Hfree Hres]]]]]]]; [left; exact Hnone |].
    right. exists x, y, tile.
    unfold isFreeTile in Hfree. apply andb_true_iff in Hfree.
    destruct Hfree as [Hground Hadd]. apply isNoError_true in Hadd.
    assert (Hnear : Z.abs x + Z.abs y <= 2
                    /\ (extended = false -> Z.abs x <= 1 /\ Z.abs y <= 1)).
    { unfold relList in Hin. destruct extended; simpl in Hin;
        repeat (destruct Hin as [[= <- <-] | Hin];
                [split; [simpl; lia | intros; try discriminate; simpl; lia] |]);
        destruct Hin. }
    destruct Hnear as [N1 N2]. repeat split; try assumption; apply N2; assumption.
  - intros tile Htile Hfree. unfold getClosestFreeTile, relList.
    cbn [app firstFreeTile]. rewrite !Z.add_0_r, Htile, Hfree. reflexivity.
  - intros x y tile Hin Htile Hfree. unfold getClosestFreeTile.
    change (relList true) with (relList false ++ [(-2, 0); (0, -2); (0, 2); (2, 0)]).
    rewrite (firstFreeTile_app m creature nextPos _ _ x y tile Hin Htile Hfree).
    reflexivity.
Qed.

End FreeTileFacts.

(** ** Where a moved item ends up *)

Section PlaceOfItems.

Context {K : Constants} {E : Externals}.

Lemma samePlaces_refl (w : World) : samePlaces w w.
Proof. repeat split. Qed.

Lemma samePlaces_trans (a b c : World) :
  samePlaces a b -> samePlaces b c -> samePlaces a c.
Proof.
  intros [A1 [A2 A3]] [B1 [B2 B3]].
  split; [congruence |]. split; [| congruence].
  intros j. destruct (A2 j) as [P1 P2]. destruct (B2 j) as [Q1 Q2].
  split; congruence.
Qed.

Lemma samePlaces_notify (w : World) (x : Notification) : samePlaces w (notify w x).
Proof. repeat split. Qed.

Lemma samePlaces_release (w : World) (i : ItemId) : samePlaces w (ReleaseItem w i).
Proof. repeat split. Qed.

Lemma samePlaces_enrol (w : World) (i : ItemId) : samePlaces w (enrolDecay w i).
Proof.
  unfold samePlaces, enrolDecay, withItems, withToDecayItems.
  cbn [contents items nextItem].
  split; [reflexivity |]. split; [| reflexivity].
  intros j. unfold upd. destruct (Nat.eqb j i) eqn:Hji; [| split; reflexivity].
  apply Nat.eqb_eq in Hji. subst j. split; reflexivity.
Qed.

Ltac places_step :=
  first
    [ apply samePlaces_refl
    | eapply samePlaces_trans; [| apply samePlaces_notify]
    | eapply samePlaces_trans; [| apply samePlaces_release]
    | eapply samePlaces_trans; [| apply samePlaces_enrol] ].

Lemma addThing_places (w : World) (c : Cylinder) (index : Z) (item : ItemId) :
  parent (items (addThing w c index item) item) = Some c
  /\ In item (contents (addThing w c index item) c)
  /\ nextItem (addThing w c index item) = nextItem w
  /\ (forall h, h <> c ->
                contents (addThing w c index item) h = contents w h).
Proof.
  unfold addThing, withItems, withContents. cbn [items contents nextItem].
  rewrite upd_same, updC_same.
  split; [reflexivity |]. split; [| split; [reflexivity |]].
  - apply In_insertAt. left. reflexivity.
  - intros h Hh. apply updC_other. exact Hh.
Qed.

Lemma removeThing_whole (w : World) (c : Cylinder) (item : ItemId) (m : Z) :
  isStackable w item = false ->
  ~ In item (contents (removeThing w c item m) c)
  /\ nextItem (removeThing w c item m) = nextItem w.
Proof.
  intros Hstack. unfold removeThing. rewrite Hstack. cbn [andb].
  unfold withItems, withContents. cbn [items contents nextItem].
  rewrite updC_same. split; [| reflexivity].
  intros Hin. apply In_removeId in Hin. destruct Hin as [_ Hne].
  apply Hne. reflexivity.
Qed.

(** The exchange moves the colliding item only: every object keeps its
    type, and no object is created. *)
Lemma exchangeItem_keeps (w : World) (fromCylinder : Cylinder) (d : Destination)
      (item : ItemId) (n : Z) (actor : option Creature)
      (hk : option (nat * Position * Position)) (r : ReturnValue)
      (toIt : option ItemId) (w1 : World) :
  exchangeItem w fromCylinder d item n actor hk = Continue (r, toIt, w1) ->
  (forall j, id (items w1 j) = id (items w j))
  /\ nextItem w1 = nextItem w.
Proof.
  unfold exchangeItem.
  destruct (ReturnValue_eq_dec _ RETURNVALUE_NEEDEXCHANGE).
  2: { intros [= _ _ <-]. split; reflexivity. }
  destruct (toItem d) as [t |]; [| discriminate].
  destruct (isNoError _).
  2: { intros [= _ _ <-]. split; reflexivity. }
  destruct (negb (isNoError _)); [discriminate |].
  destruct (queryMaxCount _ _ _ _ _ _) as [retEx maxEx].
  destruct (negb (isNoError retEx) && (maxEx =? 0)); [discriminate |].
  destruct (isNoError _).
  2: { intros [= _ _ <-]. split; reflexivity. }
  set (w2 := addThing (removeThing w (toCylinder d) t (count (items w t)))
                      fromCylinder (-1) t).
  assert (Hw2 : (forall j, id (items w2 j) = id (items w j))
                /\ nextItem w2 = nextItem w).
  { subst w2. split.
    - intros j. rewrite id_addThing, id_removeThing. reflexivity.
    - unfold addThing, withItems, withContents. cbn [nextItem].
      apply nextItem_removeThing. }
  destruct Hw2 as [Hid Hnext].
  destruct (getThingIndex w (toCylinder d) t =? -1);
    match goal with
    | |- context [getThingIndex ?x fromCylinder t =? -1] =>
        destruct (getThingIndex x fromCylinder t =? -1)
    end;
    destruct hk as [[[p fp] tp] |];
    try match goal with
    | |- context [isRemoved ?x t] => destruct (isRemoved x t)
    end;
    intros [= _ _ <-]; split; assumption.
Qed.

(** The exchange ends the move only with a failure. *)
Lemma exchangeItem_returns_failure (w : World) (fromCylinder : Cylinder)
      (d : Destination) (item : ItemId) (n : Z) (actor : option Creature)
      (hk : option (nat * Position * Position)) (r : ReturnValue) (w1 : World) :
  exchangeItem w fromCylinder d item n actor hk = Returned r w1 ->
  r <> RETURNVALUE_NOERROR.
Proof.
  unfold exchangeItem.
  destruct (ReturnValue_eq_dec _ RETURNVALUE_NEEDEXCHANGE); [| discriminate].
  destruct (toItem d) as [t |]; [| discriminate].
  destruct (isNoError (queryAdd w fromCylinder _ t _ 0 None)); [| discriminate].
  match goal with
  | |- context [negb (isNoError ?x)] =>
      destruct (negb (isNoError x)) eqn:Hev
  end.
  { intros [= Hx _]. apply negb_true_iff, isNoError_false in Hev.
    rewrite <- Hx. exact Hev. }
  destruct (queryMaxCount _ _ _ _ _ _) as [retEx maxEx].
  destruct (negb (isNoError retEx) && (maxEx =? 0)) eqn:Hmx.
  { intros [= Hx _]. apply andb_true_iff in Hmx. destruct Hmx as [Hmx _].
    apply negb_true_iff, isNoError_false in Hmx. rewrite <- Hx. exact Hmx. }
  destruct (isNoError (queryRemove _ _ _ _ _ _)); discriminate.
Qed.

(** The commit of an item that is not stackable: the object goes from the
    source to the destination. *)
Lemma commitMove_unstackable (w : World) (fromCylinder : Cylinder)
      (d : Destination) (item : ItemId) (n : Z) (toIt : option ItemId)
      (retMaxCount : ReturnValue) (maxQueryCount m : Z) (ret : ReturnValue)
      (hk : option (nat * Position * Position)) :
  isStackable w item = false ->
  let r := commitMove w fromCylinder d item n toIt retMaxCount maxQueryCount m
                      ret hk in
  outcome r = ret
  /\ movedItem r = Some item
  /\ samePlaces (addThing (removeThing w fromCylinder item m) (toCylinder d)
                          (destIndex d) item)
                (world r).
Proof.
  intros Hstack r. subst r. unfold commitMove, updateItems.
  assert (Hstack1 : isStackable (removeThing w fromCylinder item m) item = false).
  { unfold isStackable in *. rewrite id_removeThing. exact Hstack. }
  rewrite Hstack1. cbv zeta.
  set (w2 := addThing (removeThing w fromCylinder item m) (toCylinder d)
                      (destIndex d) item).
  assert (Hlater : forall x, samePlaces w2 x -> isStackable x item = false).
  { intros x [_ [Hx _]]. destruct (Hx item) as [_ Hid].
    unfold isStackable in *. rewrite Hid. subst w2.
    rewrite id_addThing, id_removeThing. exact Hstack. }
  set (w3 := if getThingIndex w fromCylinder item =? -1 then w2
             else postRemoveNotification w2 fromCylinder item
                                         (Some (toCylinder d))
                                         (getThingIndex w fromCylinder item)).
  assert (H3 : samePlaces w2 w3).
  { subst w3. destruct (getThingIndex w fromCylinder item =? -1);
      unfold postRemoveNotification; repeat places_step. }
  set (w4 := if getThingIndex w3 (toCylinder d) item =? -1 then w3
             else postAddNotification w3 (toCylinder d) item (Some fromCylinder)
                                      (getThingIndex w3 (toCylinder d) item)).
  assert (H4 : samePlaces w2 w4).
  { subst w4. destruct (getThingIndex w3 (toCylinder d) item =? -1); [exact H3 |].
    eapply samePlaces_trans; [exact H3 |].
    unfold postAddNotification. repeat places_step. }
  rewrite (Hlater w4 H4). cbn [andb outcome movedItem world].
  split; [reflexivity |]. split; [reflexivity |].
  eapply samePlaces_trans; [exact H4 |].
  destruct (_ && _); destruct hk as [[[p fp] tp] |];
    repeat match goal with
           | |- context [if ?b then _ else _] => destruct b
           end; repeat places_step.
Qed.

(** X6: a successful move of an item that is not stackable puts that very
    object into the holder the destination resolves to and takes it out
    of the source; no object is created. *)
Theorem unstackable_move_keeps_the_object (fuel : nat) (w : World)
        (fromCylinder toCyl : Cylinder) (index : Z) (item : ItemId) (n flags : Z)
        (actor : option Creature) (tradeItem : option ItemId)
        (fromPos toPos : option Position) (r : MoveResult) :
  let d := resolveDestination w item toCyl index None flags 0 0 in
  isStackable w item = false ->
  toItem d <> Some item ->
  internalMoveItem fuel w fromCylinder toCyl index item n flags actor tradeItem
                   fromPos toPos = Some r ->
  outcome r = RETURNVALUE_NOERROR ->
  movedItem r = Some item
  /\ parent (items (world r) item) = Some (toCylinder d)
  /\ In item (contents (world r) (toCylinder d))
  /\ (fromCylinder <> toCylinder d ->
      ~ In item (contents (world r) fromCylinder))
  /\ nextItem (world r) = nextItem w.
Proof.
  intros d Hstack Hother. unfold internalMoveItem. fold d. clearbody d.
  destruct (negb (isNoError (preMoveHook _ _ _ _ _ _))) eqn:Hhook.
  { intros [= <-] Hout. simpl in Hout.
    apply negb_true_iff, isNoError_false in Hhook. contradiction. }
  assert (Hsame : match toItem d with
                  | Some t => Nat.eqb item t
                  | None => false
                  end = false).
  { destruct (toItem d) as [t |]; [| reflexivity].
    destruct (Nat.eqb item t) eqn:Heq; [| reflexivity].
    apply Nat.eqb_eq in Heq. subst t. contradiction. }
  rewrite Hsame.
  destruct (exchangeItem w fromCylinder d item n actor
                         (hookContext actor fromPos toPos))
    as [rr wr | [[ret toIt] w1] |] eqn:Hex; [| | discriminate].
  { intros [= <-] Hout. simpl in Hout.
    apply exchangeItem_returns_failure in Hex. contradiction. }
  destruct (exchangeItem_keeps _ _ _ _ _ _ _ _ _ _ Hex) as [Hid1 Hnext1].
  assert (Hstack1 : isStackable w1 item = false).
  { unfold isStackable in *. rewrite Hid1. exact Hstack. }
  destruct (negb (isNoError ret)) eqn:Hret.
  { intros [= <-] Hout. simpl in Hout.
    apply negb_true_iff, isNoError_false in Hret. contradiction. }
  destruct (queryMaxCount w1 (toCylinder d) (destIndex d) item n (destFlags d))
    as [retMaxCount maxQueryCount].
  destruct (negb (isNoError retMaxCount) && (maxQueryCount =? 0)) eqn:Hmax.
  { intros [= <-] Hout. simpl in Hout.
    apply andb_true_iff in Hmax. destruct Hmax as [Hmax _].
    apply negb_true_iff, isNoError_false in Hmax. contradiction. }
  destruct (negb (isNoError (queryRemove _ _ _ _ _ _))) eqn:Hrem.
  { intros [= <-] Hout. simpl in Hout.
    apply negb_true_iff, isNoError_false in Hrem. contradiction. }
  destruct (tradeItemInDestination fuel w1 (toCylinder d) tradeItem) as [[|] |];
    [intros [= <-]; discriminate | | discriminate].
  intros [= <-] _.
  rewrite Hstack1. unfold moveQuantity.
  destruct (commitMove_unstackable w1 fromCylinder d item n toIt retMaxCount
              maxQueryCount maxQueryCount
              (queryRemove w1 fromCylinder item maxQueryCount (destFlags d) actor)
              (hookContext actor fromPos toPos) Hstack1)
    as [_ [Hmoved [Hcontents [Hitems Hnext]]]].
  split; [exact Hmoved |].
  destruct (addThing_places (removeThing w1 fromCylinder item maxQueryCount)
                            (toCylinder d) (destIndex d) item)
    as [A1 [A2 [A3 A4]]].
  destruct (removeThing_whole w1 fromCylinder item maxQueryCount Hstack1)
    as [R1 R2].
  destruct (Hitems item) as [Hparent _].
  split; [rewrite Hparent; exact A1 |].
  split; [rewrite Hcontents; exact A2 |].
  split.
  - intros Hne. rewrite Hcontents, A4 by exact Hne. exact R1.
  - rewrite Hnext, A3, R2. exact Hnext1.
Qed.

End PlaceOfItems.

(** ** The quantity that a move takes *)

Section QuantityClaim.

Context {K : Constants} {E : Externals}.


End QuantityClaim.



(** ** Where an added item ends up *)

Section AddPlaces.

Context {K : Constants} {E : Externals}.

Ltac places_step :=
  first
    [ apply samePlaces_refl
    | eapply samePlaces_trans; [| apply samePlaces_notify]
    | eapply samePlaces_trans; [| apply samePlaces_release]
    | eapply samePlaces_trans; [| apply samePlaces_enrol] ].

(** The test call answers what the validation answers and changes
    nothing. *)
Lemma internalAddItem_test (fuel : nat) (w : World) (c : Cylinder)
      (item : ItemId) (index flags r : Z) :
  internalAddItem fuel w (Some c) (Some item) index flags true r
  = Some (addValidation w c item index flags, r, w).
Proof.
  unfold addValidation.
  destruct fuel; cbn [internalAddItem];
    destruct (queryDestination w c index item None flags)
      as [[[toC index'] toIt] flags'];
    destruct (isNoError (queryAdd w toC index' item (count (items w item))
                                  flags' None)) eqn:Hadd;
    cbn [negb]; try reflexivity;
    destruct (queryMaxCount w c INDEX_WHEREEVER item (count (items w item))
                            flags') as [rm maxQ];
    cbn [fst]; destruct (isNoError rm) eqn:Hmax; cbn [negb];
    try reflexivity;
    apply isNoError_true in Hmax; subst rm; reflexivity.
Qed.

(** X7: with fuel for the count of the item, the call that adds returns, and
    it answers what the test call on the same world answers. *)
Theorem add_answers_what_its_test_answers (fuel : nat) (w : World)
        (c : Cylinder) (item : ItemId) (index flags r : Z) :
  (Z.to_nat (count (items w item)) < fuel)%nat ->
  exists ret r' w',
    internalAddItem fuel w (Some c) (Some item) index flags true r
    = Some (ret, r, w)
    /\ internalAddItem fuel w (Some c) (Some item) index flags false r
       = Some (ret, r', w').
Proof.
  intros Hfuel.
  destruct (internalAddItem_returns fuel w c item index flags r Hfuel)
    as [r' [w' Hreal]].
  exists (addValidation w c item index flags), r', w'.
  split; [apply internalAddItem_test | exact Hreal].
Qed.

(** X8: an item that passes the validation and merges with nothing is put into
    the holder that [queryDestination] resolved, which need not be the
    holder that was named; no object is created and the remainder count
    is left as it was. *)
Theorem add_without_merge_places_the_item (fuel : nat) (w : World)
        (c toC : Cylinder) (item : ItemId) (index index' flags flags' r : Z)
        (toIt : option ItemId) :
  queryDestination w c index item None flags = (toC, index', toIt, flags') ->
  addValidation w c item index flags = RETURNVALUE_NOERROR ->
  match toIt with
  | Some _ => isStackable w item && equals w item toIt
  | None => false
  end = false ->
  exists w',
    internalAddItem fuel w (Some c) (Some item) index flags false r
    = Some (RETURNVALUE_NOERROR, r, w')
    /\ parent (items w' item) = Some toC
    /\ In item (contents w' toC)
    /\ nextItem w' = nextItem w.
Proof.
  intros Hdest Hvalid Hmerge.
  set (w1 := addThing w toC index' item).
  set (w2 := if getThingIndex w1 toC item =? -1 then w1
             else postAddNotification w1 toC item None
                                      (getThingIndex w1 toC item)).
  set (w3 := if 0 <? duration (items w2 item) then enrolDecay w2 item else w2).
  assert (Hplaces : samePlaces w1 w3).
  { subst w3 w2.
    destruct (getThingIndex w1 toC item =? -1);
      match goal with
      | |- context [0 <? ?x] => destruct (0 <? x)
      end; unfold postAddNotification; repeat places_step. }
  exists w3.
  split.
  - unfold addValidation in Hvalid. rewrite Hdest in Hvalid.
    destruct fuel; cbn [internalAddItem]; rewrite Hdest;
      destruct (isNoError (queryAdd w toC index' item (count (items w item))
                                    flags' None)) eqn:Hadd;
      try (apply isNoError_false in Hvalid; [contradiction | exact Hadd]);
      cbn [negb];
      destruct (queryMaxCount w c INDEX_WHEREEVER item (count (items w item))
                              flags') as [rm maxQ];
      cbn [fst] in Hvalid; subst rm;
      change (isNoError RETURNVALUE_NOERROR) with true; cbn [negb];
      destruct toIt as [t |]; try rewrite Hmerge; reflexivity.
  - destruct Hplaces as [Hc [Hi Hn]].
    destruct (addThing_places w toC index' item) as [A1 [A2 [A3 _]]].
    destruct (Hi item) as [Hp _].
    split; [rewrite Hp; exact A1 |].
    split; [rewrite Hc; exact A2 |].
    rewrite Hn. exact A3.
Qed.

End AddPlaces.

(** ** An added stack that merges *)

Section AddMerge.

Context {K : Constants} {E : Externals}.

Lemma enrolDecay_count (w : World) (i j : ItemId) :
  count (items (enrolDecay w i) j) = count (items w j).
Proof.
  unfold enrolDecay, withToDecayItems, withItems. cbn [items].
  unfold upd. destruct (Nat.eqb j i) eqn:Hji; [| reflexivity].
  apply Nat.eqb_eq in Hji. subst j. reflexivity.
Qed.

Lemma enrolDecay_parent (w : World) (i j : ItemId) :
  parent (items (enrolDecay w i) j) = parent (items w j).
Proof.
  unfold enrolDecay, withToDecayItems, withItems. cbn [items].
  unfold upd. destruct (Nat.eqb j i) eqn:Hji; [| reflexivity].
  apply Nat.eqb_eq in Hji. subst j. reflexivity.
Qed.

(** X9: a stack that fits into the stack it collides with is merged into it:
    the colliding stack grows by the whole count, and the item that was
    given is placed nowhere and handed over for release. *)
Theorem add_that_fits_merges_and_releases (fuel : nat) (w : World)
        (c toC : Cylinder) (item t : ItemId)
        (index index' flags flags' r : Z) :
  queryDestination w c index item None flags = (toC, index', Some t, flags') ->
  addValidation w c item index flags = RETURNVALUE_NOERROR ->
  isStackable w item = true ->
  equals w item (Some t) = true ->
  0 <= count (items w item)
       <= snd (queryMaxCount w c INDEX_WHEREEVER item (count (items w item))
                             flags') ->
  count (items w item) <= getStackSize w t - count (items w t) < 2 ^ 32 ->
  exists w',
    internalAddItem fuel w (Some c) (Some item) index flags false r
    = Some (RETURNVALUE_NOERROR, r, w')
    /\ count (items w' t) = count (items w t) + count (items w item)
    /\ In item (ToReleaseItems w')
    /\ parent (items w' item) = parent (items w item)
    /\ contents w' = contents w
    /\ nextItem w' = nextItem w.
Proof.
  intros Hdest Hvalid Hstack Hequal Hmax Hroom.
  unfold addValidation in Hvalid. rewrite Hdest in Hvalid.
  destruct (isNoError (queryAdd w toC index' item (count (items w item))
                                flags' None)) eqn:Hadd.
  2: { apply isNoError_false in Hadd. contradiction. }
  destruct (queryMaxCount w c INDEX_WHEREEVER item (count (items w item))
                          flags') as [rm maxQ] eqn:HmaxQ.
  cbn [fst] in Hvalid. cbn [snd] in Hmax. subst rm.
  assert (Hm : Z.min (count (items w item)) maxQ = count (items w item))
    by lia.
  assert (Hn : Z.min (to_uint32 (getStackSize w t - count (items w t)))
                     (count (items w item)) = count (items w item)).
  { rewrite small_to_uint32 by lia. lia. }
  set (w1 := updateThing w toC t (id (items w t))
                         (count (items w t) + count (items w item))).
  set (w2 := ReleaseItem (notify w1 (OnRemoved item)) item).
  set (w3 := if getThingIndex w2 toC t =? -1 then w2
             else postAddNotification w2 toC t None (getThingIndex w2 toC t)).
  set (w4 := if 0 <? duration (items w3 item) then enrolDecay w3 item else w3).
  exists w4.
  split.
  - destruct fuel; cbn [internalAddItem]; rewrite Hdest, Hadd; cbn [negb];
      rewrite HmaxQ;
      change (isNoError RETURNVALUE_NOERROR) with true; cbn [negb];
      rewrite Hstack, Hequal; cbn [andb]; rewrite Hm, Hn, Z.sub_diag;
      change (0 <? to_int32 0) with false; cbv iota; reflexivity.
  - assert (H3 : items w3 = items w1 /\ contents w3 = contents w
                 /\ nextItem w3 = nextItem w
                 /\ ToReleaseItems w3 = ToReleaseItems w ++ [item]).
    { subst w3. destruct (getThingIndex w2 toC t =? -1);
        repeat split; reflexivity. }
    destruct H3 as [Hi [Hc [Hnx Hrel]]].
    assert (H4 : (forall j, count (items w4 j) = count (items w1 j))
                 /\ (forall j, parent (items w4 j) = parent (items w1 j))
                 /\ contents w4 = contents w /\ nextItem w4 = nextItem w
                 /\ ToReleaseItems w4 = ToReleaseItems w ++ [item]).
    { subst w4. destruct (0 <? duration (items w3 item)).
      - split; [intros j; rewrite enrolDecay_count, Hi; reflexivity |].
        split; [intros j; rewrite enrolDecay_parent, Hi; reflexivity |].
        split; [exact Hc |]. split; [exact Hnx | exact Hrel].
      - rewrite Hi. repeat split; assumption. }
    destruct H4 as [Hcnt [Hpar [Hc4 [Hn4 Hr4]]]].
    split.
    { rewrite Hcnt. subst w1. unfold updateThing, withItems. cbn [items].
      rewrite upd_same. reflexivity. }
    split; [rewrite Hr4; apply in_or_app; right; left; reflexivity |].
    split; [| split; assumption].
    rewrite Hpar. subst w1. unfold updateThing, withItems. cbn [items].
    unfold upd. destruct (Nat.eqb item t) eqn:Hit; [| reflexivity].
    apply Nat.eqb_eq in Hit. subst t. reflexivity.
Qed.

End AddMerge.

(** ** The properties above on the worked inputs *)

Lemma descend_one_level_witness :
  stepTarget (K := sampleConstants) (M := pitMap) pitWalk 0%nat true 1 0
  = (setDirection (M := pitMap)
       (setLastPosition (M := pitMap) pitWalk 0%nat (mkPosition 10 10 6)) 0%nat 1,
     mkPosition 11 10 7, 6).
Proof.
  apply (descend_one_level (K := sampleConstants) (M := pitMap) pitWalk 0%nat 1 0
                           1%nat);
    first [reflexivity | discriminate].
Defined.

Lemma step_changes_level_by_one_at_most_witness :
  let r := stepTarget (K := sampleConstants) (M := hillMap 7) (hillWalk 7)
                      0%nat true 1 0 in
  map (fst (fst r)) = tt
  /\ px (snd (fst r)) = 11
  /\ (pz (snd (fst r)) = 7 \/ pz (snd (fst r)) = 6 \/ pz (snd (fst r)) = 8).
Proof.
  destruct (step_changes_level_by_one_at_most
              (K := sampleConstants) (M := hillMap 7) (hillWalk 7)
              (setDirection (M := hillMap 7)
                 (setLastPosition (M := hillMap 7) (hillWalk 7) 0%nat
                                  (mkPosition 10 10 7)) 0%nat 1)
              0%nat true 1 0 6 (mkPosition 11 10 6) eq_refl eq_refl)
    as [Hmap [_ [Hx [_ [Hz _]]]]].
  split; [exact Hmap |]. split; [exact Hx |].
  destruct Hz as [Hz | [[_ Hz] | [_ Hz]]].
  - left. exact Hz.
  - right. left. exact Hz.
  - right. right. exact Hz.
Defined.

Lemma refused_step_moves_nothing_witness :
  map (snd (internalMoveCreature (K := sampleConstants) (M := hillMap 8)
                                 (hillWalk 8) 0%nat true 1 0)) = tt.
Proof.
  apply (refused_step_moves_nothing (K := sampleConstants) (M := hillMap 8)
                                    (hillWalk 8) 0%nat true 1 0).
  vm_compute. discriminate.
Defined.

Lemma internalAddItem_enrols_again_witness :
  exists r' w',
    internalAddItem (K := sampleConstants) (E := selfHolders RETURNVALUE_NOERROR)
                    2 (pendingWorld 5000) (Some (Tile 0)) (Some 1%nat) 0 0 false 0
    = Some (RETURNVALUE_NOERROR, r', w')
    /\ occurrences 1%nat (toDecayItems w') = 2%nat
    /\ referenceCounter (items w' 1%nat) = 2
    /\ decaying (items w' 1%nat) = DECAYING_TRUE.
Proof.
  apply (internalAddItem_enrols_again
           (K := sampleConstants) (E := selfHolders RETURNVALUE_NOERROR)
           2 (pendingWorld 5000) (Tile 0) 1%nat 0 0 0).
  - vm_compute. lia.
  - vm_compute. lia.
  - reflexivity.
  - reflexivity.
Defined.

Lemma failed_move_without_exchange_changes_nothing_witness :
  world (mkMoveResult RETURNVALUE_NOTMOVEABLE None slotWorld) = slotWorld
  \/ (isStackable (E := slotHolders (Some 1%nat) 1 None)
                  slotWorld 1%nat = true
      /\ 1 < 1).
Proof.
  apply (failed_move_without_exchange_changes_nothing
           (K := sampleConstants) (E := slotHolders (Some 1%nat) 1 None)
           0 slotWorld (Tile 0) (Tile 1) 0 1%nat 1 0 None None None None
           (mkMoveResult RETURNVALUE_NOTMOVEABLE None slotWorld)).
  - vm_compute. lia.
  - vm_compute. discriminate.
  - vm_compute. reflexivity.
  - discriminate.
Defined.

Lemma startDecay_enrols_once_witness :
  startDecay (E := selfHolders RETURNVALUE_NOERROR)
             (startDecay (E := selfHolders RETURNVALUE_NOERROR) lampWorld
                         (Some 1%nat)) (Some 1%nat)
  = startDecay (E := selfHolders RETURNVALUE_NOERROR) lampWorld (Some 1%nat)
  /\ toDecayItems (startDecay (E := selfHolders RETURNVALUE_NOERROR) lampWorld
                              (Some 1%nat)) = [1%nat].
Proof.
  destruct (startDecay_enrols_once (E := selfHolders RETURNVALUE_NOERROR)
                                   lampWorld 1%nat)
    as [Hagain [_ Hfirst]].
  - reflexivity.
  - split; [exact Hagain |].
    destruct Hfirst as [Hlist _]; [reflexivity | discriminate |].
    exact Hlist.
Defined.

Lemma unstackable_move_keeps_the_object_witness :
  let r := match internalMoveItem (K := sampleConstants)
                   (E := slotHolders None 1 None) 0 slotWorld (Tile 0) (Tile 1)
                   0 1%nat 1 0 None None None None with
           | Some r => r
           | None => mkMoveResult RETURNVALUE_NOTPOSSIBLE None slotWorld
           end in
  movedItem r = Some 1%nat
  /\ parent (items (world r) 1%nat) = Some (Tile 1)
  /\ In 1%nat (contents (world r) (Tile 1))
  /\ (Tile 0 <> Tile 1 -> ~ In 1%nat (contents (world r) (Tile 0)))
  /\ nextItem (world r) = 3%nat.
Proof.
  intros r.
  apply (unstackable_move_keeps_the_object
           (K := sampleConstants) (E := slotHolders None 1 None)
           0 slotWorld (Tile 0) (Tile 1) 0 1%nat 1 0 None None None None r).
  - reflexivity.
  - vm_compute. discriminate.
  - vm_compute. reflexivity.
  - vm_compute. reflexivity.
Defined.

Lemma add_answers_what_its_test_answers_witness :
  exists ret r' w',
    internalAddItem (K := sampleConstants) (E := selfHolders RETURNVALUE_NOERROR)
                    2 lampWorld (Some (Tile 0)) (Some 1%nat) 0 0 true 0
    = Some (ret, 0, lampWorld)
    /\ internalAddItem (K := sampleConstants)
                       (E := selfHolders RETURNVALUE_NOERROR)
                       2 lampWorld (Some (Tile 0)) (Some 1%nat) 0 0 false 0
       = Some (ret, r', w').
Proof.
  apply (add_answers_what_its_test_answers
           (K := sampleConstants) (E := selfHolders RETURNVALUE_NOERROR)
           2 lampWorld (Tile 0) 1%nat 0 0 0).
  vm_compute. lia.
Defined.

Lemma add_without_merge_places_the_item_witness :
  exists w',
    internalAddItem (K := sampleConstants) (E := selfHolders RETURNVALUE_NOERROR)
                    0 lampWorld (Some (Tile 3)) (Some 1%nat) 0 0 false 0
    = Some (RETURNVALUE_NOERROR, 0, w')
    /\ parent (items w' 1%nat) = Some (Tile 3)
    /\ In 1%nat (contents w' (Tile 3))
    /\ nextItem w' = 2%nat.
Proof.
  apply (add_without_merge_places_the_item
           (K := sampleConstants) (E := selfHolders RETURNVALUE_NOERROR)
           0 lampWorld (Tile 3) (Tile 3) 1%nat 0 0 0 0 0 (Some 1%nat));
    reflexivity.
Defined.

Lemma add_that_fits_merges_and_releases_witness :
  exists w',
    internalAddItem (K := sampleConstants) (E := stackHolders 100)
                    0 twoStacks (Some (Tile 1)) (Some 1%nat) 0 0 false 0
    = Some (RETURNVALUE_NOERROR, 0, w')
    /\ count (items w' 2%nat) = 50 + 40
    /\ In 1%nat (ToReleaseItems w')
    /\ parent (items w' 1%nat) = Some (Tile 0)
    /\ contents w' = contents twoStacks
    /\ nextItem w' = 3%nat.
Proof.
  apply (add_that_fits_merges_and_releases
           (K := sampleConstants) (E := stackHolders 100)
           0 twoStacks (Tile 1) (Tile 1) 1%nat 2%nat 0 0 0 0 0).
  - reflexivity.
  - reflexivity.
  - reflexivity.
  - reflexivity.
  - vm_compute. split; discriminate.
  - vm_compute. split; [discriminate | reflexivity].
Defined.

Lemma internalRemoveItems_takes_the_amount_witness :
  heldUnits (internalRemoveItems (K := sampleConstants) (E := stackHolders 100)
                                 twoStacks [1%nat; 2%nat] 60 true)
            [1%nat; 2%nat]
  = 90 - Z.min 60 90
  /\ forall j, ~ In j [1%nat; 2%nat] ->
               items (internalRemoveItems (K := sampleConstants)
                                          (E := stackHolders 100)
                                          twoStacks [1%nat; 2%nat] 60 true) j
               = items twoStacks j.
Proof.
  apply (internalRemoveItems_takes_the_amount
           (K := sampleConstants) (E := stackHolders 100)
           twoStacks [1%nat; 2%nat] 60).
  - intros. reflexivity.
  - intros. reflexivity.
  - repeat constructor; simpl; intuition discriminate.
  - intros i [<- | [<- | []]]; vm_compute;
      (split; [discriminate | split; [reflexivity | discriminate]]).
  - lia.
Defined.

Lemma sampleHerd_enrolledOnce : enrolledOnce sampleHerd.
Proof.
  intros c. destruct c as [| [| [| c]]]; cbn.
  - intros k. destruct (k =? 0); cbn; intuition discriminate.
  - exists 0. split; [reflexivity |].
    intros k' Hk. apply Z.eqb_neq in Hk. rewrite Hk. intros [].
  - exists 0. split; [reflexivity |].
    intros k' Hk. apply Z.eqb_neq in Hk. rewrite Hk. intros [].
  - intros k. destruct (k =? 0); cbn; intuition discriminate.
Qed.

Lemma check_lists_enrol_once_witness :
  enrolledOnce (addCreatureCheck sampleHerd 7%nat 3)
  /\ enrolledOnce (removeCreatureCheck sampleHerd 2%nat)
  /\ enrolledOnce
       (snd (checkCreatures (K := sampleConstants) 4 (fun _ _ => false)
                            selfWorld sampleHerd 0)).
Proof.
  destruct (check_lists_enrol_once (K := sampleConstants) 4 (fun _ _ => false)
              selfWorld sampleHerd 7%nat 3 0 sampleHerd_enrolledOnce)
    as [Hadd [_ Hcheck]].
  destruct (check_lists_enrol_once (K := sampleConstants) 4 (fun _ _ => false)
              selfWorld sampleHerd 2%nat 3 0 sampleHerd_enrolledOnce)
    as [_ [Hremove _]].
  split; [exact Hadd |]. split; [exact Hremove | exact Hcheck].
Defined.

Lemma checkCreatures_drops_the_unchecked_witness :
  let h' := snd (checkCreatures (K := sampleConstants) 4 (fun _ _ => false)
                                selfWorld sampleHerd 0) in
  checkCreatureLists h' 0 = [2%nat]
  /\ inCheckCreaturesVector h' 1%nat = false
  /\ creatureReferences h' 1%nat = 0
  /\ thoughtOf h' = [2%nat].
Proof.
  destruct (checkCreatures_drops_the_unchecked
              (K := sampleConstants) 4 (fun _ _ => false) selfWorld sampleHerd 0
              1%nat sampleHerd_enrolledOnce)
    as [Hlist [_ [Hflag [_ [Hrefs _]]]]].
  - left. reflexivity.
  - reflexivity.
  - split; [exact Hlist |]. split; [exact Hflag |].
    split; [exact Hrefs | reflexivity].
Defined.

Lemma quietMarket_tradePaired : tradePaired quietMarket.
Proof.
  intros p. cbn. split; [discriminate |].
  split; [split; reflexivity | reflexivity].
Qed.

Lemma trade_partners_stay_paired_witness :
  tradePaired (snd (internalStartTrade selfWorld quietMarket 1%nat 2%nat 1%nat))
  /\ tradePaired (snd (internalCloseTrade selfWorld quietMarket 1%nat true)).
Proof.
  apply (trade_partners_stay_paired selfWorld quietMarket 1%nat 2%nat 1%nat true).
  exact quietMarket_tradePaired.
Defined.

Lemma offered_trade_closes_without_trace_witness :
  let started := internalStartTrade selfWorld quietMarket 1%nat 2%nat 1%nat in
  let closed := internalCloseTrade (snd (fst started)) (snd started) 2%nat true in
  fst (fst started) = true
  /\ (forall r, traders (snd closed) r = traders quietMarket r)
  /\ (forall i, tradeItems (snd closed) i = tradeItems quietMarket i)
  /\ (forall j, items (fst closed) j
                = if Nat.eqb j 1%nat
                  then incrementReferenceCounter (items selfWorld 1%nat)
                  else items selfWorld j)
  /\ ToReleaseItems (fst closed) = ToReleaseItems selfWorld ++ [1%nat].
Proof.
  apply (offered_trade_closes_without_trace selfWorld quietMarket 1%nat 2%nat
                                            2%nat 1%nat true).
  - exact quietMarket_tradePaired.
  - discriminate.
  - reflexivity.
  - reflexivity.
  - reflexivity.
  - right. reflexivity.
Defined.

Lemma addMoney_makes_the_amount_witness :
  exists w' made,
    addMoney (K := sampleConstants) (E := selfHolders RETURNVALUE_NOERROR)
             (B := coinMint threeCoins) 656 selfWorld (Tile 0) 76543 0
    = Some (w', 0, made)
    /\ Forall (fun c => 1 <= coinCount c <= 100) made
    /\ coinsWorth made + 0 = 76543
    /\ ((exists id, In (1, id) threeCoins) -> coinsWorth made = 76543).
Proof.
  apply (addMoney_makes_the_amount
           (K := sampleConstants) (E := selfHolders RETURNVALUE_NOERROR)
           (B := coinMint threeCoins) 656 selfWorld (Tile 0) 76543 0).
  - lia.
  - lia.
  - intros c [<- | [<- | [<- | []]]]; reflexivity.
  - repeat constructor.
Defined.

Lemma addMoney_hangs_on_65536_coins_witness :
  addMoney (K := sampleConstants) (E := selfHolders RETURNVALUE_NOERROR)
           (B := coinMint [(1, 2148)]) 1000 selfWorld (Tile 0) 65536 0 = None.
Proof.
  apply (addMoney_hangs_on_65536_coins
           (K := sampleConstants) (E := selfHolders RETURNVALUE_NOERROR)
           (B := coinMint [(1, 2148)]) 1000 selfWorld (Tile 0) 65536 0 1 2148 []).
  - reflexivity.
  - lia.
  - lia.
  - vm_compute. discriminate.
Defined.

Lemma container_position_round_trip_witness :
  let pos := fst (internalGetPosition (P := bagPlaces 3) stackWorld 2%nat) in
  internalGetCylinder (P := bagPlaces 3) stackWorld 0%nat pos
  = Some (Container 9)
  /\ fromIndexOf pos 0 = 0
  /\ snd (internalGetPosition (P := bagPlaces 3) stackWorld 2%nat) = 0.
Proof.
  apply (container_position_round_trip (P := bagPlaces 3) stackWorld 2%nat 0%nat
                                       9%nat 0).
  - reflexivity.
  - reflexivity.
  - vm_compute. split; [discriminate | reflexivity].
  - reflexivity.
  - vm_compute. split; [discriminate | reflexivity].
Defined.

Lemma unopened_container_reads_as_container_15_witness :
  let pos := fst (internalGetPosition (P := bagPlaces (-1)) stackWorld 2%nat) in
  py pos = 65535
  /\ internalGetCylinder (P := bagPlaces (-1)) stackWorld 0%nat pos
     = Some (Container 9).
Proof.
  apply (unopened_container_reads_as_container_15 (P := bagPlaces (-1)) stackWorld
                                                  2%nat 0%nat 9%nat);
    reflexivity.
Defined.

Lemma inventory_position_round_trip_witness :
  let pos := fst (internalGetPosition (P := bagPlaces 3) stackWorld 9%nat) in
  internalGetCylinder (P := bagPlaces 3) stackWorld 0%nat pos = Some (Player 0)
  /\ fromIndexOf pos 0 = 1
  /\ snd (internalGetPosition (P := bagPlaces 3) stackWorld 9%nat) = 1.
Proof.
  apply (inventory_position_round_trip (P := bagPlaces 3) stackWorld 9%nat 0%nat 0).
  - reflexivity.
  - reflexivity.
  - vm_compute. split; [discriminate | reflexivity].
Defined.

Lemma one_sided_hit_is_never_blocked_witness :
  fst (fst (combatBlockHit (C := armoredTarget) []
              (mkCombatDamage (mkCombatValue COMBAT_PHYSICALDAMAGE (-30))
                              (mkCombatValue COMBAT_NONE 0) BLOCK_NONE)
              None (PlayerCreature 0) true true false false)) = false.
Proof.
  apply (one_sided_hit_is_never_blocked (C := armoredTarget)).
  - right. reflexivity.
  - intros [H _]. discriminate H.
  - reflexivity.
Defined.

Lemma removal_notices_follow_the_recorded_order_witness :
  exists s' h',
    removeCreature (V := crowd) 0 tt sampleHerd 9%nat true
    = Some (true, s', h', [(2%nat, -1); (3%nat, 12)]).
Proof.
  destruct (removal_notices_follow_the_recorded_order
              (V := crowd) 0 tt sampleHerd 9%nat true
              (fun p => negb (Nat.eqb p 1)))
    as [_ [Hsent _]].
  - reflexivity.
  - intros s' player. reflexivity.
  - exact (Hsent (fun _ => eq_refl)).
Defined.

